(** * Exoplanet Explorer: data pipeline, science enrichment and catalog search

    A shallow embedding of [js/nasa-data.js], [js/science.js], the catalog
    functions of [js/database.js] (construction, scoring, classification,
    lookup and search) and the name hash of [js/app.js], followed by the
    properties proved about them.  JavaScript numbers are modelled as extended reals with a [NaN]
    (exact arithmetic, a single zero); objects with a fixed shape are records
    whose optional fields are [option]s ([None] stands for [null] and
    [undefined] alike); objects used as dictionaries are finite maps. *)

From Stdlib Require Import Reals Lra Lia ZArith Psatz List String Ascii Bool.
From stdpp Require Import gmap strings list fin_maps pretty sorting.

(* ===================================================================== *)
(** * Part I: the embedding                                               *)
(* ===================================================================== *)

(** ** JavaScript numbers *)

Inductive num : Type :=
  | NaN
  | NegInf
  | PosInf
  | Fin (r : R).

Definition Rltb (x y : R) : bool := if Rlt_dec x y then true else false.
Definition Rleb (x y : R) : bool := if Rle_dec x y then true else false.
Definition Reqb (x y : R) : bool := if Req_dec_T x y then true else false.

(** [a < b]; every comparison with [NaN] is false. *)
Definition num_lt (a b : num) : bool :=
  match a, b with
  | NaN, _ => false
  | _, NaN => false
  | Fin x, Fin y => Rltb x y
  | NegInf, NegInf => false
  | NegInf, _ => true
  | PosInf, _ => false
  | Fin _, PosInf => true
  | Fin _, NegInf => false
  end.

(** [a === b] on numbers. *)
Definition num_eq (a b : num) : bool :=
  match a, b with
  | Fin x, Fin y => Reqb x y
  | NegInf, NegInf => true
  | PosInf, PosInf => true
  | _, _ => false
  end.

Definition num_le (a b : num) : bool := num_lt a b || num_eq a b.
Definition num_gt (a b : num) : bool := num_lt b a.
Definition num_ge (a b : num) : bool := num_le b a.

Definition num_neg (a : num) : num :=
  match a with
  | NaN => NaN
  | NegInf => PosInf
  | PosInf => NegInf
  | Fin x => Fin (- x)
  end.

Definition num_add (a b : num) : num :=
  match a, b with
  | NaN, _ => NaN
  | _, NaN => NaN
  | Fin x, Fin y => Fin (x + y)
  | PosInf, NegInf => NaN
  | NegInf, PosInf => NaN
  | PosInf, _ => PosInf
  | _, PosInf => PosInf
  | NegInf, _ => NegInf
  | _, NegInf => NegInf
  end.

Definition num_sub (a b : num) : num := num_add a (num_neg b).

(** The infinity with the sign of [x], [NaN] for zero. *)
Definition signed_inf (x : R) : num :=
  if Rltb 0 x then PosInf else if Rltb x 0 then NegInf else NaN.

Definition num_mul (a b : num) : num :=
  match a, b with
  | NaN, _ => NaN
  | _, NaN => NaN
  | Fin x, Fin y => Fin (x * y)
  | Fin x, PosInf => signed_inf x
  | PosInf, Fin x => signed_inf x
  | Fin x, NegInf => signed_inf (- x)
  | NegInf, Fin x => signed_inf (- x)
  | PosInf, PosInf => PosInf
  | NegInf, NegInf => PosInf
  | PosInf, NegInf => NegInf
  | NegInf, PosInf => NegInf
  end.

(** Division; a zero divisor is the positive zero. *)
Definition num_div (a b : num) : num :=
  match a, b with
  | NaN, _ => NaN
  | _, NaN => NaN
  | Fin x, Fin y => if Reqb y 0 then signed_inf x else Fin (x / y)
  | Fin _, PosInf => Fin 0
  | Fin _, NegInf => Fin 0
  | PosInf, Fin y => if Rltb y 0 then NegInf else PosInf
  | NegInf, Fin y => if Rltb y 0 then PosInf else NegInf
  | _, _ => NaN
  end.

Declare Scope num_scope.
Delimit Scope num_scope with num.
Bind Scope num_scope with num.
Infix "+" := num_add : num_scope.
Infix "-" := num_sub : num_scope.
Infix "*" := num_mul : num_scope.
Infix "/" := num_div : num_scope.
Infix "<?" := num_lt : num_scope.
Infix "<=?" := num_le : num_scope.
Infix ">?" := num_gt : num_scope.
Infix ">=?" := num_ge : num_scope.

(** [!!x] for a number: [NaN] and zero are falsy. *)
Definition num_truthy (a : num) : bool :=
  match a with
  | NaN => false
  | Fin x => negb (Reqb x 0)
  | _ => true
  end.

Definition Math_abs (a : num) : num :=
  match a with
  | NaN => NaN
  | Fin x => Fin (Rabs x)
  | _ => PosInf
  end.

Definition Math_sqrt (a : num) : num :=
  match a with
  | Fin x => if Rltb x 0 then NaN else Fin (sqrt x)
  | PosInf => PosInf
  | _ => NaN
  end.

Definition Math_floor (a : num) : num :=
  match a with
  | Fin x => Fin (IZR (Int_part x))
  | _ => a
  end.

(** [Math.round] rounds half-way cases up. *)
Definition Math_round (a : num) : num :=
  match a with
  | Fin x => Fin (IZR (Int_part (x + / 2)))
  | _ => a
  end.

Definition Math_max (a b : num) : num :=
  match a, b with
  | NaN, _ => NaN
  | _, NaN => NaN
  | _, _ => if num_lt a b then b else a
  end.

Definition Math_min (a b : num) : num :=
  match a, b with
  | NaN, _ => NaN
  | _, NaN => NaN
  | _, _ => if num_lt b a then b else a
  end.

Definition is_integer (y : R) : bool := Reqb y (IZR (Int_part y)).

(** [Math.pow base exponent]. *)
Definition Math_pow (b e : num) : num :=
  match e with
  | NaN => NaN
  | Fin y =>
      if Reqb y 0 then Fin 1 else
      match b with
      | NaN => NaN
      | Fin x =>
          if Rltb 0 x then Fin (Rpower x y)
          else if Reqb x 0 then (if Rltb 0 y then Fin 0 else PosInf)
          else if is_integer y then Fin (powerRZ x (Int_part y))
          else NaN
      | PosInf => if Rltb 0 y then PosInf else Fin 0
      | NegInf =>
          if Rltb 0 y
          then (if is_integer y && Z.odd (Int_part y) then NegInf else PosInf)
          else Fin 0
      end
  | PosInf =>
      match b with
      | NaN => NaN
      | Fin x =>
          if Reqb (Rabs x) 1 then NaN
          else if Rltb 1 (Rabs x) then PosInf else Fin 0
      | _ => PosInf
      end
  | NegInf =>
      match b with
      | NaN => NaN
      | Fin x =>
          if Reqb (Rabs x) 1 then NaN
          else if Rltb 1 (Rabs x) then Fin 0 else PosInf
      | _ => Fin 0
      end
  end.

(** ** JavaScript strings (ASCII case mapping and white space) *)

Definition lower_ascii (c : ascii) : ascii :=
  let n := nat_of_ascii c in
  if (65 <=? n)%nat && (n <=? 90)%nat then ascii_of_nat (n + 32) else c.

Fixpoint toLowerCase (s : string) : string :=
  match s with
  | EmptyString => EmptyString
  | String c r => String (lower_ascii c) (toLowerCase r)
  end.

Definition is_space (c : ascii) : bool :=
  let n := nat_of_ascii c in
  (n =? 32)%nat || ((9 <=? n)%nat && (n <=? 13)%nat).

Fixpoint trimStart (s : string) : string :=
  match s with
  | String c r => if is_space c then trimStart r else s
  | EmptyString => EmptyString
  end.

Fixpoint trimEnd (s : string) : string :=
  match s with
  | EmptyString => EmptyString
  | String c r =>
      match trimEnd r with
      | EmptyString => if is_space c then EmptyString else String c EmptyString
      | r' => String c r'
      end
  end.

Definition trim (s : string) : string := trimEnd (trimStart s).

Fixpoint startsWith (s p : string) : bool :=
  match p, s with
  | EmptyString, _ => true
  | String a p', String b s' => if Ascii.eqb a b then startsWith s' p' else false
  | String _ _, EmptyString => false
  end.

(** [s.includes(q)] *)
Fixpoint includes (s q : string) : bool :=
  startsWith s q ||
  match s with
  | EmptyString => false
  | String _ r => includes r q
  end.

(** A string is truthy when it is not empty. *)
Definition str_truthy (s : string) : bool :=
  match s with EmptyString => false | _ => true end.

Definition opt_str_truthy (o : option string) : bool :=
  match o with Some s => str_truthy s | None => false end.

Definition opt_num_truthy (o : option num) : bool :=
  match o with Some a => num_truthy a | None => false end.

(** [x == null] *)
Definition is_null {A} (o : option A) : bool :=
  match o with None => true | Some _ => false end.

(** ** Planet records

    The internal schema produced by [mapNASARecord] (js/nasa-data.js), plus
    the [eqTempEstimated] flag that the validator may attach (absent reads as
    [false]). *)

Record planet : Type := mkPlanet {
  name : string;
  system : string;
  distance : option num;
  radius : option num;
  mass : option num;
  period : option num;
  semiMajorAxis : option num;
  eqTemp : option num;
  eccentricity : option num;
  inclination : option num;
  starType : option string;
  starTemp : option num;
  starMass : option num;
  starLum : option num;
  starLumLog : option num;
  discovered : option num;
  discoveryMethod : option string;
  discoveryFacility : option string;
  discoveryRef : option string;
  ra : option num;
  dec : option num;
  vMag : option num;
  kMag : option num;
  controversial : bool;
  source : string;
  nasaRaw : bool;
  eqTempEstimated : bool
}.

(** Field assignments [p.f = v]. *)

Definition set_distance (v : option num) (p : planet) : planet :=
  mkPlanet
    (name p) (system p) v (radius p) (mass p) (period p) (semiMajorAxis p)
    (eqTemp p) (eccentricity p) (inclination p) (starType p) (starTemp p)
    (starMass p) (starLum p) (starLumLog p) (discovered p)
    (discoveryMethod p) (discoveryFacility p) (discoveryRef p) (ra p)
    (dec p) (vMag p) (kMag p) (controversial p) (source p) (nasaRaw p)
    (eqTempEstimated p).

Definition set_radius (v : option num) (p : planet) : planet :=
  mkPlanet
    (name p) (system p) (distance p) v (mass p) (period p)
    (semiMajorAxis p) (eqTemp p) (eccentricity p) (inclination p)
    (starType p) (starTemp p) (starMass p) (starLum p) (starLumLog p)
    (discovered p) (discoveryMethod p) (discoveryFacility p)
    (discoveryRef p) (ra p) (dec p) (vMag p) (kMag p) (controversial p)
    (source p) (nasaRaw p) (eqTempEstimated p).

Definition set_mass (v : option num) (p : planet) : planet :=
  mkPlanet
    (name p) (system p) (distance p) (radius p) v (period p)
    (semiMajorAxis p) (eqTemp p) (eccentricity p) (inclination p)
    (starType p) (starTemp p) (starMass p) (starLum p) (starLumLog p)
    (discovered p) (discoveryMethod p) (discoveryFacility p)
    (discoveryRef p) (ra p) (dec p) (vMag p) (kMag p) (controversial p)
    (source p) (nasaRaw p) (eqTempEstimated p).

Definition set_eqTemp (v : option num) (p : planet) : planet :=
  mkPlanet
    (name p) (system p) (distance p) (radius p) (mass p) (period p)
    (semiMajorAxis p) v (eccentricity p) (inclination p) (starType p)
    (starTemp p) (starMass p) (starLum p) (starLumLog p) (discovered p)
    (discoveryMethod p) (discoveryFacility p) (discoveryRef p) (ra p)
    (dec p) (vMag p) (kMag p) (controversial p) (source p) (nasaRaw p)
    (eqTempEstimated p).

Definition set_period (v : option num) (p : planet) : planet :=
  mkPlanet
    (name p) (system p) (distance p) (radius p) (mass p) v
    (semiMajorAxis p) (eqTemp p) (eccentricity p) (inclination p)
    (starType p) (starTemp p) (starMass p) (starLum p) (starLumLog p)
    (discovered p) (discoveryMethod p) (discoveryFacility p)
    (discoveryRef p) (ra p) (dec p) (vMag p) (kMag p) (controversial p)
    (source p) (nasaRaw p) (eqTempEstimated p).

Definition set_semiMajorAxis (v : option num) (p : planet) : planet :=
  mkPlanet
    (name p) (system p) (distance p) (radius p) (mass p) (period p) v
    (eqTemp p) (eccentricity p) (inclination p) (starType p) (starTemp p)
    (starMass p) (starLum p) (starLumLog p) (discovered p)
    (discoveryMethod p) (discoveryFacility p) (discoveryRef p) (ra p)
    (dec p) (vMag p) (kMag p) (controversial p) (source p) (nasaRaw p)
    (eqTempEstimated p).

Definition set_eqTempEstimated (v : bool) (p : planet) : planet :=
  mkPlanet
    (name p) (system p) (distance p) (radius p) (mass p) (period p)
    (semiMajorAxis p) (eqTemp p) (eccentricity p) (inclination p)
    (starType p) (starTemp p) (starMass p) (starLum p) (starLumLog p)
    (discovered p) (discoveryMethod p) (discoveryFacility p)
    (discoveryRef p) (ra p) (dec p) (vMag p) (kMag p) (controversial p)
    (source p) (nasaRaw p) v.

(** ** Data quality checks ([validateAndClean], js/nasa-data.js) *)

Record NullFields : Type := mkNullFields {
  nf_distance : nat;
  nf_radius : nat;
  nf_mass : nat;
  nf_eqTemp : nat;
  nf_period : nat;
  nf_semiMajorAxis : nat
}.

Record BadValue : Type := mkBadValue {
  bv_name : string;
  bv_field : string;
  bv_value : num
}.

Record Duplicate : Type := mkDuplicate {
  dup_name : string;
  dup_count : nat
}.

(** [totalOutput] is written once, after the loop; it reads [0] before. *)
Record Report : Type := mkReport {
  totalInput : nat;
  nullFields : NullFields;
  badValues : list BadValue;
  duplicates : list Duplicate;
  rep_controversial : nat;
  cleaned : nat;
  passed : nat;
  totalOutput : nat
}.

Definition set_nullFields (v : NullFields) (r : Report) : Report :=
  mkReport (totalInput r) v (badValues r) (duplicates r)
    (rep_controversial r) (cleaned r) (passed r) (totalOutput r).

Definition push_badValue (b : BadValue) (r : Report) : Report :=
  mkReport (totalInput r) (nullFields r) (badValues r ++ [b]) (duplicates r)
    (rep_controversial r) (cleaned r) (passed r) (totalOutput r).

Definition set_duplicates (v : list Duplicate) (r : Report) : Report :=
  mkReport (totalInput r) (nullFields r) (badValues r) v
    (rep_controversial r) (cleaned r) (passed r) (totalOutput r).

Definition inc_controversial (r : Report) : Report :=
  mkReport (totalInput r) (nullFields r) (badValues r) (duplicates r)
    (S (rep_controversial r)) (cleaned r) (passed r) (totalOutput r).

Definition inc_cleaned (r : Report) : Report :=
  mkReport (totalInput r) (nullFields r) (badValues r) (duplicates r)
    (rep_controversial r) (S (cleaned r)) (passed r) (totalOutput r).

Definition inc_passed (r : Report) : Report :=
  mkReport (totalInput r) (nullFields r) (badValues r) (duplicates r)
    (rep_controversial r) (cleaned r) (S (passed r)) (totalOutput r).

Definition set_totalOutput (v : nat) (r : Report) : Report :=
  mkReport (totalInput r) (nullFields r) (badValues r) (duplicates r)
    (rep_controversial r) (cleaned r) (passed r) v.

(** [nameCounts[key] = (nameCounts[key] || 0) + 1] for every record.  The
    dictionary is a finite map from names to counts (its own properties). *)
Definition count_name (nameCounts : gmap string nat) (p : planet)
  : gmap string nat :=
  let key := name p in
  <[key := S (default 0%nat (nameCounts !! key))]> nameCounts.

Definition count_names (planets : list planet) : gmap string nat :=
  fold_left count_name planets ∅.

(** [Object.entries(nameCounts).filter(count > 1).map({name, count})]; the
    enumeration order of the entries is that of [map_to_list]. *)
Definition find_duplicates (nameCounts : gmap string nat) : list Duplicate :=
  map (fun e => mkDuplicate (fst e) (snd e))
      (filter (fun e => (1 <? snd e)%nat = true) (map_to_list nameCounts)).

(** [if (p.f == null) report.nullFields.f++] for the six tracked fields. *)
Definition bump {A} (o : option A) (n : nat) : nat :=
  if is_null o then S n else n.

Definition tally_nulls (p : planet) (nf : NullFields) : NullFields :=
  mkNullFields
    (bump (distance p) (nf_distance nf))
    (bump (radius p) (nf_radius nf))
    (bump (mass p) (nf_mass nf))
    (bump (eqTemp p) (nf_eqTemp nf))
    (bump (period p) (nf_period nf))
    (bump (semiMajorAxis p) (nf_semiMajorAxis nf)).

(** The four range checks.  Each is [Some v] when the field holds the
    offending value [v]. *)
Definition radius_out_of_range (p : planet) : option num :=
  match radius p with
  | Some r => if (r <=? Fin 0)%num || (r >? Fin 100)%num then Some r else None
  | None => None
  end.

Definition mass_out_of_range (p : planet) : option num :=
  match mass p with
  | Some m => if (m <=? Fin 0)%num || (m >? Fin 100000)%num then Some m else None
  | None => None
  end.

Definition distance_out_of_range (p : planet) : option num :=
  match distance p with
  | Some d => if (d <=? Fin 0)%num then Some d else None
  | None => None
  end.

Definition eqTemp_out_of_range (p : planet) : option num :=
  match eqTemp p with
  | Some t => if (t <? Fin 2)%num || (t >? Fin 10000)%num then Some t else None
  | None => None
  end.

(** One check: push the entry and raise [bad] when [sets_bad]. *)
Definition flag (field : string) (sets_bad : bool) (p : planet)
    (check : option num) (acc : Report * bool) : Report * bool :=
  match check with
  | Some v =>
      (push_badValue (mkBadValue (name p) field v) (fst acc),
       if sets_bad then true else snd acc)
  | None => acc
  end.

Definition range_checks (p : planet) (report : Report) : Report * bool :=
  let acc := (report, false) in
  let acc := flag "radius" true p (radius_out_of_range p) acc in
  let acc := flag "mass" true p (mass_out_of_range p) acc in
  let acc := flag "distance" true p (distance_out_of_range p) acc in
  flag "eqTemp" false p (eqTemp_out_of_range p) acc.

(** Reading a numeric field that is known to be present. *)
Definition the_num (o : option num) : num :=
  match o with Some n => n | None => NaN end.

(** The estimate of a missing mass from the radius. *)
Definition mass_estimate (r : num) : num :=
  if (r >? Fin 4)%num then (r * Fin 5)%num else Math_pow r (Fin 2.5).

(** The equilibrium temperature given to a record that has none. *)
Definition eqTemp_default (p : planet) : num :=
  match starLum p, semiMajorAxis p with
  | Some l, Some a =>
      if (a >? Fin 0)%num
      then Math_round (Fin 278 * Math_pow l (Fin 0.25) / Math_sqrt a)%num
      else Fin 300
  | _, _ => Fin 300
  end.

(** Defaults for the display fields, assigned in the order of the source. *)
Definition fill_defaults (p : planet) : planet :=
  let p := if is_null (distance p) then set_distance (Some (Fin 0)) p else p in
  let p := if is_null (radius p) then set_radius (Some (Fin 1)) p else p in
  let p := if is_null (mass p)
           then set_mass (Some (mass_estimate (the_num (radius p)))) p else p in
  let p := if is_null (eqTemp p)
           then set_eqTempEstimated true
                  (set_eqTemp (Some (eqTemp_default p)) p)
           else p in
  let p := if is_null (period p) then set_period (Some (Fin 0)) p else p in
  let p := if is_null (semiMajorAxis p)
           then set_semiMajorAxis (Some (Fin 0)) p else p in
  p.

(** The state of the main loop: the report, the output array and the set of
    names seen so far. *)
Record CleanState : Type := mkCleanState {
  cs_report : Report;
  cs_cleaned : list planet;
  cs_seen : gset string
}.

Definition clean_step (st : CleanState) (p : planet) : CleanState :=
  if decide (name p ∈ cs_seen st) then
    (* duplicate: counted and skipped *)
    mkCleanState (inc_cleaned (cs_report st)) (cs_cleaned st) (cs_seen st)
  else
    let seen := cs_seen st ∪ {[ name p ]} in
    let report := cs_report st in
    let report := set_nullFields (tally_nulls p (nullFields report)) report in
    let report := if controversial p then inc_controversial report else report in
    let '(report, bad) := range_checks p report in
    let p := fill_defaults p in
    if negb bad
    then mkCleanState (inc_passed report) (cs_cleaned st ++ [p]) seen
    else mkCleanState (inc_passed report) (cs_cleaned st ++ [p]) seen.

Definition initial_report (planets : list planet) : Report :=
  mkReport (length planets) (mkNullFields 0 0 0 0 0 0) [] [] 0 0 0 0.

Definition validateAndClean (planets : list planet) : list planet * Report :=
  let report := initial_report planets in
  let report := set_duplicates (find_duplicates (count_names planets)) report in
  let st := fold_left clean_step planets (mkCleanState report [] ∅) in
  let report := set_totalOutput (length (cs_cleaned st)) (cs_report st) in
  (cs_cleaned st, report).

(** ** Field mapping ([mapNASARecord], js/nasa-data.js) *)

(** A row of the archive's answer, with the columns that are read. *)
Record RawRecord : Type := mkRawRecord {
  pl_name : option string;
  hostname : option string;
  sy_dist : option num;
  pl_rade : option num;
  pl_bmasse : option num;
  pl_orbper : option num;
  pl_orbsmax : option num;
  pl_eqt : option num;
  st_spectype : option string;
  st_teff : option num;
  st_mass : option num;
  st_lum : option num;
  disc_year : option num;
  discoverymethod : option string;
  disc_facility : option string;
  raw_ra : option num;
  raw_dec : option num;
  sy_vmag : option num;
  sy_kmag : option num;
  pl_orbeccen : option num;
  pl_orbincl : option num;
  disc_refname : option string;
  pl_controv_flag : option num
}.

Definition PARSEC_TO_LY : num := Fin 3.26156.

(** [s || fallback] on strings. *)
Definition str_or (o : option string) (fallback : option string) : option string :=
  if opt_str_truthy o then o else fallback.

Definition is_designator (c : ascii) : bool :=
  let n := nat_of_ascii (lower_ascii c) in (98 <=? n)%nat && (n <=? 105)%nat.

(** [s.replace(/\s[b-i]$/i, '')]: drop a final letter b..i that follows a
    white-space character, together with that character. *)
Fixpoint strip_designator (s : string) : string :=
  match s with
  | String a (String b EmptyString) =>
      if is_space a && is_designator b then EmptyString else s
  | String a r => String a (strip_designator r)
  | EmptyString => EmptyString
  end.

Definition mapNASARecord (raw : RawRecord) : planet :=
  let distance := option_map (fun d => (d * PARSEC_TO_LY)%num) (sy_dist raw) in
  let starLumLog := st_lum raw in
  let starLum := option_map (fun l => Math_pow (Fin 10) l) starLumLog in
  {| name := default "Unknown" (str_or (pl_name raw) None);
     system :=
       default "Unknown"
         (str_or (hostname raw)
            (str_or (option_map strip_designator (pl_name raw)) None));
     distance := distance;
     radius := pl_rade raw;
     mass := pl_bmasse raw;
     period := pl_orbper raw;
     semiMajorAxis := pl_orbsmax raw;
     eqTemp := option_map Math_round (pl_eqt raw);
     eccentricity := pl_orbeccen raw;
     inclination := pl_orbincl raw;
     starType := str_or (st_spectype raw) None;
     starTemp := option_map Math_round (st_teff raw);
     starMass := st_mass raw;
     starLum := starLum;
     starLumLog := starLumLog;
     discovered := disc_year raw;
     discoveryMethod := str_or (discoverymethod raw) None;
     discoveryFacility := str_or (disc_facility raw) None;
     discoveryRef := str_or (disc_refname raw) None;
     ra := raw_ra raw;
     dec := raw_dec raw;
     vMag := sy_vmag raw;
     kMag := sy_kmag raw;
     controversial :=
       match pl_controv_flag raw with Some f => num_eq f (Fin 1) | None => false end;
     source := "NASA Exoplanet Archive";
     nasaRaw := true;
     eqTempEstimated := false |}.

(** ** Cache and loading pipeline (js/nasa-data.js) *)

Definition CACHE_VERSION : Z := 2.
Definition CACHE_MAX_AGE_MS : Z := 24 * 60 * 60 * 1000.
Definition CACHE_STALE_AGE_MS : Z := 7 * 24 * 60 * 60 * 1000.

(** What a [localStorage] key gives when it is read and parsed: nothing,
    something that makes [getItem] or [JSON.parse] throw, or a value. *)
Inductive slot (A : Type) : Type :=
  | Missing
  | Unreadable
  | Holds (a : A).
Arguments Missing {A}.
Arguments Unreadable {A}.
Arguments Holds {A} a.

Record Error : Type := mkError {
  err_name : string;
  message : string
}.

(** A call returns or throws. *)
Inductive completion (A : Type) : Type :=
  | Normal (a : A)
  | Throws (e : Error).
Arguments Normal {A} a.
Arguments Throws {A} e.

Inductive Phase : Type :=
  | fetching | parsing | mapping | validating | complete
  | cache_hit | fallback_cache | fallback_builtin.

Record ProgressEvent : Type := mkEvent {
  phase : Phase;
  ev_message : string
}.

(** The optional progress callback: it sees the event and returns or
    throws. *)
Definition Callback : Type := ProgressEvent -> completion unit.

(** What the network does with the single request. *)
Inductive FetchOutcome : Type :=
  | Responded (rows : list RawRecord)
  | HttpError (status : Z) (statusText : string)
  | Aborted
  | Failed (e : Error).

Section Pipeline.

(** The summary statistics of [computeValidationReport] (medians printed
    with [toFixed], the set of discovery methods, the year range) and the
    length of [JSON.stringify data] are kept abstract. *)
Context {Stats : Type}.
Variable summary_stats : list planet -> Stats.
Variable json_length : list planet -> Z.

Record FullReport : Type := mkFullReport {
  base_report : Report;
  stats : Stats
}.

Definition computeValidationReport (planets : list planet) (report : Report)
  : FullReport :=
  mkFullReport report (summary_stats planets).

Record CacheMeta : Type := mkCacheMeta {
  version : Z;
  fetchedAt : Z;
  recordCount : nat;
  meta_report : option FullReport;
  truncated : bool;
  cachedCount : nat
}.

Record Storage : Type := mkStorage {
  cache_entry : slot (list planet);
  meta_entry : slot CacheMeta
}.

(** The environment of one call: the two storage keys, whether writes to
    them succeed, the clock in milliseconds, what the request will do and
    how long it takes, and what has been logged and reported so far. *)
Record World : Type := mkWorld {
  localStorage : Storage;
  cache_writable : bool;
  meta_writable : bool;
  Date_now : Z;
  network : FetchOutcome;
  fetch_ms : Z;
  console : list string;
  progress : list ProgressEvent
}.

Definition M (A : Type) : Type := World -> completion A * World.

Definition ret {A} (a : A) : M A := fun w => (Normal a, w).
Definition throw {A} (e : Error) : M A := fun w => (Throws e, w).
Definition bind {A B} (c : M A) (k : A -> M B) : M B :=
  fun w =>
    match c w with
    | (Normal a, w') => k a w'
    | (Throws e, w') => (Throws e, w')
    end.
Definition try_catch {A} (body : M A) (handler : Error -> M A) : M A :=
  fun w =>
    match body w with
    | (Normal a, w') => (Normal a, w')
    | (Throws e, w') => handler e w'
    end.

Notation "x <- c ;; k" := (bind c (fun x => k))
  (at level 100, c at next level, right associativity).
Notation "c ;;; k" := (bind c (fun _ => k))
  (at level 100, right associativity).

Definition with_storage (s : Storage) (w : World) : World :=
  mkWorld s (cache_writable w) (meta_writable w) (Date_now w) (network w)
    (fetch_ms w) (console w) (progress w).

Definition console_warn (line : string) : M unit :=
  fun w =>
    (Normal tt,
     mkWorld (localStorage w) (cache_writable w) (meta_writable w)
       (Date_now w) (network w) (fetch_ms w) (console w ++ [line])
       (progress w)).

Definition now : M Z := fun w => (Normal (Date_now w), w).

Definition TypeError (msg : string) : Error := mkError "TypeError" msg.
Definition SyntaxError : Error := mkError "SyntaxError" "Unexpected token".
Definition QuotaExceeded : Error :=
  mkError "QuotaExceededError" "The quota has been exceeded.".

(** [JSON.parse(localStorage.getItem(key))] after the [!raw] test. *)
Definition read_slot {A} (get : Storage -> slot A) : M (option A) :=
  fun w =>
    match get (localStorage w) with
    | Missing => (Normal None, w)
    | Unreadable => (Throws SyntaxError, w)
    | Holds a => (Normal (Some a), w)
    end.

Definition getCacheMeta : M (option CacheMeta) :=
  try_catch (read_slot meta_entry) (fun _ => ret None).

Definition getCachedData : M (option (list planet)) :=
  try_catch (read_slot cache_entry) (fun _ => ret None).

Definition setItem_meta (meta : CacheMeta) : M unit :=
  fun w =>
    if meta_writable w
    then (Normal tt,
          with_storage (mkStorage (cache_entry (localStorage w)) (Holds meta)) w)
    else (Throws QuotaExceeded, w).

Definition setItem_cache (data : list planet) : M unit :=
  fun w =>
    if cache_writable w
    then (Normal tt,
          with_storage (mkStorage (Holds data) (meta_entry (localStorage w))) w)
    else (Throws QuotaExceeded, w).

Definition setCacheMeta (meta : CacheMeta) : M unit :=
  try_catch (setItem_meta meta)
    (fun e => console_warn ("[NASA-Data] Could not write cache meta: " +:+ message e)).

Definition set_truncation (t : bool) (n : nat) (meta : CacheMeta) : CacheMeta :=
  mkCacheMeta (version meta) (fetchedAt meta) (recordCount meta)
    (meta_report meta) t n.

(** [4.5 * 1024 * 1024] *)
Definition CACHE_SIZE_LIMIT : Z := 4718592.

Definition setCachedData (data : list planet) (meta : CacheMeta) : M unit :=
  try_catch
    (if (CACHE_SIZE_LIMIT <? json_length data)%Z then
       let trimmed := take (length data * 4 / 5) data in
       setItem_cache trimmed ;;;
       setCacheMeta (set_truncation true (length trimmed) meta)
     else
       setItem_cache data ;;;
       setCacheMeta (set_truncation false (length data) meta))
    (fun e => console_warn ("[NASA-Data] Could not write cache: " +:+ message e)).

Definition isCacheFresh : M bool :=
  meta <- getCacheMeta ;;
  match meta with
  | None => ret false
  | Some meta =>
      if negb (version meta =? CACHE_VERSION)%Z then ret false else
      t <- now ;;
      let age := (t - fetchedAt meta)%Z in
      ret (age <? CACHE_MAX_AGE_MS)%Z
  end.

Definition isCacheUsable : M bool :=
  meta <- getCacheMeta ;;
  match meta with
  | None => ret false
  | Some meta =>
      if negb (version meta =? CACHE_VERSION)%Z then ret false else
      t <- now ;;
      let age := (t - fetchedAt meta)%Z in
      ret (age <? CACHE_STALE_AGE_MS)%Z
  end.

Definition plural (n : Z) : string := if (1 <? n)%Z then "s" else "".

Definition formatAge (timestamp : Z) : M string :=
  t <- now ;;
  let ms := (t - timestamp)%Z in
  let hours := (ms / 3600000)%Z in
  if (hours <? 1)%Z then ret "less than 1 hour"
  else if (hours <? 24)%Z then ret (pretty hours +:+ " hour" +:+ plural hours)
  else
    let days := (hours / 24)%Z in
    ret (pretty days +:+ " day" +:+ plural days).

(** [if (onProgress) onProgress(ev)] *)
Definition notify (onProgress : option Callback) (ev : ProgressEvent) : M unit :=
  match onProgress with
  | None => ret tt
  | Some cb =>
      fun w =>
        let w' :=
          mkWorld (localStorage w) (cache_writable w) (meta_writable w)
            (Date_now w) (network w) (fetch_ms w) (console w)
            (progress w ++ [ev]) in
        match cb ev with
        | Normal _ => (Normal tt, w')
        | Throws e => (Throws e, w')
        end
  end.

(** [await fetch(...)], the status test and [await response.json()]: time
    passes, then the request has succeeded with rows or an error is
    thrown. *)
Definition await_response : M (list RawRecord) :=
  fun w =>
    let w' :=
      mkWorld (localStorage w) (cache_writable w) (meta_writable w)
        (Date_now w + fetch_ms w)%Z (network w) (fetch_ms w) (console w)
        (progress w) in
    match network w with
    | Responded rows => (Normal rows, w')
    | HttpError status statusText =>
        (Throws (mkError "Error"
                   ("NASA API returned " +:+ pretty status +:+ ": " +:+ statusText)),
         w')
    | Aborted => (Throws (mkError "AbortError" "The operation was aborted."), w')
    | Failed e => (Throws e, w')
    end.

Definition fetchNASAData (onProgress : option Callback) : M (list RawRecord) :=
  notify onProgress (mkEvent fetching "Querying NASA Exoplanet Archive...") ;;;
  try_catch
    (rawData <- await_response ;;
     notify onProgress
       (mkEvent parsing
          ("Received " +:+ pretty (length rawData) +:+ " records from NASA...")) ;;;
     ret rawData)
    (fun err =>
       if String.eqb (err_name err) "AbortError"
       then throw (mkError "Error" "NASA API request timed out (30s)")
       else throw err).

Record LoadResult : Type := mkLoadResult {
  planets : option (list planet);
  report : option FullReport;
  load_source : string;
  load_fetchedAt : option Z;
  fromCache : bool;
  error : option string
}.

(** [cached && cached.length > 0] *)
Definition nonempty (cached : option (list planet)) : bool :=
  match cached with
  | Some l => (0 <? length l)%nat
  | None => false
  end.

(** Reading a property of [meta] throws when [meta] is [null]. *)
Definition the_meta (meta : option CacheMeta) : M CacheMeta :=
  match meta with
  | Some m => ret m
  | None => throw (TypeError "Cannot read properties of null")
  end.

(** Step 1 of [loadNASAPlanets]: the fresh cache, when there is one. *)
Definition fresh_cache_hit (onProgress : option Callback)
  : M (option LoadResult) :=
  fresh <- isCacheFresh ;;
  if fresh then
    cached <- getCachedData ;;
    meta <- getCacheMeta ;;
    if nonempty cached then
      notify onProgress
        (mkEvent cache_hit
           ("Loaded " +:+ pretty (length (default [] cached)) +:+ " planets from cache")) ;;;
      meta <- the_meta meta ;;
      ret (Some (mkLoadResult cached (meta_report meta) "cache (fresh)"
                   (Some (fetchedAt meta)) true None))
    else ret None
  else ret None.

(** Step 2: the [try] block. *)
Definition live_fetch (onProgress : option Callback) : M LoadResult :=
  rawData <- fetchNASAData onProgress ;;
  notify onProgress
    (mkEvent mapping "Mapping NASA fields to internal schema...") ;;;
  let mapped := map mapNASARecord rawData in
  notify onProgress (mkEvent validating "Running data quality checks...") ;;;
  let '(planets, report) := validateAndClean mapped in
  let fullReport := computeValidationReport planets report in
  fetchedAt <- now ;;
  setCachedData planets
    (mkCacheMeta CACHE_VERSION fetchedAt (length planets) (Some fullReport)
       false 0) ;;;
  notify onProgress
    (mkEvent complete
       ("Pipeline complete: " +:+ pretty (length planets)
        +:+ " confirmed planets loaded")) ;;;
  ret (mkLoadResult (Some planets) (Some fullReport)
         "NASA Exoplanet Archive (live)" (Some fetchedAt) false None).

(** Steps 3 and 4: the [catch] block. *)
Definition fallback (onProgress : option Callback) (err : Error)
  : M LoadResult :=
  console_warn ("[NASA-Data] API fetch failed: " +:+ message err) ;;;
  usable <- isCacheUsable ;;
  stale <-
    (if usable then
       cached <- getCachedData ;;
       meta <- getCacheMeta ;;
       if nonempty cached then
         meta <- the_meta meta ;;
         match onProgress with
         | Some _ =>
             age <- formatAge (fetchedAt meta) ;;
             notify onProgress
               (mkEvent fallback_cache
                  ("API unavailable. Using cached data ("
                   +:+ pretty (length (default [] cached)) +:+ " planets, age: "
                   +:+ age +:+ ")"))
         | None => ret tt
         end ;;;
         age <- formatAge (fetchedAt meta) ;;
         ret (Some (mkLoadResult cached (meta_report meta)
                      ("cache (stale, " +:+ age +:+ " old)")
                      (Some (fetchedAt meta)) true (Some (message err))))
       else ret None
     else ret None) ;;
  match stale with
  | Some result => ret result
  | None =>
      notify onProgress
        (mkEvent fallback_builtin
           "NASA API unavailable and no cache. Using built-in curated catalog.") ;;;
      ret (mkLoadResult None None "built-in fallback" None false
             (Some (message err)))
  end.

Definition loadNASAPlanets (onProgress : option Callback) : M LoadResult :=
  hit <- fresh_cache_hit onProgress ;;
  match hit with
  | Some result => ret result
  | None => try_catch (live_fetch onProgress) (fallback onProgress)
  end.

End Pipeline.

(** ** Science module (js/science.js) *)

(** *** Habitable zone *)

Record HZCoefficients : Type := mkCoefficients {
  S0 : num;
  coef_a : num;
  coef_b : num;
  coef_c : num;
  coef_d : num
}.

Definition HZ_recentVenus : HZCoefficients :=
  mkCoefficients (Fin 1.7763) (Fin 1.4335e-4) (Fin 3.3954e-9)
    (Fin (-7.6364e-12)) (Fin (-1.1950e-15)).
Definition HZ_runawayGH : HZCoefficients :=
  mkCoefficients (Fin 1.0385) (Fin 1.2456e-4) (Fin 1.4612e-8)
    (Fin (-7.6345e-12)) (Fin (-1.7511e-15)).
Definition HZ_maxGreenhouse : HZCoefficients :=
  mkCoefficients (Fin 0.3507) (Fin 5.9578e-5) (Fin 1.6707e-9)
    (Fin (-3.0058e-12)) (Fin (-5.1925e-16)).
Definition HZ_earlyMars : HZCoefficients :=
  mkCoefficients (Fin 0.3207) (Fin 5.4471e-5) (Fin 1.5275e-9)
    (Fin (-2.1709e-12)) (Fin (-3.8282e-16)).

Record HabitableZone : Type := mkHabitableZone {
  conservativeInner : num;
  conservativeOuter : num;
  optimisticInner : num;
  optimisticOuter : num;
  modelValid : bool;
  modelNote : option string;
  hz_reference : string
}.

(** The inner functions [sEff] and [distAU], with the variables they
    capture as arguments. *)
Definition sEff (tStar : num) (coeffs : HZCoefficients) : num :=
  (S0 coeffs + coef_a coeffs * tStar + coef_b coeffs * tStar * tStar
   + coef_c coeffs * Math_pow tStar (Fin 3)
   + coef_d coeffs * Math_pow tStar (Fin 4))%num.

Definition distAU (starLum : num) (sEffVal : num) : num :=
  Math_sqrt (starLum / sEffVal)%num.

Record HZStatus : Type := mkHZStatus {
  conservative : bool;
  optimistic : bool;
  hz_label : string;
  hz : option HabitableZone;
  hz_confidence : string;
  caveat : option string
}.

(** *** Earth Similarity Index *)

Definition EARTH_radius : num := Fin 1.0.
Definition EARTH_mass : num := Fin 1.0.
Definition EARTH_eqTemp : num := Fin 255.
Definition EARTH_density : num := Fin 5.51.
Definition EARTH_escapeVelocity : num := Fin 11.186.

Definition ESI_WEIGHTS_radius : num := Fin 0.57.
Definition ESI_WEIGHTS_density : num := Fin 1.07.
Definition ESI_WEIGHTS_escapeVelocity : num := Fin 0.70.
Definition ESI_WEIGHTS_surfaceTemp : num := Fin 5.58.

Record ESIComponents : Type := mkESIComponents {
  esi_radius : option num;
  esi_density : option num;
  esi_escapeVelocity : option num;
  esi_surfaceTemp : option num
}.

(** [components] is [None] for the empty object of the early return. *)
Record ESI : Type := mkESI {
  global : num;
  interior : option num;
  surface : option num;
  components : option ESIComponents;
  esi_confidence : string;
  esi_reference : option string;
  esi_note : option string
}.

Definition esiComponent (planetVal : option num) (earthVal weight : num)
  : option num :=
  match planetVal with
  | None => None
  | Some v =>
      if (v <=? Fin 0)%num then None
      else
        let ratio := (Math_abs (v - earthVal) / (v + earthVal))%num in
        Some (Math_pow (Fin 1 - ratio)%num weight)
  end.

(** [Math.round(x * 1000) / 1000] *)
Definition round3 (x : num) : num := (Math_round (x * Fin 1000) / Fin 1000)%num.

(** [Object.values(components).filter(v => v != null)] *)
Definition validComponents (c : ESIComponents) : list num :=
  omap (fun v => v)
    [esi_radius c; esi_density c; esi_escapeVelocity c; esi_surfaceTemp c].

(** *** Observer utilities *)

Record Region : Type := mkRegion {
  region_name : string;
  abbr : string;
  raMin : R;
  raMax : R;
  decMin : R;
  decMax : R
}.

Definition CONSTELLATIONS : list Region := [
  mkRegion "Andromeda" "And" 22.8 2.4 21 53;
  mkRegion "Aquarius" "Aqr" 20.6 23.8 (-25) 3;
  mkRegion "Aquila" "Aql" 18.8 20.6 (-12) 18;
  mkRegion "Aries" "Ari" 1.5 3.5 10 31;
  mkRegion "Boötes" "Boo" 13.5 15.8 7 55;
  mkRegion "Cancer" "Cnc" 7.9 9.3 7 33;
  mkRegion "Canis Major" "CMa" 6.0 7.5 (-33) (-11);
  mkRegion "Capricornus" "Cap" 20.0 21.8 (-28) (-8);
  mkRegion "Cassiopeia" "Cas" 22.5 3.5 46 77;
  mkRegion "Centaurus" "Cen" 11.0 15.0 (-64) (-30);
  mkRegion "Cetus" "Cet" 23.5 3.3 (-25) 10;
  mkRegion "Cygnus" "Cyg" 19.1 21.8 28 61;
  mkRegion "Draco" "Dra" 9.4 20.5 48 86;
  mkRegion "Eridanus" "Eri" 1.4 5.1 (-58) 0;
  mkRegion "Gemini" "Gem" 5.9 8.1 10 35;
  mkRegion "Hercules" "Her" 16.0 18.8 14 51;
  mkRegion "Hydra" "Hya" 8.1 15.0 (-35) 7;
  mkRegion "Leo" "Leo" 9.3 12.0 (-6) 33;
  mkRegion "Libra" "Lib" 14.2 16.0 (-30) 0;
  mkRegion "Lyra" "Lyr" 18.1 19.4 25 48;
  mkRegion "Ophiuchus" "Oph" 16.0 18.0 (-30) 14;
  mkRegion "Orion" "Ori" 4.5 6.4 (-11) 23;
  mkRegion "Pegasus" "Peg" 21.1 0.2 2 36;
  mkRegion "Perseus" "Per" 1.4 4.5 31 59;
  mkRegion "Pisces" "Psc" 22.5 2.0 (-6) 34;
  mkRegion "Sagittarius" "Sgr" 17.7 20.4 (-45) (-12);
  mkRegion "Scorpius" "Sco" 15.8 17.8 (-45) (-8);
  mkRegion "Taurus" "Tau" 3.3 6.0 0 31;
  mkRegion "Ursa Major" "UMa" 8.0 14.5 29 73;
  mkRegion "Ursa Minor" "UMi" 0.0 24.0 66 90;
  mkRegion "Virgo" "Vir" 11.6 15.0 (-22) 14;
  mkRegion "Vela" "Vel" 8.0 11.0 (-56) (-37);
  mkRegion "Puppis" "Pup" 6.0 8.5 (-50) (-11);
  mkRegion "Carina" "Car" 6.0 11.3 (-75) (-51);
  mkRegion "Crux" "Cru" 11.9 12.6 (-64) (-56)
]%R.

Record Constellation : Type := mkConstellation {
  const_name : string;
  abbreviation : string
}.

Definition in_region (raH decDeg : num) (c : Region) : bool :=
  let raMatch :=
    if Rltb (raMax c) (raMin c)
    then (raH >=? Fin (raMin c))%num || (raH <=? Fin (raMax c))%num
    else (raH >=? Fin (raMin c))%num && (raH <=? Fin (raMax c))%num in
  raMatch && (decDeg >=? Fin (decMin c))%num && (decDeg <=? Fin (decMax c))%num.

Definition getConstellation (raDeg decDeg : option num) : option Constellation :=
  match raDeg, decDeg with
  | Some raDeg, Some decDeg =>
      let raH := (raDeg / Fin 15)%num in
      match List.find (in_region raH decDeg) CONSTELLATIONS with
      | Some c => Some (mkConstellation (region_name c) (abbr c))
      | None => Some (mkConstellation "Unknown" "---")
      end
  | _, _ => None
  end.

Record Observability : Type := mkObservability {
  bestMonth : string;
  bestMonthAbbr : string;
  bestMonthIndex : nat;
  seasonStart : string;
  seasonEnd : string;
  seasonLabel : string;
  hemisphere : string;
  circumpolarNorth : bool;
  circumpolarSouth : bool;
  obs_note : option string
}.

Definition sunRA : list num :=
  map Fin [19.5; 21.5; 23.5; 1.5; 3.5; 5.5; 7.5; 9.5; 11.5; 13.5; 15.5; 17.5]%R.
Definition monthNames : list string :=
  ["January"; "February"; "March"; "April"; "May"; "June";
   "July"; "August"; "September"; "October"; "November"; "December"].
Definition monthAbbr : list string :=
  ["Jan"; "Feb"; "Mar"; "Apr"; "May"; "Jun";
   "Jul"; "Aug"; "Sep"; "Oct"; "Nov"; "Dec"].

(** One turn of the loop over the months; the state is
    [(bestMonth, bestDiff)]. *)
Definition best_month_step (raH : num) (best : nat * num) (m : nat) : nat * num :=
  let sun := nth m sunRA NaN in
  let diff := Math_abs (raH - sun + Fin 12)%num in
  let diff := if (diff >? Fin 12)%num then (Fin 24 - diff)%num else diff in
  let diff2 := Math_abs ((raH + Fin 24) - (sun + Fin 12))%num in
  let diff2 := if (diff2 >? Fin 12)%num then (Fin 24 - diff2)%num else diff2 in
  let minDiff := Math_min diff diff2 in
  if (minDiff <? snd best)%num then (m, minDiff) else best.

Definition hemisphere_of (decDeg : option num) : string :=
  match decDeg with
  | None => "Unknown"
  | Some d =>
      if (d >? Fin 60)%num then "Northern hemisphere only"
      else if (d >? Fin 20)%num then "Best from Northern hemisphere"
      else if (d >? Fin (-20))%num then "Visible from both hemispheres"
      else if (d >? Fin (-60))%num then "Best from Southern hemisphere"
      else "Southern hemisphere only"
  end.

Definition getObservability (raDeg decDeg : option num) : option Observability :=
  match raDeg with
  | None => None
  | Some raDeg =>
      let raH := (raDeg / Fin 15)%num in
      let bestMonth := fst (fold_left (best_month_step raH) (seq 0 12) (0%nat, Fin 24)) in
      let seasonStart := ((bestMonth + 12 - 2) mod 12)%nat in
      let seasonEnd := ((bestMonth + 2) mod 12)%nat in
      let circumpolarN :=
        match decDeg with Some d => (d >? Fin 50)%num | None => false end in
      let circumpolarS :=
        match decDeg with Some d => (d <? Fin (-50))%num | None => false end in
      Some
        {| bestMonth := nth bestMonth monthNames "";
           bestMonthAbbr := nth bestMonth monthAbbr "";
           bestMonthIndex := bestMonth;
           seasonStart := nth seasonStart monthAbbr "";
           seasonEnd := nth seasonEnd monthAbbr "";
           seasonLabel :=
             nth seasonStart monthAbbr "" +:+ "–" +:+ nth seasonEnd monthAbbr "";
           hemisphere := hemisphere_of decDeg;
           circumpolarNorth := circumpolarN;
           circumpolarSouth := circumpolarS;
           obs_note :=
             if circumpolarN
             then Some "Circumpolar from far-northern latitudes (always visible)."
             else if circumpolarS
             then Some "Circumpolar from far-southern latitudes (always visible)."
             else None |}
  end.

Record MagnitudeGuidance : Type := mkMagnitudeGuidance {
  mag_label : string;
  guidance : string;
  magnitude : option num;
  mag_confidence : string;
  mag_note : option string
}.

(** The ordered thresholds of [getMagnitudeGuidance]: the first band whose
    bound exceeds [vMag] gives the label and the guidance. *)
Definition MAGNITUDE_BANDS : list (R * (string * string)) := [
  (0, ("Very Bright",
       "Easily visible to the naked eye, among the brightest stars in the sky."));
  (2, ("Bright",
       "Visible to the naked eye from most locations, even with some light pollution."));
  (4, ("Moderate",
       "Naked-eye visible from suburban skies. Easy target for any binoculars."));
  (6, ("Dim",
       "Near the naked-eye limit. Requires dark skies or binoculars (7×50 or larger)."));
  (8, ("Binocular",
       "Not naked-eye visible. Requires binoculars or a small telescope (60mm+)."));
  (10, ("Small Telescope",
        "Requires a small telescope (80-150mm aperture) under good conditions."));
  (13, ("Medium Telescope",
        "Requires a medium telescope (150-250mm) and steady skies."));
  (16, ("Large Telescope",
        "Requires a large amateur telescope (300mm+) or astrophotography."))
]%R.

Definition magnitude_band (vMag : num) : string * string :=
  match List.find (fun b => (vMag <? Fin (fst b))%num) MAGNITUDE_BANDS with
  | Some b => snd b
  | None =>
      ("Professional Only",
       "Too faint for most amateur equipment. Requires observatory-class instruments.")
  end.

Definition getMagnitudeGuidance (vMag : option num) : MagnitudeGuidance :=
  match vMag with
  | None =>
      mkMagnitudeGuidance "Unknown" "No magnitude data available." None "low" None
  | Some v =>
      let '(label, guidance) := magnitude_band v in
      mkMagnitudeGuidance label guidance (Some v) "high"
        (Some "Magnitude refers to the host star system brightness, not the planet itself. Exoplanets are not directly visible in amateur telescopes.")
  end.

(** *** Discovery method metadata *)

(** An entry of [DISCOVERY_METHODS]; the descriptive prose of the entries
    (descriptions, strengths, limitations, missions) is not reproduced. *)
Record DiscoveryMethod : Type := mkDiscoveryMethod {
  dm_id : string;
  dm_name : string;
  animationType : string
}.

Fixpoint assoc {A} (table : list (string * A)) (key : string) : option A :=
  match table with
  | [] => None
  | (k, v) :: rest => if String.eqb k key then Some v else assoc rest key
  end.

Definition DISCOVERY_METHODS : list (string * DiscoveryMethod) := [
  ("Transit", mkDiscoveryMethod "transit" "Transit" "transit");
  ("Radial Velocity",
   mkDiscoveryMethod "radialVelocity" "Radial Velocity" "radialVelocity");
  ("Direct Imaging",
   mkDiscoveryMethod "directImaging" "Direct Imaging" "directImaging");
  ("Microlensing",
   mkDiscoveryMethod "microlensing" "Gravitational Microlensing" "microlensing");
  ("Timing", mkDiscoveryMethod "timing" "Timing Variations" "timing");
  ("Astrometry", mkDiscoveryMethod "astrometry" "Astrometry" "astrometry");
  ("Transit Timing Variations",
   mkDiscoveryMethod "ttv" "Transit Timing Variations" "timing");
  ("Imaging", mkDiscoveryMethod "imaging" "Direct Imaging" "directImaging");
  ("Eclipse Timing Variations",
   mkDiscoveryMethod "etv" "Eclipse Timing Variations" "timing");
  ("Pulsar Timing", mkDiscoveryMethod "pulsarTiming" "Pulsar Timing" "timing");
  ("Orbital Brightness Modulation",
   mkDiscoveryMethod "obm" "Orbital Brightness Modulation" "transit");
  ("Disk Kinematics",
   mkDiscoveryMethod "diskKinematics" "Disk Kinematics" "directImaging")
].

Definition METHOD_ALIASES : list (string * string) := [
  ("Transit", "Transit");
  ("Radial Velocity", "Radial Velocity");
  ("Direct Imaging", "Direct Imaging");
  ("Microlensing", "Microlensing");
  ("Imaging", "Direct Imaging");
  ("Astrometry", "Astrometry");
  ("Transit Timing Variations", "Transit Timing Variations");
  ("Eclipse Timing Variations", "Eclipse Timing Variations");
  ("Pulsar Timing", "Pulsar Timing");
  ("Pulsation Timing Variations", "Timing");
  ("Orbital Brightness Modulation", "Orbital Brightness Modulation");
  ("Disk Kinematics", "Disk Kinematics")
].

Definition getDiscoveryMethodInfo (methodName : option string)
  : option DiscoveryMethod :=
  match methodName with
  | None => None
  | Some methodName =>
      if negb (str_truthy methodName) then None
      else
        let normalized := default methodName (assoc METHOD_ALIASES methodName) in
        match assoc DISCOVERY_METHODS normalized with
        | Some info => Some info
        | None => assoc DISCOVERY_METHODS methodName
        end
  end.

(** *** Catalog entries *)

Record Coords : Type := mkCoords {
  coords_ra : option string;
  coords_dec : option string;
  raHours : option num;
  decDeg : option num
}.

(** An element of [PLANET_CATALOG]: the fields of the pipeline record (what
    the spread [...p] copies), the fields added when the catalog is built,
    and the seven fields that [enrichPlanet] attaches.
    [discoveryMethodInfo] is [None] while the property is absent and
    [Some None] once it has been set to [null]. *)
Record CatalogPlanet : Type := mkCatalogPlanet {
  data : planet;
  id : nat;
  type : string;
  habitability : num;
  hzStatus : option HZStatus;
  esi : option ESI;
  coords : option Coords;
  constellation : option Constellation;
  observability : option Observability;
  magnitudeGuidance : option MagnitudeGuidance;
  discoveryMethodInfo : option (option DiscoveryMethod)
}.

Definition set_hzStatus (v : HZStatus) (p : CatalogPlanet) : CatalogPlanet :=
  mkCatalogPlanet (data p) (id p) (type p) (habitability p) (Some v) (esi p)
    (coords p) (constellation p) (observability p) (magnitudeGuidance p)
    (discoveryMethodInfo p).

Definition set_esi (v : ESI) (p : CatalogPlanet) : CatalogPlanet :=
  mkCatalogPlanet (data p) (id p) (type p) (habitability p) (hzStatus p) (Some v)
    (coords p) (constellation p) (observability p) (magnitudeGuidance p)
    (discoveryMethodInfo p).

Definition set_coords (v : Coords) (p : CatalogPlanet) : CatalogPlanet :=
  mkCatalogPlanet (data p) (id p) (type p) (habitability p) (hzStatus p) (esi p)
    (Some v) (constellation p) (observability p) (magnitudeGuidance p)
    (discoveryMethodInfo p).

Definition set_constellation (v : option Constellation) (p : CatalogPlanet)
  : CatalogPlanet :=
  mkCatalogPlanet (data p) (id p) (type p) (habitability p) (hzStatus p) (esi p)
    (coords p) v (observability p) (magnitudeGuidance p)
    (discoveryMethodInfo p).

Definition set_observability (v : option Observability) (p : CatalogPlanet)
  : CatalogPlanet :=
  mkCatalogPlanet (data p) (id p) (type p) (habitability p) (hzStatus p) (esi p)
    (coords p) (constellation p) v (magnitudeGuidance p)
    (discoveryMethodInfo p).

Definition set_magnitudeGuidance (v : MagnitudeGuidance) (p : CatalogPlanet)
  : CatalogPlanet :=
  mkCatalogPlanet (data p) (id p) (type p) (habitability p) (hzStatus p) (esi p)
    (coords p) (constellation p) (observability p) (Some v)
    (discoveryMethodInfo p).

Definition set_discoveryMethodInfo (v : option DiscoveryMethod)
    (p : CatalogPlanet) : CatalogPlanet :=
  mkCatalogPlanet (data p) (id p) (type p) (habitability p) (hzStatus p) (esi p)
    (coords p) (constellation p) (observability p) (magnitudeGuidance p)
    (Some v).

(** [s.padStart(n, '0')] *)
Fixpoint zeros (n : nat) : string :=
  match n with
  | O => EmptyString
  | S k => String "0" (zeros k)
  end.

Definition padStart0 (n : nat) (s : string) : string :=
  zeros (n - String.length s) +:+ s.

Section Science.

(** How a number prints: [String(x)] and template interpolation, and
    [x.toFixed(digits)]. *)
Variable Number_toString : num -> string.
Variable Number_toFixed : num -> nat -> string.

Definition calculateHabitableZone (starTeff starLum : option num)
  : option HabitableZone :=
  if negb (opt_num_truthy starTeff) || negb (opt_num_truthy starLum)
     || (the_num starLum <=? Fin 0)%num
  then None
  else
    let starTeff := the_num starTeff in
    let starLum := the_num starLum in
    let tClamped := Math_max (Fin 2600) (Math_min (Fin 7200) starTeff) in
    let tStar := (tClamped - Fin 5780)%num in
    Some
      {| conservativeInner := distAU starLum (sEff tStar HZ_runawayGH);
         conservativeOuter := distAU starLum (sEff tStar HZ_maxGreenhouse);
         optimisticInner := distAU starLum (sEff tStar HZ_recentVenus);
         optimisticOuter := distAU starLum (sEff tStar HZ_earlyMars);
         modelValid := (starTeff >=? Fin 2600)%num && (starTeff <=? Fin 7200)%num;
         modelNote :=
           if (starTeff <? Fin 2600)%num || (starTeff >? Fin 7200)%num
           then Some ("Star T_eff (" +:+ Number_toString starTeff
                      +:+ "K) outside model range (2600-7200K); boundaries are extrapolated.")
           else None;
         hz_reference := "Kopparapu et al. (2013, 2014)" |}.

Definition HZ_unknown : HZStatus :=
  mkHZStatus false false "Unknown" None "low" None.

Definition getHZStatus (planet : CatalogPlanet) : HZStatus :=
  match calculateHabitableZone (starTemp (data planet)) (starLum (data planet)) with
  | None => HZ_unknown
  | Some hz =>
      if negb (opt_num_truthy (semiMajorAxis (data planet)))
         || (the_num (semiMajorAxis (data planet)) <=? Fin 0)%num
      then HZ_unknown
      else
        let a := the_num (semiMajorAxis (data planet)) in
        let inConservative :=
          (a >=? conservativeInner hz)%num && (a <=? conservativeOuter hz)%num in
        let inOptimistic :=
          (a >=? optimisticInner hz)%num && (a <=? optimisticOuter hz)%num in
        let label :=
          if inConservative then "In Conservative HZ"
          else if inOptimistic then "In Optimistic HZ"
          else if (a <? optimisticInner hz)%num then "Too Hot (inside HZ)"
          else "Too Cold (outside HZ)" in
        {| conservative := inConservative;
           optimistic := inOptimistic;
           hz_label := label;
           hz := Some hz;
           hz_confidence := if modelValid hz then "high" else "moderate";
           caveat := Some "Being in the HZ does not guarantee habitability. Atmosphere, magnetic field, tidal locking, and many other factors affect surface conditions." |}
  end.

Definition calculateESI (planet : CatalogPlanet) : ESI :=
  let p := data planet in
  if negb (opt_num_truthy (radius p)) || negb (opt_num_truthy (eqTemp p)) then
    mkESI (Fin 0) None None None "low" None
      (Some "Insufficient data to compute ESI.")
  else
    let radius_ := the_num (radius p) in
    let mass_ :=
      if opt_num_truthy (mass p) then the_num (mass p)
      else Math_pow radius_ (Fin 2.5) in
    let density := (mass_ / Math_pow radius_ (Fin 3) * EARTH_density)%num in
    let escapeVelocity :=
      (Math_sqrt (mass_ / radius_) * EARTH_escapeVelocity)%num in
    let components :=
      {| esi_radius := esiComponent (radius p) EARTH_radius ESI_WEIGHTS_radius;
         esi_density := esiComponent (Some density) EARTH_density ESI_WEIGHTS_density;
         esi_escapeVelocity :=
           esiComponent (Some escapeVelocity) EARTH_escapeVelocity
             ESI_WEIGHTS_escapeVelocity;
         esi_surfaceTemp :=
           esiComponent (eqTemp p) EARTH_eqTemp ESI_WEIGHTS_surfaceTemp |} in
    let interior :=
      match esi_radius components, esi_density components with
      | Some r, Some d => Some (Math_pow (r * d)%num (Fin 0.5))
      | _, _ => None
      end in
    let surface :=
      match esi_escapeVelocity components, esi_surfaceTemp components with
      | Some v, Some t => Some (Math_pow (v * t)%num (Fin 0.5))
      | _, _ => None
      end in
    let valid := validComponents components in
    let global :=
      if (0 <? length valid)%nat
      then Math_pow (fold_left num_mul valid (Fin 1))
             (Fin 1 / Fin (INR (length valid)))%num
      else Fin 0 in
    {| global := round3 global;
       interior := option_map round3 interior;
       surface := option_map round3 surface;
       components := Some components;
       esi_confidence :=
         if negb (is_null (mass p)) && negb (is_null (eqTemp p))
            && negb (eqTempEstimated p)
         then "high" else "moderate";
       esi_reference := Some "Schulze-Makuch et al. (2011)";
       esi_note :=
         if is_null (mass p)
         then Some "Mass estimated from radius using M-R relation."
         else None |}.

Definition formatRADec (raDeg decDeg : option num) : Coords :=
  match raDeg, decDeg with
  | Some raDeg, Some decDeg =>
      let raH := (raDeg / Fin 15)%num in
      let raHours := Math_floor raH in
      let raMinRem := ((raH - raHours) * Fin 60)%num in
      let raMin := Math_floor raMinRem in
      let raSec := Number_toFixed ((raMinRem - raMin) * Fin 60)%num 1 in
      let decSign := if (decDeg >=? Fin 0)%num then "+" else "-" in
      let decAbs := Math_abs decDeg in
      let decD := Math_floor decAbs in
      let decMinRem := ((decAbs - decD) * Fin 60)%num in
      let decMin := Math_floor decMinRem in
      let decSec := Number_toFixed ((decMinRem - decMin) * Fin 60)%num 0 in
      {| coords_ra :=
           Some (padStart0 2 (Number_toString raHours) +:+ "h "
                 +:+ padStart0 2 (Number_toString raMin) +:+ "m "
                 +:+ padStart0 4 raSec +:+ "s");
         coords_dec :=
           Some (decSign +:+ padStart0 2 (Number_toString decD) +:+ "° "
                 +:+ padStart0 2 (Number_toString decMin) +:+ "′ "
                 +:+ padStart0 2 decSec +:+ "″");
         raHours := Some raH;
         decDeg := Some decDeg |}
  | _, _ => mkCoords None None None None
  end.

(** [enrichPlanet]: the assignments to the record, in order. *)
Definition enrichPlanet (planet : CatalogPlanet) : CatalogPlanet :=
  let planet := set_hzStatus (getHZStatus planet) planet in
  let planet := set_esi (calculateESI planet) planet in
  let planet :=
    if negb (is_null (ra (data planet))) && negb (is_null (dec (data planet)))
    then
      let planet :=
        set_coords (formatRADec (ra (data planet)) (dec (data planet))) planet in
      let planet :=
        set_constellation
          (getConstellation (ra (data planet)) (dec (data planet))) planet in
      set_observability
        (getObservability (ra (data planet)) (dec (data planet))) planet
    else planet in
  let planet :=
    if negb (is_null (vMag (data planet)))
    then set_magnitudeGuidance (getMagnitudeGuidance (vMag (data planet))) planet
    else planet in
  let planet :=
    if opt_str_truthy (discoveryMethod (data planet))
    then set_discoveryMethodInfo
           (getDiscoveryMethodInfo (discoveryMethod (data planet))) planet
    else planet in
  planet.

End Science.

(** ** Catalog search ([searchPlanets], js/database.js) *)

(** *** Values and comparisons *)

(** The values a sort key can take.  [VNull] stands for [null] and
    [undefined]; [VObject] for any plain object. *)
Inductive jsval : Type :=
  | VNull
  | VNumber (n : num)
  | VString (s : string)
  | VBoolean (b : bool)
  | VObject.

(** Reading numeric literals out of strings ([StringToNumber]). *)
Definition digit_of (radix : Z) (c : ascii) : option Z :=
  let n := Z.of_nat (nat_of_ascii (lower_ascii c)) in
  let d := (if (48 <=? n)%Z && (n <=? 57)%Z then n - 48
            else if (97 <=? n)%Z && (n <=? 122)%Z then n - 87
            else -1)%Z in
  if (0 <=? d)%Z && (d <? radix)%Z then Some d else None.

(** The longest prefix of digits: its value, its length and what follows. *)
Fixpoint span_digits (radix : Z) (s : string) (acc : Z) (count : nat)
  : Z * nat * string :=
  match s with
  | String c r =>
      match digit_of radix c with
      | Some d => span_digits radix r (acc * radix + d)%Z (S count)
      | None => (acc, count, s)
      end
  | EmptyString => (acc, count, s)
  end.

Definition parse_radix (radix : Z) (s : string) : num :=
  match span_digits radix s 0 0 with
  | (v, S _, EmptyString) => Fin (IZR v)
  | _ => NaN
  end.

(** [sign? digits], the whole string. *)
Definition parse_exponent (s : string) : option Z :=
  let '(neg, s) :=
    match s with
    | String "-" r => (true, r)
    | String "+" r => (false, r)
    | _ => (false, s)
    end in
  match span_digits 10 s 0 0 with
  | (v, S _, EmptyString) => Some (if neg then - v else v)%Z
  | _ => None
  end.

(** An unsigned decimal literal, the whole string. *)
Definition parse_unsigned_decimal (s : string) : num :=
  if String.eqb s "Infinity" then PosInf else
  let '(ip, n1, r1) := span_digits 10 s 0 0 in
  let '(fp, n2, r2) :=
    match r1 with
    | String "." r => span_digits 10 r ip 0
    | _ => (ip, 0%nat, r1)
    end in
  if (n1 + n2 =? 0)%nat then NaN else
  match r2 with
  | EmptyString => Fin (IZR fp * powerRZ 10 (- Z.of_nat n2))
  | String c r =>
      if Ascii.eqb (lower_ascii c) "e" then
        match parse_exponent r with
        | Some e => Fin (IZR fp * powerRZ 10 (e - Z.of_nat n2))
        | None => NaN
        end
      else NaN
  end.

Definition StringToNumber (s : string) : num :=
  match trim s with
  | EmptyString => Fin 0
  | String "0" (String c r) as t =>
      if Ascii.eqb (lower_ascii c) "x" then parse_radix 16 r
      else if Ascii.eqb (lower_ascii c) "o" then parse_radix 8 r
      else if Ascii.eqb (lower_ascii c) "b" then parse_radix 2 r
      else parse_unsigned_decimal t
  | String "-" r => num_neg (parse_unsigned_decimal r)
  | String "+" r => parse_unsigned_decimal r
  | t => parse_unsigned_decimal t
  end.

Definition ToNumber (v : jsval) : num :=
  match v with
  | VNull => Fin 0
  | VNumber n => n
  | VString s => StringToNumber s
  | VBoolean b => if b then Fin 1 else Fin 0
  | VObject => NaN
  end.

(** [ToPrimitive]: a plain object prints as a fixed string. *)
Definition ToPrimitive (v : jsval) : jsval :=
  match v with
  | VObject => VString "[object Object]"
  | _ => v
  end.

(** [a < b]: two strings compare as strings, anything else as numbers. *)
Definition js_lt (a b : jsval) : bool :=
  match ToPrimitive a, ToPrimitive b with
  | VString s, VString t => String.ltb s t
  | a', b' => num_lt (ToNumber a') (ToNumber b')
  end.

Definition js_gt (a b : jsval) : bool := js_lt b a.

(** [x <= n] and [x >= n] where [x] is a numeric field and [n] a number; a
    field without a value holds [null], as [mapNASARecord] writes it. *)
Definition field_le (x : option num) (n : num) : bool :=
  num_le (ToNumber (from_option VNumber VNull x)) n.
Definition field_ge (x : option num) (n : num) : bool :=
  num_ge (ToNumber (from_option VNumber VNull x)) n.

(** *** Property access [a[sortBy]] *)

Definition of_num (o : option num) : jsval := from_option VNumber VNull o.
Definition of_str (o : option string) : jsval := from_option VString VNull o.
Definition of_obj {A} (o : option A) : jsval :=
  match o with Some _ => VObject | None => VNull end.

(** The properties of a catalog entry by name; a name that no entry has
    reads [undefined]. *)
Definition get_field (key : string) (p : CatalogPlanet) : jsval :=
  let d := data p in
  default VNull (assoc [
    ("name", VString (name d));
    ("system", VString (system d));
    ("distance", of_num (distance d));
    ("radius", of_num (radius d));
    ("mass", of_num (mass d));
    ("period", of_num (period d));
    ("semiMajorAxis", of_num (semiMajorAxis d));
    ("eqTemp", of_num (eqTemp d));
    ("eccentricity", of_num (eccentricity d));
    ("inclination", of_num (inclination d));
    ("starType", of_str (starType d));
    ("starTemp", of_num (starTemp d));
    ("starMass", of_num (starMass d));
    ("starLum", of_num (starLum d));
    ("starLumLog", of_num (starLumLog d));
    ("discovered", of_num (discovered d));
    ("discoveryMethod", of_str (discoveryMethod d));
    ("discoveryFacility", of_str (discoveryFacility d));
    ("discoveryRef", of_str (discoveryRef d));
    ("ra", of_num (ra d));
    ("dec", of_num (dec d));
    ("vMag", of_num (vMag d));
    ("kMag", of_num (kMag d));
    ("controversial", VBoolean (controversial d));
    ("source", VString (source d));
    ("nasaRaw", VBoolean (nasaRaw d));
    ("eqTempEstimated", VBoolean (eqTempEstimated d));
    ("id", VNumber (Fin (INR (id p))));
    ("type", VString (type p));
    ("habitability", VNumber (habitability p));
    ("hzStatus", of_obj (hzStatus p));
    ("esi", of_obj (esi p));
    ("coords", of_obj (coords p));
    ("constellation", of_obj (constellation p));
    ("observability", of_obj (observability p));
    ("magnitudeGuidance", of_obj (magnitudeGuidance p));
    ("discoveryMethodInfo", of_obj (mjoin (discoveryMethodInfo p)))
  ] key).

(** *** Sorting *)

Definition is_asc (sortDir : string) : bool := String.eqb sortDir "asc".

(** The value the comparator reads from one element: [a.esi.global] (or 0)
    for a sort on the index, [a[sortBy]] otherwise. *)
Definition raw_key (sortBy : string) (a : CatalogPlanet) : jsval :=
  if String.eqb sortBy "esi"
  then match esi a with
       | Some e => VNumber (global e)
       | None => VNumber (Fin 0)
       end
  else get_field sortBy a.

(** The key it compares: strings in lower case, [null] and [undefined]
    replaced by an infinity. *)
Definition sort_key (sortBy sortDir : string) (a : CatalogPlanet) : jsval :=
  let va := raw_key sortBy a in
  let va := match va with VString s => VString (toLowerCase s) | _ => va end in
  match va with
  | VNull => VNumber (if is_asc sortDir then PosInf else NegInf)
  | _ => va
  end.

(** The comparator passed to [results.sort]. *)
Definition compare_planets (sortBy sortDir : string) (a b : CatalogPlanet) : Z :=
  let va := sort_key sortBy sortDir a in
  let vb := sort_key sortBy sortDir b in
  if js_lt va vb then (if is_asc sortDir then -1 else 1)
  else if js_gt va vb then (if is_asc sortDir then 1 else -1)
  else 0.

(** [Array.prototype.sort] is a stable sort; it is modelled by insertion
    from the right, which keeps elements that compare equal in their
    order. *)
Fixpoint sort_insert {A} (cmp : A -> A -> Z) (x : A) (l : list A) : list A :=
  match l with
  | [] => [x]
  | y :: r => if (cmp x y <=? 0)%Z then x :: l else y :: sort_insert cmp x r
  end.

Definition Array_sort {A} (cmp : A -> A -> Z) (l : list A) : list A :=
  foldr (sort_insert cmp) [] l.

(** *** The heap of arrays *)

(** Arrays live in a heap and are handled through their addresses; the
    module variable [PLANET_CATALOG] holds the address of the catalog. *)
Record Store : Type := mkStore {
  heap : gmap nat (list CatalogPlanet);
  PLANET_CATALOG : nat
}.

Definition Heap (A : Type) : Type := Store -> A * Store.

Definition hret {A} (a : A) : Heap A := fun s => (a, s).
Definition hbind {A B} (c : Heap A) (k : A -> Heap B) : Heap B :=
  fun s => let '(a, s') := c s in k a s'.

(** A new array with the given elements. *)
Definition alloc (elems : list CatalogPlanet) : Heap nat :=
  fun s =>
    let l := fresh (dom (heap s)) in
    (l, mkStore (<[l := elems]> (heap s)) (PLANET_CATALOG s)).

Definition elements_at (l : nat) : Heap (list CatalogPlanet) :=
  fun s => (default [] (heap s !! l), s).

(** [[...arr]] *)
Definition spread (arr : nat) : Heap nat :=
  hbind (elements_at arr) alloc.

(** [arr.filter(f)] returns a new array. *)
Definition Array_filter (f : CatalogPlanet -> bool) (arr : nat) : Heap nat :=
  hbind (elements_at arr) (fun elems => alloc (List.filter f elems)).

(** [arr.sort(cmp)] reorders the array in place. *)
Definition Array_sort_in_place (cmp : CatalogPlanet -> CatalogPlanet -> Z)
    (arr : nat) : Heap unit :=
  fun s =>
    (tt, mkStore (alter (Array_sort cmp) arr (heap s)) (PLANET_CATALOG s)).

(** *** Filters *)

Record Filters : Type := mkFilters {
  f_type : option string;
  minHabitability : option num;
  maxDistance : option num;
  minDistance : option num;
  minTemp : option num;
  maxTemp : option num;
  minRadius : option num;
  maxRadius : option num;
  f_starType : option string;
  discoveredAfter : option num;
  f_discoveryMethod : option string;
  inHZ : option string;
  minESI : option num;
  sortBy : option string;
  sortDir : option string
}.

Definition no_filters : Filters :=
  mkFilters None None None None None None None None None None None None None
    None None.

(** [filters.x] as a condition: a non-empty string or a truthy number. *)
Definition truthy_str (o : option string) : option string :=
  if opt_str_truthy o then o else None.
Definition truthy_num (o : option num) : option num :=
  if opt_num_truthy o then o else None.

Definition matches_text (q : string) (p : CatalogPlanet) : bool :=
  includes (toLowerCase (name (data p))) q
  || includes (toLowerCase (system (data p))) q
  || includes (toLowerCase (type p)) q
  || match truthy_str (discoveryMethod (data p)) with
     | Some m => includes (toLowerCase m) q
     | None => false
     end
  || match constellation p with
     | Some c => str_truthy (const_name c) && includes (toLowerCase (const_name c)) q
     | None => false
     end.

Definition in_hz (band : HZStatus -> bool) (p : CatalogPlanet) : bool :=
  match hzStatus p with
  | Some st => band st
  | None => false
  end.

(** The statements [if (c) results = results.filter(f)] of the source, in
    order: each is the predicate [f], or [None] when its condition [c] does
    not hold. *)
Definition refinements (query : string) (filters : Filters)
  : list (option (CatalogPlanet -> bool)) := [
  (* text search *)
  (if str_truthy query && str_truthy (trim query)
   then Some (matches_text (toLowerCase (trim query))) else None);
  (* type *)
  option_map (fun t p => String.eqb (type p) t) (truthy_str (f_type filters));
  (* habitability *)
  option_map (fun m p => (habitability p >=? m)%num) (minHabitability filters);
  (* distance *)
  option_map (fun m p => field_le (distance (data p)) m) (maxDistance filters);
  option_map (fun m p => field_ge (distance (data p)) m) (minDistance filters);
  (* temperature *)
  option_map (fun m p => field_ge (eqTemp (data p)) m) (minTemp filters);
  option_map (fun m p => field_le (eqTemp (data p)) m) (maxTemp filters);
  (* radius *)
  option_map (fun m p => field_ge (radius (data p)) m) (minRadius filters);
  option_map (fun m p => field_le (radius (data p)) m) (maxRadius filters);
  (* star type *)
  option_map
    (fun t p =>
       match truthy_str (starType (data p)) with
       | Some st => startsWith st t
       | None => false
       end)
    (truthy_str (f_starType filters));
  (* discovery year *)
  option_map (fun y p => field_ge (discovered (data p)) y)
    (truthy_num (discoveredAfter filters));
  (* discovery method *)
  option_map
    (fun m p =>
       match discoveryMethod (data p) with
       | Some pm => String.eqb pm m
       | None => false
       end)
    (truthy_str (f_discoveryMethod filters));
  (* habitable zone *)
  match inHZ filters with
  | Some band =>
      if String.eqb band "conservative" then Some (in_hz conservative)
      else if String.eqb band "optimistic" then Some (in_hz optimistic)
      else None
  | None => None
  end;
  (* ESI *)
  option_map
    (fun m p =>
       match esi p with
       | Some e => (global e >=? m)%num
       | None => false
       end)
    (minESI filters)
].

(** One such statement on the array [results]. *)
Definition refine (results : nat) (f : option (CatalogPlanet -> bool))
  : Heap nat :=
  match f with
  | Some f => Array_filter f results
  | None => hret results
  end.

Fixpoint refine_all (results : nat) (fs : list (option (CatalogPlanet -> bool)))
  : Heap nat :=
  match fs with
  | [] => hret results
  | f :: rest => hbind (refine results f) (fun results => refine_all results rest)
  end.

Definition searchPlanets (query : string) (filters : Filters) : Heap nat :=
  hbind (fun s => spread (PLANET_CATALOG s) s) (fun results =>
  hbind (refine_all results (refinements query filters)) (fun results =>
  let sortBy := default "name" (truthy_str (sortBy filters)) in
  let sortDir := default "asc" (truthy_str (sortDir filters)) in
  hbind (Array_sort_in_place (compare_planets sortBy sortDir) results) (fun _ =>
  hret results))).

(** ** Summary statistics ([computeValidationReport], js/nasa-data.js) *)

(** [p.f > 0] on a numeric field; [null] converts to 0. *)
Definition positive (o : option num) : bool :=
  (ToNumber (of_num o) >? Fin 0)%num.

(** The comparator [(a, b) => a - b]: [sort] reads the sign of the
    difference and takes a [NaN] for 0. *)
Definition numeric_order (a b : num) : Z :=
  match (a - b)%num with
  | Fin x => if Rltb x 0 then -1 else if Rltb 0 x then 1 else 0
  | NegInf => -1
  | PosInf => 1
  | NaN => 0
  end.

(** The inner function [median].  An index outside the array reads
    [undefined], a [NaN] in the arithmetic; for the empty array [mid - 1] is
    such an index. *)
Definition median (arr : list num) : num :=
  let s := Array_sort numeric_order arr in
  let mid := (length s / 2)%nat in
  if (length s mod 2 =? 1)%nat
  then nth mid s NaN
  else ((nth (mid - 1) s NaN + nth mid s NaN) / Fin 2)%num.

(** [[...new Set(l)]]: the distinct elements in the order of their first
    occurrence. *)
Definition Set_values (l : list string) : list string :=
  fold_left (fun acc x => if decide (x ∈ acc) then acc else acc ++ [x]) l [].

(** [Math.min(...l)] and [Math.max(...l)]. *)
Definition Math_min_of (l : list num) : num := fold_left Math_min l PosInf.
Definition Math_max_of (l : list num) : num := fold_left Math_max l NegInf.

Record SummaryStats : Type := mkSummaryStats {
  medianRadius : string;
  medianMass : string;
  medianTemp : string;
  medianDist : string;
  discoveryMethods : list string;
  yearRange_min : num;
  yearRange_max : num
}.

Section ValidationStats.

Variable Number_toFixed : num -> nat -> string.

(** The [stats] object that [computeValidationReport] adds to the report;
    [computeValidationReport validation_stats] is the function of the
    source. *)
Definition validation_stats (planets : list planet) : SummaryStats :=
  let withRadius := List.filter (fun p => positive (radius p)) planets in
  let withMass := List.filter (fun p => positive (mass p)) planets in
  let withTemp :=
    List.filter (fun p => positive (eqTemp p) && negb (eqTempEstimated p))
      planets in
  let withDist := List.filter (fun p => positive (distance p)) planets in
  let years := omap (fun p => truthy_num (discovered p)) planets in
  {| medianRadius :=
       if (0 <? length withRadius)%nat
       then Number_toFixed (median (map (fun p => the_num (radius p)) withRadius)) 2
       else "N/A";
     medianMass :=
       if (0 <? length withMass)%nat
       then Number_toFixed (median (map (fun p => the_num (mass p)) withMass)) 2
       else "N/A";
     medianTemp :=
       if (0 <? length withTemp)%nat
       then Number_toFixed (median (map (fun p => the_num (eqTemp p)) withTemp)) 0
       else "N/A";
     medianDist :=
       if (0 <? length withDist)%nat
       then Number_toFixed (median (map (fun p => the_num (distance p)) withDist)) 1
       else "N/A";
     discoveryMethods :=
       Set_values (omap (fun p => truthy_str (discoveryMethod p)) planets);
     yearRange_min := Math_min_of years;
     yearRange_max := Math_max_of years |}.

End ValidationStats.

(** ** Background refresh and cache utilities (js/nasa-data.js) *)

Section Refresh.

Context {Stats : Type}.
Variable summary_stats : list planet -> Stats.
Variable json_length : list planet -> Z.

Notation "x <- c ;; k" := (bind c (fun x => k))
  (at level 100, c at next level, right associativity).
Notation "c ;;; k" := (bind c (fun _ => k))
  (at level 100, right associativity).

(** What [backgroundRefresh] hands to [onComplete]. *)
Record RefreshResult : Type := mkRefreshResult {
  refresh_planets : list planet;
  refresh_report : @FullReport Stats;
  refresh_fetchedAt : Z
}.

(** The completion callback may read and change the environment, and it may
    throw. *)
Definition backgroundRefresh
    (onComplete : option (RefreshResult -> @M Stats unit)) : @M Stats unit :=
  fresh <- isCacheFresh ;;
  if fresh then ret tt
  else
    try_catch
      (rawData <- fetchNASAData None ;;
       let mapped := map mapNASARecord rawData in
       let '(planets, report) := validateAndClean mapped in
       let fullReport := computeValidationReport summary_stats planets report in
       fetchedAt <- now ;;
       setCachedData json_length planets
         (mkCacheMeta CACHE_VERSION fetchedAt (length planets) (Some fullReport)
            false 0) ;;;
       match onComplete with
       | Some f => f (mkRefreshResult planets fullReport fetchedAt)
       | None => ret tt
       end)
      (fun err =>
         console_warn ("[NASA-Data] Background refresh failed: " +:+ message err)).

(** [localStorage.removeItem(key)] *)
Definition removeItem_cache : @M Stats unit :=
  fun w =>
    (Normal tt, with_storage (mkStorage Missing (meta_entry (localStorage w))) w).

Definition removeItem_meta : @M Stats unit :=
  fun w =>
    (Normal tt, with_storage (mkStorage (cache_entry (localStorage w)) Missing) w).

Definition clearCache : @M Stats unit :=
  removeItem_cache ;;; removeItem_meta.

(** [s.replace('T', ' ')]: the first occurrence only. *)
Fixpoint replace_first (c d : ascii) (s : string) : string :=
  match s with
  | EmptyString => EmptyString
  | String a r => if Ascii.eqb a c then String d r else String a (replace_first c d r)
  end.

Record LastUpdated : Type := mkLastUpdated {
  lu_timestamp : Z;
  formatted : string;
  lu_age : string;
  lu_recordCount : nat
}.

(** How a valid time prints with [toISOString]. *)
Variable Date_toISOString : Z -> string.

(** The largest time value of a [Date], in milliseconds. *)
Definition MAX_TIME_VALUE : Z := 8640000000000000.

(** [new Date(t).toISOString()] throws on a time outside the range of
    dates. *)
Definition toISOString (t : Z) : @M Stats string :=
  if (Z.abs t <=? MAX_TIME_VALUE)%Z then ret (Date_toISOString t)
  else throw (mkError "RangeError" "Invalid time value").

Definition getLastUpdated : @M Stats (option LastUpdated) :=
  meta <- getCacheMeta ;;
  match meta with
  | None => ret None
  | Some meta =>
      iso <- toISOString (fetchedAt meta) ;;
      age <- formatAge (fetchedAt meta) ;;
      ret (Some
             {| lu_timestamp := fetchedAt meta;
                formatted := substring 0 19 (replace_first "T" " " iso) +:+ " UTC";
                lu_age := age;
                lu_recordCount :=
                  if (recordCount meta =? 0)%nat then cachedCount meta
                  else recordCount meta |})
  end.

End Refresh.

(** ** Catalog construction (js/database.js) *)

Module PlanetType.
Definition HOT_JUPITER : string := "Hot Jupiter".
Definition WARM_JUPITER : string := "Warm Jupiter".
Definition COLD_JUPITER : string := "Cold Jupiter".
Definition HOT_NEPTUNE : string := "Hot Neptune".
Definition WARM_NEPTUNE : string := "Warm Neptune".
Definition SUPER_EARTH : string := "Super-Earth".
Definition ROCKY_TERRESTRIAL : string := "Rocky Terrestrial".
Definition SUB_EARTH : string := "Sub-Earth".
Definition LAVA_WORLD : string := "Lava World".
Definition ICE_GIANT : string := "Ice Giant".
Definition WATER_WORLD : string := "Water World".
Definition DESERT_WORLD : string := "Desert World".
Definition GAS_DWARF : string := "Gas Dwarf".
End PlanetType.

(** [x || fallback] on a numeric field. *)
Definition num_or (o : option num) (fallback : num) : num :=
  if opt_num_truthy o then the_num o else fallback.

(** [calculateHabitability] reads the pipeline fields of the record only. *)
Definition calculateHabitability (planet : planet) : num :=
  let score := Fin 0 in
  let t := num_or (eqTemp planet) (Fin 0) in
  let r := num_or (radius planet) (Fin 0) in
  let m := num_or (mass planet) (Fin 0) in
  (* temperature *)
  let score :=
    if (t >=? Fin 200)%num && (t <=? Fin 310)%num then (score + Fin 0.35)%num
    else if (t >=? Fin 150)%num && (t <=? Fin 400)%num then (score + Fin 0.15)%num
    else (score + Fin 0.02)%num in
  (* size *)
  let score :=
    if (r >=? Fin 0.5)%num && (r <=? Fin 2.0)%num then (score + Fin 0.25)%num
    else if (r >=? Fin 0.3)%num && (r <=? Fin 3.0)%num then (score + Fin 0.1)%num
    else (score + Fin 0.01)%num in
  (* mass *)
  let score :=
    if (m >? Fin 0)%num then
      if (m >=? Fin 0.3)%num && (m <=? Fin 5.0)%num then (score + Fin 0.15)%num
      else if (m >=? Fin 0.1)%num && (m <=? Fin 10.0)%num then (score + Fin 0.05)%num
      else score
    else (score + Fin 0.05)%num in
  (* star type *)
  let score :=
    match truthy_str (starType planet) with
    | Some (String s _) =>
        if Ascii.eqb s "G" || Ascii.eqb s "K" then (score + Fin 0.15)%num
        else if Ascii.eqb s "F" || Ascii.eqb s "M" then (score + Fin 0.08)%num
        else (score + Fin 0.02)%num
    | _ => (score + Fin 0.05)%num
    end in
  (* orbit *)
  let score :=
    if opt_num_truthy (semiMajorAxis planet) then
      let a := the_num (semiMajorAxis planet) in
      if (a >=? Fin 0.5)%num && (a <=? Fin 2.0)%num then (score + Fin 0.1)%num
      else if (a >=? Fin 0.1)%num && (a <=? Fin 5.0)%num then (score + Fin 0.04)%num
      else score
    else (score + Fin 0.03)%num in
  Math_min (Math_round (score * Fin 100) / Fin 100)%num (Fin 1.0).

(** [classifyPlanet]: in the comparisons a missing temperature is [null]
    and converts to 0. *)
Definition classifyPlanet (radius mass eqTemp : option num) : string :=
  let r := num_or radius (Fin 1) in
  let m := num_or mass (if (r >? Fin 4)%num then (r * Fin 5)%num
                        else (r * Fin 1.5)%num) in
  let eqTemp := ToNumber (of_num eqTemp) in
  if (eqTemp >? Fin 1500)%num && (r <? Fin 2)%num then PlanetType.LAVA_WORLD
  else if (r >? Fin 8)%num then
    if (eqTemp >? Fin 1000)%num then PlanetType.HOT_JUPITER
    else if (eqTemp >? Fin 400)%num then PlanetType.WARM_JUPITER
    else PlanetType.COLD_JUPITER
  else if (r >? Fin 3.5)%num then
    if (eqTemp >? Fin 800)%num then PlanetType.HOT_NEPTUNE
    else if (eqTemp >? Fin 200)%num then PlanetType.WARM_NEPTUNE
    else PlanetType.ICE_GIANT
  else if (r >? Fin 1.6)%num then
    if (eqTemp >? Fin 500)%num then PlanetType.SUPER_EARTH
    else if (eqTemp >? Fin 200)%num then PlanetType.WATER_WORLD
    else PlanetType.SUPER_EARTH
  else if (r <? Fin 0.5)%num then PlanetType.SUB_EARTH
  else if (eqTemp >? Fin 600)%num then PlanetType.LAVA_WORLD
  else if (eqTemp <? Fin 180)%num then PlanetType.DESERT_WORLD
  else PlanetType.ROCKY_TERRESTRIAL.

(** *** 32-bit integers *)

(** [ToInt32] and [ToUint32] of an integer. *)
Definition ToInt32 (z : Z) : Z :=
  ((z + 2147483648) mod 4294967296 - 2147483648)%Z.
Definition ToUint32 (z : Z) : Z := (z mod 4294967296)%Z.

(** [seededRandom(seed)] returns a function that keeps the variable [s]:
    one call of it takes the value of [s] and gives the new value and the
    number returned.
    [s = (s * 1664525 + 1013904223) & 0xffffffff; return (s >>> 0) / 0xffffffff] *)
Definition seededRandom_call (s : Z) : Z * num :=
  let s := Z.land (ToInt32 (s * 1664525 + 1013904223)) (ToInt32 4294967295) in
  (s, (Fin (IZR (Z.shiftr (ToUint32 s) 0)) / Fin 4294967295)%num).

(** The first [n] numbers of the generator started at [seed]. *)
Fixpoint seededRandom_run (n : nat) (s : Z) : list num :=
  match n with
  | O => []
  | S k => let '(s', x) := seededRandom_call s in x :: seededRandom_run k s'
  end.

(** *** Colour helpers *)





(** *** Catalog entries from pipeline records *)

Definition set_nasaRaw (v : bool) (p : planet) : planet :=
  mkPlanet
    (name p) (system p) (distance p) (radius p) (mass p) (period p)
    (semiMajorAxis p) (eqTemp p) (eccentricity p) (inclination p) (starType p)
    (starTemp p) (starMass p) (starLum p) (starLumLog p) (discovered p)
    (discoveryMethod p) (discoveryFacility p) (discoveryRef p) (ra p)
    (dec p) (vMag p) (kMag p) (controversial p) (source p) v
    (eqTempEstimated p).

Section Catalog.

Variable Number_toString : num -> string.
Variable Number_toFixed : num -> nat -> string.

(** [processNASAPlanets]: each record becomes a catalog entry with its
    position as [id], its class, its habitability score and the enrichment.
    (The [atmosphere] of an entry, drawn with [Math.random], is not a field
    of [CatalogPlanet].) *)
Definition processNASAPlanets (nasaPlanets : list planet) : list CatalogPlanet :=
  imap
    (fun i p =>
       let type := classifyPlanet (radius p) (mass p) (eqTemp p) in
       let planet := set_nasaRaw true p in
       let habitability := calculateHabitability planet in
       enrichPlanet Number_toString Number_toFixed
         (mkCatalogPlanet planet i type habitability None None None None None
            None None))
    nasaPlanets.

End Catalog.

(** [PLANET_CATALOG.find(p => p.name === name)] *)
Definition getPlanetByName (name_ : string) : Heap (option CatalogPlanet) :=
  hbind (fun s => elements_at (PLANET_CATALOG s) s) (fun elems =>
  hret (List.find (fun p => String.eqb (name (data p)) name_) elems)).

(** [PLANET_CATALOG.filter(p => p.system === systemName)] *)
Definition getSystemPlanets (systemName : string) : Heap nat :=
  fun s =>
    Array_filter (fun p => String.eqb (system (data p)) systemName)
      (PLANET_CATALOG s) s.

(** ** Texture choice (js/app.js) *)

(** [hashName]: the characters are read as their codes. *)
Definition hashName_step (hash : Z) (c : ascii) : Z :=
  Z.lor
    (ToInt32 (ToInt32 (Z.shiftl (ToInt32 hash) 5) - hash
              + Z.of_nat (nat_of_ascii c)))
    (ToInt32 0).

Definition hashName (name_ : string) : Z :=
  Z.abs (fold_left hashName_step (list_ascii_of_string name_) 0%Z).

(** ** Auxiliary definitions used in the statements *)

(** The age test shared by [isCacheFresh] and [isCacheUsable]. *)
Definition younger_than {Stats : Type} (limit : Z) (w : @World Stats) : bool :=
  match meta_entry (localStorage w) with
  | Holds m =>
      (version m =? CACHE_VERSION)%Z && (Date_now w - fetchedAt m <? limit)%Z
  | _ => false
  end.

(** A world whose metadata has the current version and was written at
    [fetched]. *)
Definition sample_meta (fetched : Z) : @CacheMeta unit :=
  mkCacheMeta 2 fetched 0 None false 0.

Definition sample_world (cache : slot (list planet)) (fetched now_ms : Z)
    (net : FetchOutcome) : @World unit :=
  mkWorld (mkStorage cache (Holds (sample_meta fetched))) true true now_ms net
    1000 [] [].

(** The records that the main loop of [validateAndClean] keeps: the first
    one of each name that is not in [seen]. *)
Fixpoint first_occurrences (seen : gset string) (l : list planet) : list planet :=
  match l with
  | [] => []
  | p :: r =>
      if decide (name p ∈ seen) then first_occurrences seen r
      else p :: first_occurrences (seen ∪ {[ name p ]}) r
  end.

(** How many records of [l] are named [n]. *)
Definition occurrences (n : string) (l : list planet) : nat :=
  length (filter (fun p => name p = n) l).

(** The entries that the range checks of one record add to
    [report.badValues]. *)
Definition bad_entry (field : string) (p : planet) (check : option num)
  : list BadValue :=
  match check with
  | Some v => [mkBadValue (name p) field v]
  | None => []
  end.

Definition bad_entries (p : planet) : list BadValue :=
  bad_entry "radius" p (radius_out_of_range p)
  ++ bad_entry "mass" p (mass_out_of_range p)
  ++ bad_entry "distance" p (distance_out_of_range p)
  ++ bad_entry "eqTemp" p (eqTemp_out_of_range p).

(** A finite number between 0 and 1. *)
Definition unit_interval (x : num) : Prop :=
  exists v : R, x = Fin v /\ (0 <= v <= 1)%R.

(** *** Reasoning about the heap of arrays *)

(** [c] started in a state that satisfies [P] ends with a result and a state
    that satisfy [Q]. *)
Definition hoare {A} (P : Store -> Prop) (c : Heap A)
    (Q : A -> Store -> Prop) : Prop :=
  forall s, P s -> Q (fst (c s)) (snd (c s)).

(** Every array of [s0] is in [s] with the same elements in the same order,
    and the catalog variable holds the same address. *)
Definition preserves (s0 s : Store) : Prop :=
  PLANET_CATALOG s = PLANET_CATALOG s0 /\
  forall l, l ∈ dom (heap s0) -> heap s !! l = heap s0 !! l.

(** [r] is an array of [s] that [s0] does not have. *)
Definition new_array (s0 : Store) (r : nat) (s : Store) : Prop :=
  preserves s0 s /\ (r ∉ dom (heap s0)) /\ (r ∈ dom (heap s)).

(** [r] is a new array of [s] and its elements are [elems]. *)
Definition array_holds (s0 : Store) (elems : list CatalogPlanet) (r : nat)
    (s : Store) : Prop :=
  new_array s0 r s /\ heap s !! r = Some elems.

(** The elements of the array that a search returns, as a function of the
    elements of the catalog. *)
Definition refine_list (elems : list CatalogPlanet)
    (f : option (CatalogPlanet -> bool)) : list CatalogPlanet :=
  match f with
  | Some f => List.filter f elems
  | None => elems
  end.

Definition search_list (query : string) (filters : Filters)
    (catalog : list CatalogPlanet) : list CatalogPlanet :=
  Array_sort
    (compare_planets (default "name" (truthy_str (sortBy filters)))
       (default "asc" (truthy_str (sortDir filters))))
    (fold_left refine_list (refinements query filters) catalog).

(** *** Sample records *)

Definition bare_planet (n : string) (spectral : option string) : planet :=
  {| name := n; system := n;
     distance := None; radius := None; mass := None; period := None;
     semiMajorAxis := None; eqTemp := None; eccentricity := None;
     inclination := None; starType := spectral; starTemp := None;
     starMass := None; starLum := None; starLumLog := None;
     discovered := None; discoveryMethod := None; discoveryFacility := None;
     discoveryRef := None; ra := None; dec := None; vMag := None; kMag := None;
     controversial := false; source := "NASA Exoplanet Archive";
     nasaRaw := true; eqTempEstimated := false |}.

Definition bare_entry (i : nat) (n : string) (spectral : option string)
  : CatalogPlanet :=
  mkCatalogPlanet (bare_planet n spectral) i "Rocky" NaN None None None None
    None None None.

(** A catalog of two records: the first has no spectral type. *)
Definition untyped_star_entry : CatalogPlanet := bare_entry 0 "A b" None.
Definition typed_star_entry : CatalogPlanet := bare_entry 1 "B b" (Some "G2V").

Definition two_planet_store : Store :=
  mkStore {[ 0%nat := [untyped_star_entry; typed_star_entry] ]} 0.

Definition sort_by (field dir : string) : Filters :=
  mkFilters None None None None None None None None None None None None None
    (Some field) (Some dir).

(** *** The loading pipeline *)

(** A progress callback that returns normally whatever it is shown. *)
Definition well_behaved (onProgress : option Callback) : Prop :=
  match onProgress with
  | Some f => forall ev, f ev = Normal tt
  | None => True
  end.

(** [w'] differs from [w] in the console and the progress log only. *)
Definition same_env {Stats : Type} (w w' : @World Stats) : Prop :=
  localStorage w' = localStorage w /\
  cache_writable w' = cache_writable w /\
  meta_writable w' = meta_writable w /\
  Date_now w' = Date_now w /\
  network w' = network w /\
  fetch_ms w' = fetch_ms w.

(** The cached records, as [getCachedData] reads them. *)
Definition cached_records {Stats : Type} (w : @World Stats)
  : option (list planet) :=
  match cache_entry (localStorage w) with
  | Holds l => Some l
  | _ => None
  end.

(** Step 1 applies: the metadata is fresh and the cached list is not
    empty. *)
Definition fresh_hit {Stats : Type} (w : @World Stats) : bool :=
  younger_than CACHE_MAX_AGE_MS w && nonempty (cached_records w).

(** The world when the request has settled: the clock has advanced. *)
Definition after_fetch {Stats : Type} (w : @World Stats) : @World Stats :=
  mkWorld (localStorage w) (cache_writable w) (meta_writable w)
    (Date_now w + fetch_ms w)%Z (network w) (fetch_ms w) (console w)
    (progress w).

(** Step 3 applies at the time of the [catch]: the metadata has the current
    version and is less than 7 days old, and the cached list is not
    empty. *)
Definition usable_cache {Stats : Type} (w : @World Stats) : bool :=
  younger_than CACHE_STALE_AGE_MS w && nonempty (cached_records w).

(** The error with which [fetchNASAData] fails, if it does. *)
Definition fetch_error (net : FetchOutcome) : option Error :=
  match net with
  | Responded _ => None
  | HttpError status statusText =>
      Some (mkError "Error"
              ("NASA API returned " +:+ pretty status +:+ ": " +:+ statusText))
  | Aborted => Some (mkError "Error" "NASA API request timed out (30s)")
  | Failed e =>
      Some (if String.eqb (err_name e) "AbortError"
            then mkError "Error" "NASA API request timed out (30s)"
            else e)
  end.

(** A callback that throws whatever it is shown. *)
Definition throwing_callback : Callback :=
  fun _ => Throws (mkError "Error" "callback failed").

Definition network_down : FetchOutcome :=
  Failed (mkError "TypeError" "Failed to fetch").

(** A world whose cache holds one record and whose metadata was written at
    time 0; the request takes one second and fails. *)
Definition one_record_world (now_ms : Z) : @World unit :=
  sample_world (Holds [bare_planet "A b" None]) 0 now_ms network_down.

(** A world with nothing in the store. *)
Definition empty_world : @World unit :=
  mkWorld (mkStorage Missing Missing) true true 0 network_down 1000 [] [].

Definition no_stats (l : list planet) : unit := tt.
Definition no_size (l : list planet) : Z := 0.

(** A record with negative radius, mass and distance. *)
Definition negative_planet : planet :=
  {| name := "X b"; system := "X";
     distance := Some (Fin (-3)); radius := Some (Fin (-1));
     mass := Some (Fin (-2)); period := Some (Fin 1);
     semiMajorAxis := Some (Fin 1); eqTemp := Some (Fin 300);
     eccentricity := None; inclination := None; starType := None;
     starTemp := None; starMass := None; starLum := None; starLumLog := None;
     discovered := None; discoveryMethod := None; discoveryFacility := None;
     discoveryRef := None; ra := None; dec := None; vMag := None; kMag := None;
     controversial := false; source := "NASA Exoplanet Archive";
     nasaRaw := true; eqTempEstimated := false |}.


(** *** Sorting with a comparator *)

(** [a] may stay in front of [b]. *)
Definition cmp_le {A} (cmp : A -> A -> Z) (a b : A) : Prop := (cmp a b <= 0)%Z.

(** A sort key that is absent, or a finite number. *)
Definition null_or_finite (v : jsval) : Prop :=
  v = VNull \/ exists x : R, v = VNumber (Fin x).

(** *** Values that survive [JSON.stringify] and [JSON.parse] *)

(** A numeric field that is absent or a finite number ([NaN] and the
    infinities are written as [null]). *)
Definition finite_or_null (o : option num) : bool :=
  match o with
  | Some (Fin _) | None => true
  | Some _ => false
  end.

(** A record whose numeric fields are all of that kind: it is read back
    from the store as it was written. *)
Definition json_exact (p : planet) : bool :=
  forallb finite_or_null
    [distance p; radius p; mass p; period p; semiMajorAxis p; eqTemp p;
     eccentricity p; inclination p; starTemp p; starMass p; starLum p;
     starLumLog p; discovered p; ra p; dec p; vMag p; kMag p].

(** What [setCachedData] puts under the cache key: the list, or its first
    four fifths when its text is longer than the limit. *)
Definition stored_part (json_length : list planet -> Z) (data : list planet)
  : list planet :=
  if (CACHE_SIZE_LIMIT <? json_length data)%Z
  then take (length data * 4 / 5) data
  else data.

(** Real values in the order in which the comparator of [median] puts
    them. *)
Definition sorted_reals (xs : list R) : list R :=
  Array_sort (fun a b => numeric_order (Fin a) (Fin b)) xs.

(** *** The search for the best month, on finite values *)




(** A completion callback that returns normally and leaves the store, the
    clock and the network alone. *)
Definition quiet {Stats A : Type} (f : A -> @M Stats unit) : Prop :=
  forall a w, exists w', f a w = (Normal tt, w') /\ same_env w w'.

(** A world with a writable, empty store in which the request answers with
    the given rows after one second. *)
Definition answering_world (rows : list RawRecord) (now_ms : Z) : @World unit :=
  mkWorld (mkStorage Missing Missing) true true now_ms (Responded rows) 1000
    [] [].

(** A row of the archive that has a name, a radius and a mass. *)
Definition sized_row (n : string) (r m : R) : RawRecord :=
  mkRawRecord (Some n) None None (Some (Fin r)) (Some (Fin m)) None None None
    None None None None None None None None None None None None None None
    None.

(** *** Scores, searches and hashes *)

(** A finite number that is [k] hundredths for an integer [k] between [lo]
    and [hi]. *)
Definition hundredths (lo hi : Z) (x : num) : Prop :=
  exists k : Z, x = Fin (IZR k / 100) /\ (lo <= k <= hi)%Z.

(** An entry passes every refinement that a search with this query and these
    filters applies. *)
Definition passes_all (query : string) (filters : Filters) (p : CatalogPlanet)
  : bool :=
  forallb (fun f => from_option (fun f => f p) true f)
    (refinements query filters).

(** A search that asks for a distance of at most [m] and nothing else. *)
Definition within_distance (m : num) : Filters :=
  mkFilters None None (Some m) None None None None None None None None None
    None None None.

(** A store whose only array is the catalog. *)
Definition catalog_store (catalog : list CatalogPlanet) : Store :=
  mkStore {[ 0%nat := catalog ]} 0.

(** The polynomial [c0 * 31^(n-1) + ... + c(n-1)] of the character codes,
    from the left, started at [h]. *)
Definition poly31 (h : Z) (l : list ascii) : Z :=
  fold_left (fun h c => (31 * h + Z.of_nat (nat_of_ascii c))%Z) l h.

(** The values of a 32-bit signed integer. *)
Definition int32 (z : Z) : Prop := (-2147483648 <= z < 2147483648)%Z.


(* ===================================================================== *)
(** * Part II: properties                                                 *)
(* ===================================================================== *)

(** ** Cache staleness *)

Section CacheFacts.

Context {Stats : Type}.
Implicit Types (w : @World Stats) (m : @CacheMeta Stats).

(** What [getCacheMeta] returns: the stored metadata, or [null] when the key
    is missing or cannot be read; it never throws and changes nothing. *)
Lemma getCacheMeta_spec w :
  getCacheMeta w =
  (Normal match meta_entry (localStorage w) with
          | Holds m => Some m
          | _ => None
          end, w).
Proof.
  unfold getCacheMeta, try_catch, read_slot, ret.
  destruct (meta_entry (localStorage w)); reflexivity.
Qed.

Lemma getCachedData_spec w :
  getCachedData w =
  (Normal match cache_entry (localStorage w) with
          | Holds l => Some l
          | _ => None
          end, w).
Proof.
  unfold getCachedData, try_catch, read_slot, ret.
  destruct (cache_entry (localStorage w)); reflexivity.
Qed.

Lemma isCacheFresh_spec w :
  isCacheFresh w = (Normal (younger_than CACHE_MAX_AGE_MS w), w).
Proof.
  unfold isCacheFresh, bind, younger_than. rewrite getCacheMeta_spec.
  destruct (meta_entry (localStorage w)) as [| |m]; try reflexivity.
  destruct (version m =? CACHE_VERSION)%Z; reflexivity.
Qed.

Lemma isCacheUsable_spec w :
  isCacheUsable w = (Normal (younger_than CACHE_STALE_AGE_MS w), w).
Proof.
  unfold isCacheUsable, bind, younger_than. rewrite getCacheMeta_spec.
  destruct (meta_entry (localStorage w)) as [| |m]; try reflexivity.
  destruct (version m =? CACHE_VERSION)%Z; reflexivity.
Qed.

Lemma younger_than_iff limit w m :
  meta_entry (localStorage w) = Holds m ->
  younger_than limit w = true <->
  version m = CACHE_VERSION /\ (Date_now w - fetchedAt m < limit)%Z.
Proof.
  intros Hm. unfold younger_than. rewrite Hm.
  rewrite andb_true_iff, Z.eqb_eq, Z.ltb_lt. reflexivity.
Qed.

(** C5.  With metadata in the store, [isCacheFresh] answers [true] exactly
    when the stored version is the current one and the entry is less than
    24 hours old, and [isCacheUsable] exactly when the version is the current
    one and the entry is less than 7 days old; neither throws nor changes
    anything.  So, the version matching, an entry aged 23 h 59 min is fresh,
    one aged 24 h 1 min is not fresh but usable, and one aged 7 days 1 hour
    is neither. *)
Theorem cache_staleness_boundaries w m :
  meta_entry (localStorage w) = Holds m ->
  let age := (Date_now w - fetchedAt m)%Z in
  let minute := (60 * 1000)%Z in
  let hour := (60 * minute)%Z in
  let day := (24 * hour)%Z in
  (exists fresh usable,
      isCacheFresh w = (Normal fresh, w) /\
      isCacheUsable w = (Normal usable, w) /\
      (fresh = true <-> version m = CACHE_VERSION /\ (age < 24 * hour)%Z) /\
      (usable = true <-> version m = CACHE_VERSION /\ (age < 7 * day)%Z) /\
      (version m = CACHE_VERSION ->
       (age = 23 * hour + 59 * minute -> fresh = true)%Z /\
       (age = 24 * hour + 1 * minute -> fresh = false /\ usable = true)%Z /\
       (age = 7 * day + 1 * hour -> fresh = false /\ usable = false)%Z)).
Proof.
  intros Hm age minute hour day.
  exists (younger_than CACHE_MAX_AGE_MS w), (younger_than CACHE_STALE_AGE_MS w).
  split; [apply isCacheFresh_spec|].
  split; [apply isCacheUsable_spec|].
  pose proof (younger_than_iff CACHE_MAX_AGE_MS w m Hm) as Hf.
  pose proof (younger_than_iff CACHE_STALE_AGE_MS w m Hm) as Hu.
  fold age in Hf, Hu.
  unfold CACHE_MAX_AGE_MS in Hf. unfold CACHE_STALE_AGE_MS in Hu.
  split; [exact Hf|]. split; [exact Hu|].
  intros Hv.
  assert (Hnf : forall b, b <> true -> b = false)
    by (intros []; congruence).
  repeat split.
  - intros Ha. apply Hf. subst minute hour. lia.
  - apply Hnf. rewrite Hf. subst minute hour. lia.
  - apply Hu. subst minute hour day. lia.
  - apply Hnf. rewrite Hf. subst minute hour day. lia.
  - apply Hnf. rewrite Hu. subst minute hour day. lia.
Qed.

End CacheFacts.

Lemma cache_staleness_boundaries_witness :
  exists fresh usable,
    isCacheFresh (sample_world Missing 0 86460000 Aborted)
      = (Normal fresh, sample_world Missing 0 86460000 Aborted) /\
    isCacheUsable (sample_world Missing 0 86460000 Aborted)
      = (Normal usable, sample_world Missing 0 86460000 Aborted) /\
    fresh = false /\ usable = true.
Proof.
  destruct (cache_staleness_boundaries
              (sample_world Missing 0 86460000 Aborted) (sample_meta 0) eq_refl)
    as (fresh & usable & Hf & Hu & _ & _ & Hb).
  exists fresh, usable. split; [exact Hf|]. split; [exact Hu|].
  destruct (Hb eq_refl) as (_ & H & _). apply H. reflexivity.
Defined.

(** ** The validator *)

Section ValidatorFacts.

Implicit Types (p q : planet) (l : list planet) (st : CleanState) (r : Report).

Lemma fill_defaults_name p : name (fill_defaults p) = name p.
Proof.
  unfold fill_defaults.
  repeat match goal with |- context [if ?c then _ else _] => destruct c end;
    reflexivity.
Qed.

(** The fields of a record after the defaults have been assigned. *)
Lemma fill_defaults_fields p :
  distance (fill_defaults p) = Some (default (Fin 0) (distance p)) /\
  radius (fill_defaults p) = Some (default (Fin 1) (radius p)) /\
  mass (fill_defaults p)
    = Some (default (mass_estimate (default (Fin 1) (radius p))) (mass p)) /\
  eqTemp (fill_defaults p) = Some (default (eqTemp_default p) (eqTemp p)) /\
  period (fill_defaults p) = Some (default (Fin 0) (period p)) /\
  semiMajorAxis (fill_defaults p) = Some (default (Fin 0) (semiMajorAxis p)).
Proof.
  destruct p as [n s [d|] [r|] [m|] [pe|] [a|] [t|] ? ? ? ? ? [lum|] ? ? ? ? ? ? ? ? ? ? ? ? ?];
    cbv [fill_defaults is_null distance radius mass eqTemp period semiMajorAxis
         set_distance set_radius set_mass set_eqTemp set_period
         set_semiMajorAxis set_eqTempEstimated the_num default from_option id
         eqTemp_default
         starLum name system eccentricity inclination starType starTemp
         starMass starLumLog discovered discoveryMethod discoveryFacility
         discoveryRef ra dec vMag kMag controversial source nasaRaw
         eqTempEstimated];
    repeat split; reflexivity.
Qed.

Lemma range_checks_report p r :
  fst (range_checks p r)
  = mkReport (totalInput r) (nullFields r) (badValues r ++ bad_entries p)
      (duplicates r) (rep_controversial r) (cleaned r) (passed r) (totalOutput r).
Proof.
  unfold range_checks, bad_entries, flag, bad_entry, push_badValue.
  destruct (radius_out_of_range p), (mass_out_of_range p),
    (distance_out_of_range p), (eqTemp_out_of_range p);
    cbn; rewrite <- ?app_assoc, ?app_nil_r; destruct r; reflexivity.
Qed.

(** One turn of the loop on a record whose name has not been seen. *)
Lemma clean_step_new st p :
  name p ∉ cs_seen st ->
  let st' := clean_step st p in
  cs_cleaned st' = cs_cleaned st ++ [fill_defaults p] /\
  cs_seen st' = cs_seen st ∪ {[ name p ]} /\
  totalInput (cs_report st') = totalInput (cs_report st) /\
  duplicates (cs_report st') = duplicates (cs_report st) /\
  cleaned (cs_report st') = cleaned (cs_report st) /\
  badValues (cs_report st') = badValues (cs_report st) ++ bad_entries p.
Proof.
  intros Hnew. unfold clean_step.
  destruct (decide (name p ∈ cs_seen st)) as [Hin|_]; [contradiction|].
  match goal with
  | |- context [range_checks p ?r] =>
      pose proof (range_checks_report p r) as Hr;
      destruct (range_checks p r) as [report bad]
  end.
  cbn in Hr. subst report.
  destruct (controversial p), bad; cbn; repeat split; reflexivity.
Qed.

Lemma clean_step_seen st p :
  name p ∈ cs_seen st ->
  clean_step st p
  = mkCleanState (inc_cleaned (cs_report st)) (cs_cleaned st) (cs_seen st).
Proof.
  intros Hin. unfold clean_step.
  destruct (decide (name p ∈ cs_seen st)); [reflexivity|contradiction].
Qed.

(** The loop invariant, stated for the whole run from any state. *)
Lemma clean_loop l : forall st,
  let st' := fold_left clean_step l st in
  let kept := first_occurrences (cs_seen st) l in
  cs_cleaned st' = cs_cleaned st ++ map fill_defaults kept /\
  totalInput (cs_report st') = totalInput (cs_report st) /\
  duplicates (cs_report st') = duplicates (cs_report st) /\
  (cleaned (cs_report st') + length kept = cleaned (cs_report st) + length l)%nat /\
  badValues (cs_report st') = badValues (cs_report st) ++ flat_map bad_entries kept.
Proof.
  induction l as [|p l IH]; intros st.
  - cbn. rewrite !app_nil_r. repeat split; lia.
  - cbn [fold_left first_occurrences].
    destruct (decide (name p ∈ cs_seen st)) as [Hin|Hnew].
    + rewrite (clean_step_seen st p Hin).
      specialize (IH (mkCleanState (inc_cleaned (cs_report st)) (cs_cleaned st)
                        (cs_seen st))).
      cbn in IH. destruct IH as (Hc & Ht & Hd & Hn & Hb).
      cbn. repeat split; try assumption. lia.
    + destruct (clean_step_new st p Hnew) as (Hc1 & Hs1 & Ht1 & Hd1 & Hn1 & Hb1).
      specialize (IH (clean_step st p)).
      cbn in IH. destruct IH as (Hc & Ht & Hd & Hn & Hb).
      rewrite Hs1 in Hc, Hn, Hb.
      cbn. rewrite Hc, Hc1, Ht, Ht1, Hd, Hd1, Hb, Hb1, <- !app_assoc.
      repeat split; try reflexivity.
      rewrite Hn1 in Hn. cbn. lia.
Qed.

Lemma first_occurrences_subset l : forall seen p,
  p ∈ first_occurrences seen l -> p ∈ l.
Proof.
  induction l as [|x l IH]; intros seen p; cbn; [easy|].
  destruct (decide (name x ∈ seen)).
  - intros H. right. eauto.
  - intros [->|H]%elem_of_cons; [left|right; eauto].
Qed.

(** What [validateAndClean] returns, in closed form. *)
Lemma validateAndClean_spec l :
  let kept := first_occurrences ∅ l in
  fst (validateAndClean l) = map fill_defaults kept /\
  totalInput (snd (validateAndClean l)) = length l /\
  totalOutput (snd (validateAndClean l)) = length kept /\
  (cleaned (snd (validateAndClean l)) + length kept = length l)%nat /\
  duplicates (snd (validateAndClean l)) = find_duplicates (count_names l) /\
  badValues (snd (validateAndClean l)) = flat_map bad_entries kept.
Proof.
  unfold validateAndClean.
  match goal with
  | |- context [fold_left clean_step l ?st0] =>
      destruct (clean_loop l st0) as (Hc & Ht & Hd & Hn & Hb)
  end.
  cbn in Hc, Ht, Hd, Hn, Hb. cbn.
  rewrite Hc, length_map. repeat split; assumption.
Qed.

End ValidatorFacts.

(** Deciding comparisons of real constants inside the number model. *)
Ltac real_cases :=
  unfold num_ge, num_gt, num_le, num_lt, num_eq, Rltb, Rleb, Reqb in *;
  repeat match goal with
  | |- context [Rlt_dec ?a ?b] => destruct (Rlt_dec a b); try lra
  | |- context [Rle_dec ?a ?b] => destruct (Rle_dec a b); try lra
  | |- context [Req_dec_T ?a ?b] => destruct (Req_dec_T a b); try lra
  end.

Section ValidatorClaims.

Implicit Types (p q : planet) (l : list planet).


(** The claim of C3 fails: a record whose radius, mass and distance are
    negative comes out of the validator with the same negative values. *)
Lemma negative_values_survive_cleaning :
  fst (validateAndClean [negative_planet]) = [negative_planet] /\
  radius negative_planet = Some (Fin (-1)) /\
  (Fin (-1) >=? Fin 0)%num = false /\
  mass negative_planet = Some (Fin (-2)) /\
  (Fin (-2) >=? Fin 0)%num = false /\
  distance negative_planet = Some (Fin (-3)) /\
  (Fin (-3) >=? Fin 0)%num = false.
Proof.
  destruct (validateAndClean_spec [negative_planet]) as (Hc & _).
  rewrite Hc.
  repeat split; try reflexivity; real_cases; try reflexivity.
Qed.

(** C3, amended.  Every record of the cleaned list has radius, mass and
    distance present.  A missing radius becomes 1.0, a missing distance 0 and
    a missing mass the estimate from the radius; a value that is present is
    kept as it is, also when it is negative or zero, and in that case
    [report.badValues] has an entry with the name of the record, the field
    and the value. *)
Theorem cleaned_values_kept_or_defaulted l :
  let cleaned_list := fst (validateAndClean l) in
  let report := snd (validateAndClean l) in
  Forall (fun q =>
            exists p, p ∈ l /\ name q = name p /\
              radius q = Some (default (Fin 1) (radius p)) /\
              distance q = Some (default (Fin 0) (distance p)) /\
              mass q = Some (default
                               (mass_estimate (default (Fin 1) (radius p)))
                               (mass p)) /\
              (forall v, radius p = Some v -> (v <=? Fin 0)%num = true ->
                 mkBadValue (name p) "radius" v ∈ badValues report) /\
              (forall v, mass p = Some v -> (v <=? Fin 0)%num = true ->
                 mkBadValue (name p) "mass" v ∈ badValues report) /\
              (forall v, distance p = Some v -> (v <=? Fin 0)%num = true ->
                 mkBadValue (name p) "distance" v ∈ badValues report))
         cleaned_list.
Proof.
  intros cleaned_list report. subst cleaned_list report.
  destruct (validateAndClean_spec l) as (Hc & _ & _ & _ & _ & Hb).
  rewrite Hc, Hb.
  apply Forall_forall. intros q Hq.
  apply list_elem_of_In, in_map_iff in Hq. destruct Hq as (p & <- & Hp).
  apply list_elem_of_In in Hp.
  assert (Hflag : forall b, b ∈ bad_entries p ->
            b ∈ flat_map bad_entries (first_occurrences ∅ l)).
  { intros b Hbp. apply list_elem_of_In, in_flat_map.
    exists p. split; apply list_elem_of_In; assumption. }
  apply first_occurrences_subset in Hp.
  destruct (fill_defaults_fields p) as (Hd & Hr & Hm & _).
  exists p. split; [assumption|]. split; [apply fill_defaults_name|].
  do 3 (split; [assumption|]).
  unfold bad_entries in Hflag.
  repeat split; intros v Hv Hle; apply Hflag.
  - unfold radius_out_of_range. rewrite Hv, Hle. cbn. left.
  - unfold mass_out_of_range. rewrite Hv, Hle. cbn.
    apply elem_of_app. right. left.
  - unfold distance_out_of_range. rewrite Hv, Hle. cbn.
    apply elem_of_app. right. apply elem_of_app. right. left.
Qed.

(** *** Duplicates *)

Lemma occurrences_cons p l n :
  occurrences n (p :: l)
  = if decide (name p = n) then S (occurrences n l) else occurrences n l.
Proof.
  unfold occurrences. rewrite filter_cons.
  destruct (decide (name p = n)); reflexivity.
Qed.

Lemma count_names_lookup l n : forall m : gmap string nat,
  fold_left count_name l m !! n
  = if decide (occurrences n l = 0%nat) then m !! n
    else Some (default 0%nat (m !! n) + occurrences n l)%nat.
Proof.
  induction l as [|p l IH]; intros m; [reflexivity|].
  cbn [fold_left]. rewrite IH, occurrences_cons. unfold count_name.
  destruct (decide (name p = n)) as [->|Hne].
  - rewrite lookup_insert_eq. cbn.
    destruct (decide (occurrences n l = 0%nat)) as [->|_];
      destruct (decide _); try lia; f_equal; lia.
  - rewrite lookup_insert_ne by assumption. reflexivity.
Qed.





End ValidatorClaims.


(** ** Arithmetic of the number model on finite values *)

Section NumFacts.

Local Open Scope R_scope.

Lemma num_le_Fin x y : num_le (Fin x) (Fin y) = true <-> x <= y.
Proof. real_cases; split; intros; try reflexivity; try discriminate; lra. Qed.


Lemma num_le_Fin_false x y : y < x -> num_le (Fin x) (Fin y) = false.
Proof. intros. real_cases; try reflexivity. Qed.


Lemma num_div_Fin x y : y <> 0 -> (Fin x / Fin y)%num = Fin (x / y).
Proof. intros. unfold num_div. real_cases; try reflexivity. Qed.

Lemma Math_sqrt_Fin x : 0 <= x -> Math_sqrt (Fin x) = Fin (sqrt x).
Proof. intros. unfold Math_sqrt. real_cases; try reflexivity. Qed.


(** A positive whole exponent: the power is the iterated product, whatever
    the sign of the base. *)
Lemma Math_pow_nat x (n : nat) :
  (0 < n)%nat -> Math_pow (Fin x) (Fin (INR n)) = Fin (x ^ n).
Proof.
  intros Hn. assert (0 < INR n) by (apply lt_0_INR; lia).
  unfold Math_pow, is_integer. rewrite Int_part_INR, <- INR_IZR_INZ.
  real_cases.
  - f_equal. apply Rpower_pow. assumption.
  - subst x. f_equal. destruct n; [lia|]. simpl. ring.
  - f_equal. symmetry. apply pow_powerRZ.
Qed.






End NumFacts.

(** ** Habitable zone *)

Section HabitableZoneFacts.

Local Open Scope R_scope.

(** The flux polynomial of a boundary at the offset [u] from the solar
    temperature. *)
Lemma sEff_Fin u s0 a b c d :
  sEff (Fin u) (mkCoefficients (Fin s0) (Fin a) (Fin b) (Fin c) (Fin d))
  = Fin (s0 + a * u + b * u * u + c * u ^ 3 + d * u ^ 4).
Proof.
  unfold sEff. cbn [S0 coef_a coef_b coef_c coef_d].
  replace (Fin 3) with (Fin (INR 3)) by (f_equal; simpl; lra).
  replace (Fin 4) with (Fin (INR 4)) by (f_equal; simpl; lra).
  rewrite !Math_pow_nat by lia. reflexivity.
Qed.

(** The clamped temperature of an accepted star lies in the range of the
    model. *)
Lemma clamp_range t :
  num_truthy t = true ->
  exists c, Math_max (Fin 2600) (Math_min (Fin 7200) t) = Fin c
            /\ 2600 <= c <= 7200.
Proof.
  destruct t as [| | |x]; cbn; try discriminate; intros _.
  - exists 2600. split; [reflexivity|lra].
  - exists 7200. unfold Math_max. real_cases. split; [reflexivity|lra].
  - unfold Math_min, Math_max. real_cases; eexists; (split; [reflexivity|lra]).
Qed.

(** The four fluxes are ordered and positive on the whole clamped range. *)
Lemma flux_ordering u :
  -3180 <= u <= 1420 ->
  let s k := match sEff (Fin u) k with Fin v => v | _ => 0 end in
  sEff (Fin u) HZ_recentVenus = Fin (s HZ_recentVenus) /\
  sEff (Fin u) HZ_runawayGH = Fin (s HZ_runawayGH) /\
  sEff (Fin u) HZ_maxGreenhouse = Fin (s HZ_maxGreenhouse) /\
  sEff (Fin u) HZ_earlyMars = Fin (s HZ_earlyMars) /\
  0 < s HZ_earlyMars <= s HZ_maxGreenhouse /\
  s HZ_maxGreenhouse <= s HZ_runawayGH /\
  s HZ_runawayGH <= s HZ_recentVenus.
Proof.
  intros Hu s. subst s. cbv beta.
  unfold HZ_recentVenus, HZ_runawayGH, HZ_maxGreenhouse, HZ_earlyMars.
  rewrite !sEff_Fin. cbv beta iota.
  assert (H2 : 0 <= u * u <= 3180 * 3180) by nra.
  assert (H3 : u ^ 3 <= 1420 * (u * u)) by nra.
  assert (H4 : u ^ 4 <= 3180 * 3180 * (u * u)) by nra.
  repeat split; try reflexivity; first [nra | clear H2 H3 H4; nra].
Qed.

(** Distances decrease with the flux. *)
Lemma distAU_antitone lum s1 s2 :
  opt_num_truthy (Some lum) = true -> (lum <=? Fin 0)%num = false ->
  0 < s2 <= s1 ->
  (distAU lum (Fin s1) <=? distAU lum (Fin s2))%num = true.
Proof.
  intros Ht Hpos Hs. unfold distAU.
  destruct lum as [| | |y]; try discriminate.
  - unfold num_div. real_cases; try reflexivity.
  - assert (Hy : 0 < y).
    { destruct (Rlt_dec 0 y); [assumption|].
      rewrite (proj2 (num_le_Fin y 0)) in Hpos by lra. discriminate. }
    rewrite !num_div_Fin by lra.
    assert (H1 : 0 < / s1) by (apply Rinv_0_lt_compat; lra).
    assert (H2 : / s1 <= / s2) by (apply Rinv_le_contravar; lra).
    rewrite !Math_sqrt_Fin by (unfold Rdiv; nra).
    apply num_le_Fin, sqrt_le_1_alt. unfold Rdiv. nra.
Qed.

(** C7.  Whenever [calculateHabitableZone] accepts its arguments (the
    temperature is a non-zero number or an infinity, the luminosity is
    positive), the optimistic zone contains the conservative one:
    [optimisticInner <= conservativeInner <= conservativeOuter <=
    optimisticOuter]; it returns [null] only for arguments that it
    rejects. *)
Theorem optimistic_zone_contains_conservative
    (Number_toString : num -> string) (starTeff starLum : option num) :
  match calculateHabitableZone Number_toString starTeff starLum with
  | Some hz =>
      (optimisticInner hz <=? conservativeInner hz)%num = true /\
      (conservativeInner hz <=? conservativeOuter hz)%num = true /\
      (conservativeOuter hz <=? optimisticOuter hz)%num = true
  | None =>
      opt_num_truthy starTeff = false \/ opt_num_truthy starLum = false
      \/ (the_num starLum <=? Fin 0)%num = true
  end.
Proof.
  unfold calculateHabitableZone.
  destruct (opt_num_truthy starTeff) eqn:Ht; cbn [negb orb]; [|left; reflexivity].
  destruct (opt_num_truthy starLum) eqn:Hl; cbn [negb orb];
    [|right; left; reflexivity].
  destruct (the_num starLum <=? Fin 0)%num eqn:Hpos;
    [right; right; reflexivity|].
  destruct starTeff as [t|]; [|discriminate].
  destruct starLum as [lum|]; [|discriminate].
  cbn [the_num] in *.
  destruct (clamp_range t Ht) as (c & -> & Hc).
  replace (Fin c - Fin 5780)%num with (Fin (c - 5780)) by reflexivity.
  destruct (flux_ordering (c - 5780)) as (-> & -> & -> & -> & H1 & H2 & H3);
    [lra|].
  cbn [conservativeInner conservativeOuter optimisticInner optimisticOuter].
  repeat split; apply distAU_antitone; try assumption; lra.
Qed.

End HabitableZoneFacts.

(** ** Earth Similarity Index *)

Section ESIFacts.

Local Open Scope R_scope.





End ESIFacts.


(** ** Enrichment *)

Section EnrichFacts.

Variable Number_toString : num -> string.
Variable Number_toFixed : num -> nat -> string.

(** The two computed fields read the pipeline fields only. *)
Lemma getHZStatus_data (p q : CatalogPlanet) :
  data p = data q ->
  getHZStatus Number_toString p = getHZStatus Number_toString q.
Proof. intros H. unfold getHZStatus. rewrite H. reflexivity. Qed.

Lemma calculateESI_data (p q : CatalogPlanet) :
  data p = data q -> calculateESI p = calculateESI q.
Proof. intros H. unfold calculateESI. rewrite H. reflexivity. Qed.


(** [enrichPlanet] in closed form: the pipeline fields and the fields set
    when the catalog is built are kept; [hzStatus] and [esi] are always
    assigned; the other five fields are assigned under their guards. *)
Lemma enrichPlanet_closed_form (p : CatalogPlanet) :
  enrichPlanet Number_toString Number_toFixed p
  = let d := data p in
    let located := negb (is_null (ra d)) && negb (is_null (dec d)) in
    mkCatalogPlanet d (id p) (type p) (habitability p)
      (Some (getHZStatus Number_toString p))
      (Some (calculateESI p))
      (if located
       then Some (formatRADec Number_toString Number_toFixed (ra d) (dec d))
       else coords p)
      (if located then getConstellation (ra d) (dec d) else constellation p)
      (if located then getObservability (ra d) (dec d) else observability p)
      (if negb (is_null (vMag d))
       then Some (getMagnitudeGuidance (vMag d)) else magnitudeGuidance p)
      (if opt_str_truthy (discoveryMethod d)
       then Some (getDiscoveryMethodInfo (discoveryMethod d))
       else discoveryMethodInfo p).
Proof.
  destruct p as [d i ty h hz e c co o mg dmi].
  lazy beta iota zeta delta
    [enrichPlanet data set_hzStatus set_esi set_coords set_constellation
     set_observability set_magnitudeGuidance set_discoveryMethodInfo
     id type habitability hzStatus esi coords constellation observability
     magnitudeGuidance discoveryMethodInfo].
  rewrite (calculateESI_data
             (mkCatalogPlanet d i ty h
                (Some (getHZStatus Number_toString
                         (mkCatalogPlanet d i ty h hz e c co o mg dmi)))
                e c co o mg dmi)
             (mkCatalogPlanet d i ty h hz e c co o mg dmi) eq_refl).
  destruct (negb (is_null (ra d)) && negb (is_null (dec d)));
    destruct (negb (is_null (vMag d)));
    destruct (opt_str_truthy (discoveryMethod d)); reflexivity.
Qed.

(** C8.  [enrichPlanet] is idempotent: enriching an enriched record gives
    the same record, so each of [hzStatus], [esi], [coords],
    [constellation], [observability], [magnitudeGuidance] and
    [discoveryMethodInfo] is the same after the second application. *)
Theorem enrichPlanet_idempotent (p : CatalogPlanet) :
  let once := enrichPlanet Number_toString Number_toFixed p in
  let twice := enrichPlanet Number_toString Number_toFixed once in
  twice = once /\
  hzStatus twice = hzStatus once /\
  esi twice = esi once /\
  coords twice = coords once /\
  constellation twice = constellation once /\
  observability twice = observability once /\
  magnitudeGuidance twice = magnitudeGuidance once /\
  discoveryMethodInfo twice = discoveryMethodInfo once.
Proof.
  intros once twice.
  assert (H : twice = once).
  { subst once twice. rewrite (enrichPlanet_closed_form p).
    set (q := mkCatalogPlanet _ _ _ _ _ _ _ _ _ _ _).
    rewrite (enrichPlanet_closed_form q).
    rewrite (getHZStatus_data q p eq_refl), (calculateESI_data q p eq_refl).
    subst q. cbv zeta.
    cbn [data id type habitability hzStatus esi coords constellation
         observability magnitudeGuidance discoveryMethodInfo].
    destruct (negb (is_null (ra (data p))) && negb (is_null (dec (data p))));
      destruct (negb (is_null (vMag (data p))));
      destruct (opt_str_truthy (discoveryMethod (data p))); reflexivity. }
  rewrite H. repeat split.
Qed.

End EnrichFacts.

(** ** Catalog search *)

Section SearchFacts.

Implicit Types (s : Store) (r : nat) (elems : list CatalogPlanet).

Lemma hoare_bind {A B} P (c : Heap A) Q (k : A -> Heap B) R :
  hoare P c Q -> (forall a, hoare (Q a) (k a) R) -> hoare P (hbind c k) R.
Proof.
  intros Hc Hk s HP. unfold hbind.
  specialize (Hc s HP). destruct (c s) as [a s']. cbn in Hc.
  apply Hk. exact Hc.
Qed.

Lemma hoare_ret {A} (Q : A -> Store -> Prop) (a : A) :
  hoare (Q a) (hret a) Q.
Proof. intros s H. exact H. Qed.

Lemma preserves_refl s : preserves s s.
Proof. split; [reflexivity|intros; reflexivity]. Qed.

Lemma preserves_dom s0 s l :
  preserves s0 s -> l ∈ dom (heap s0) -> l ∈ dom (heap s).
Proof.
  intros [_ H] Hl. apply elem_of_dom. rewrite (H l Hl).
  apply elem_of_dom. exact Hl.
Qed.

(** Allocation gives an address that no earlier array has and leaves the
    earlier arrays alone. *)
Lemma alloc_holds s0 elems :
  hoare (preserves s0) (alloc elems) (array_holds s0 elems).
Proof.
  intros s Hs. unfold alloc. cbn.
  pose proof (is_fresh (dom (heap s))) as Hfresh.
  set (l := fresh (dom (heap s))) in *.
  assert (Hl0 : l ∉ dom (heap s0)).
  { intros Hin. apply Hfresh. eapply preserves_dom; eassumption. }
  assert (Hl : <[l:=elems]> (heap s) !! l = Some elems)
    by apply lookup_insert_eq.
  split; [split; [split|split]|].
  - apply Hs.
  - intros l' Hl'. cbn.
    rewrite lookup_insert_ne by (intros ->; contradiction).
    apply Hs. exact Hl'.
  - exact Hl0.
  - cbn. apply elem_of_dom. rewrite Hl. eauto.
  - exact Hl.
Qed.

(** The copy [[...PLANET_CATALOG]]. *)
Lemma spread_catalog_holds s0 :
  hoare (fun s => s = s0) (fun s => spread (PLANET_CATALOG s) s)
    (array_holds s0 (default [] (heap s0 !! PLANET_CATALOG s0))).
Proof.
  intros s ->. unfold spread, hbind, elements_at.
  apply alloc_holds, preserves_refl.
Qed.

Lemma Array_filter_holds s0 elems f r :
  hoare (array_holds s0 elems r) (Array_filter f r)
    (array_holds s0 (List.filter f elems)).
Proof.
  intros s ((Hp & _ & _) & Hr). unfold Array_filter, hbind, elements_at.
  rewrite Hr. cbn [default]. apply alloc_holds. exact Hp.
Qed.

Lemma refine_holds s0 elems f r :
  hoare (array_holds s0 elems r) (refine r f)
    (array_holds s0 (refine_list elems f)).
Proof.
  destruct f as [f|]; cbn.
  - apply Array_filter_holds.
  - apply hoare_ret.
Qed.

Lemma refine_all_holds s0 fs : forall elems r,
  hoare (array_holds s0 elems r) (refine_all r fs)
    (array_holds s0 (fold_left refine_list fs elems)).
Proof.
  induction fs as [|f fs IH]; intros elems r; cbn [refine_all fold_left].
  - apply hoare_ret.
  - eapply hoare_bind; [apply refine_holds|]. intros r'. apply IH.
Qed.

(** Sorting the new array in place does not touch the earlier arrays. *)
Lemma sort_in_place_holds s0 elems cmp r :
  hoare (array_holds s0 elems r) (Array_sort_in_place cmp r)
    (fun _ => array_holds s0 (Array_sort cmp elems) r).
Proof.
  intros s (((Hc & Hh) & Hr0 & Hr) & He). unfold Array_sort_in_place. cbn.
  assert (Hl : alter (Array_sort cmp) r (heap s) !! r
               = Some (Array_sort cmp elems))
    by (rewrite lookup_alter_eq, He; reflexivity).
  split; [split; [split|split]|].
  - exact Hc.
  - intros l Hl'. cbn.
    rewrite lookup_alter_ne by (intros ->; contradiction).
    apply Hh. exact Hl'.
  - exact Hr0.
  - cbn. apply elem_of_dom. rewrite Hl. eauto.
  - exact Hl.
Qed.

(** What a search does to the heap and what it returns. *)
Lemma searchPlanets_spec s0 query filters :
  array_holds s0
    (search_list query filters (default [] (heap s0 !! PLANET_CATALOG s0)))
    (fst (searchPlanets query filters s0))
    (snd (searchPlanets query filters s0)).
Proof.
  assert (H : hoare (fun s => s = s0) (searchPlanets query filters)
                (array_holds s0
                   (search_list query filters
                      (default [] (heap s0 !! PLANET_CATALOG s0))))).
  { unfold searchPlanets, search_list.
    eapply hoare_bind; [apply spread_catalog_holds|]. intros r0.
    eapply hoare_bind; [apply refine_all_holds|]. intros r1.
    cbv zeta.
    eapply hoare_bind; [apply sort_in_place_holds|]. intros u.
    exact (hoare_ret (array_holds s0 _) r1). }
  apply H. reflexivity.
Qed.

(** C10.  A search returns an array that did not exist before the call, so
    one that is not the catalog, and leaves every array that existed, the
    catalog among them, with the same elements in the same order (hence the
    same length and membership); the catalog variable is not reassigned. *)
Theorem searchPlanets_leaves_catalog_untouched (query : string)
    (filters : Filters) (s0 : Store) :
  is_Some (heap s0 !! PLANET_CATALOG s0) ->
  let result := fst (searchPlanets query filters s0) in
  let s1 := snd (searchPlanets query filters s0) in
  result <> PLANET_CATALOG s0 /\
  (result ∉ dom (heap s0)) /\
  is_Some (heap s1 !! result) /\
  PLANET_CATALOG s1 = PLANET_CATALOG s0 /\
  heap s1 !! PLANET_CATALOG s0 = heap s0 !! PLANET_CATALOG s0 /\
  (forall l, l ∈ dom (heap s0) -> heap s1 !! l = heap s0 !! l).
Proof.
  intros Hcat result s1.
  destruct (searchPlanets_spec s0 query filters)
    as (((Hc & Hh) & Hnew & Hdom) & _).
  fold result s1 in Hc, Hh, Hnew, Hdom.
  apply elem_of_dom in Hcat.
  repeat split.
  - intros Heq. apply Hnew. rewrite Heq. exact Hcat.
  - exact Hnew.
  - apply elem_of_dom. exact Hdom.
  - exact Hc.
  - apply Hh. exact Hcat.
  - exact Hh.
Qed.

Lemma searchPlanets_leaves_catalog_untouched_witness :
  let result := fst (searchPlanets "b" (sort_by "name" "desc") two_planet_store) in
  let s1 := snd (searchPlanets "b" (sort_by "name" "desc") two_planet_store) in
  result <> 0%nat /\
  heap s1 !! 0%nat = Some [untyped_star_entry; typed_star_entry].
Proof.
  destruct (searchPlanets_leaves_catalog_untouched "b" (sort_by "name" "desc")
              two_planet_store)
    as (H1 & _ & _ & _ & H2 & _).
  - exists [untyped_star_entry; typed_star_entry]. reflexivity.
  - split; [exact H1|exact H2].
Defined.

(** C9, at the failing input.  With a sort on [starType], a record whose
    spectral type is [null] and that comes first in the catalog stays in
    front of a record whose spectral type is a string, in ascending and in
    descending order: the comparator turns the [null] into an infinity, and
    an infinity compares neither below nor above a string. *)
Theorem null_string_key_is_not_sorted_last :
  get_field "starType" untyped_star_entry = VNull /\
  get_field "starType" typed_star_entry = VString "G2V" /\
  compare_planets "starType" "asc" untyped_star_entry typed_star_entry = 0%Z /\
  compare_planets "starType" "desc" untyped_star_entry typed_star_entry = 0%Z /\
  heap (snd (searchPlanets "" (sort_by "starType" "asc") two_planet_store))
    !! fst (searchPlanets "" (sort_by "starType" "asc") two_planet_store)
  = Some [untyped_star_entry; typed_star_entry] /\
  heap (snd (searchPlanets "" (sort_by "starType" "desc") two_planet_store))
    !! fst (searchPlanets "" (sort_by "starType" "desc") two_planet_store)
  = Some [untyped_star_entry; typed_star_entry].
Proof.
  split; [reflexivity|]. split; [reflexivity|].
  split; [reflexivity|]. split; [reflexivity|].
  split.
  - destruct (searchPlanets_spec two_planet_store "" (sort_by "starType" "asc"))
      as (_ & ->).
    reflexivity.
  - destruct (searchPlanets_spec two_planet_store "" (sort_by "starType" "desc"))
      as (_ & ->).
    reflexivity.
Qed.

End SearchFacts.

(** *** Sorting on numeric keys *)

Section SortFacts.

Context {A : Type} (cmp : A -> A -> Z) (ok : A -> Prop).

Hypothesis cmp_total : forall a b, ok a -> ok b -> cmp_le cmp a b \/ cmp_le cmp b a.
Hypothesis cmp_trans : forall a b c,
  ok a -> ok b -> ok c -> cmp_le cmp a b -> cmp_le cmp b c -> cmp_le cmp a c.

Lemma sort_insert_perm x (l : list A) : sort_insert cmp x l ≡ₚ x :: l.
Proof.
  induction l as [|y l IH]; cbn; [reflexivity|].
  destruct (cmp x y <=? 0)%Z; [reflexivity|].
  rewrite IH. apply Permutation_swap.
Qed.

Lemma Array_sort_cons x (l : list A) :
  Array_sort cmp (x :: l) = sort_insert cmp x (Array_sort cmp l).
Proof. reflexivity. Qed.

Lemma Array_sort_perm (l : list A) : Array_sort cmp l ≡ₚ l.
Proof.
  induction l as [|x l IH]; [reflexivity|].
  rewrite Array_sort_cons, sort_insert_perm. f_equiv. exact IH.
Qed.

Lemma sort_insert_sorted x (l : list A) :
  ok x -> Forall ok l ->
  StronglySorted (cmp_le cmp) l ->
  StronglySorted (cmp_le cmp) (sort_insert cmp x l).
Proof.
  intros Hx Hok Hs. induction Hs as [|y l Hs IH Hy]; cbn.
  - constructor; constructor.
  - apply Forall_cons in Hok as [Hoky Hokl].
    destruct (cmp x y <=? 0)%Z eqn:E.
    + apply Z.leb_le in E. constructor; [constructor; assumption|].
      constructor; [exact E|].
      apply Forall_forall. intros z Hz.
      apply (cmp_trans x y z); try assumption.
      * rewrite Forall_forall in Hokl. apply Hokl, Hz.
      * rewrite Forall_forall in Hy. apply Hy, Hz.
    + apply Z.leb_gt in E. constructor; [apply IH; assumption|].
      rewrite sort_insert_perm. constructor; [|exact Hy].
      destruct (cmp_total x y Hx Hoky) as [H|H]; [|exact H].
      unfold cmp_le in H. lia.
Qed.

Lemma Array_sort_sorted (l : list A) :
  Forall ok l -> StronglySorted (cmp_le cmp) (Array_sort cmp l).
Proof.
  induction l as [|x l IH]; intros Hok; [constructor|].
  apply Forall_cons in Hok as [Hx Hl]. rewrite Array_sort_cons.
  apply sort_insert_sorted; [exact Hx| |apply IH, Hl].
  rewrite Array_sort_perm. exact Hl.
Qed.

Lemma sorted_lookup (R : A -> A -> Prop) (l : list A) :
  StronglySorted R l ->
  forall i j a b,
    l !! i = Some a -> l !! j = Some b -> (i < j)%nat -> R a b.
Proof.
  induction 1 as [|x l Hs IH Hx]; intros i j a b Hi Hj Hlt.
  - rewrite lookup_nil in Hi. discriminate.
  - destruct j as [|j]; [lia|]. cbn in Hj.
    destruct i as [|i]; cbn in Hi.
    + injection Hi as <-. rewrite Forall_forall in Hx. apply Hx.
      apply list_elem_of_lookup. eauto.
    + apply (IH i j); [assumption|assumption|lia].
Qed.

End SortFacts.

Section NumericKeys.

Lemma num_lt_cases (a b : num) :
  a <> NaN -> b <> NaN ->
  (num_lt a b = true /\ num_lt b a = false) \/
  (num_lt a b = false /\ num_lt b a = true) \/
  (num_lt a b = false /\ num_lt b a = false).
Proof.
  intros Ha Hb. destruct a as [| | |x], b as [| | |y]; try contradiction;
    cbn; auto.
  real_cases; auto.
Qed.

Lemma num_lt_trans (a b c : num) :
  num_lt b a = false -> num_lt c b = false ->
  a <> NaN -> b <> NaN -> c <> NaN -> num_lt c a = false.
Proof.
  intros H1 H2 Ha Hb Hc.
  destruct a as [| | |x], b as [| | |y], c as [| | |z];
    try contradiction; try discriminate; try reflexivity; cbn in *.
  revert H1 H2. real_cases; intros; try discriminate; reflexivity.
Qed.

Variables sortBy sortDir : string.

(** The number that the comparator compares for a record whose key is
    absent or finite. *)
Lemma sort_key_number a :
  null_or_finite (raw_key sortBy a) ->
  exists n, sort_key sortBy sortDir a = VNumber n /\ n <> NaN.
Proof.
  unfold sort_key. intros [->|[x ->]]; cbn.
  - destruct (is_asc sortDir); eexists; split; try reflexivity; discriminate.
  - eexists; split; [reflexivity|discriminate].
Qed.

Lemma compare_planets_le a b na nb :
  sort_key sortBy sortDir a = VNumber na ->
  sort_key sortBy sortDir b = VNumber nb ->
  na <> NaN -> nb <> NaN ->
  cmp_le (compare_planets sortBy sortDir) a b
  <-> (if is_asc sortDir then num_lt nb na = false else num_lt na nb = false).
Proof.
  intros Ha Hb Hna Hnb. unfold cmp_le, compare_planets, js_gt, js_lt.
  rewrite Ha, Hb. cbn [ToPrimitive ToNumber].
  destruct (num_lt_cases na nb Hna Hnb) as [[-> ->]|[[-> ->]|[-> ->]]];
    destruct (is_asc sortDir); split; intros; try reflexivity;
    try discriminate; lia.
Qed.

(** On records whose keys are numbers or absent, the comparator is a total
    preorder. *)
Lemma compare_planets_total a b :
  null_or_finite (raw_key sortBy a) -> null_or_finite (raw_key sortBy b) ->
  cmp_le (compare_planets sortBy sortDir) a b
  \/ cmp_le (compare_planets sortBy sortDir) b a.
Proof.
  intros Ha Hb.
  destruct (sort_key_number a Ha) as (na & Ea & Hna).
  destruct (sort_key_number b Hb) as (nb & Eb & Hnb).
  rewrite (compare_planets_le a b na nb), (compare_planets_le b a nb na)
    by assumption.
  destruct (num_lt_cases na nb Hna Hnb) as [[-> ->]|[[-> ->]|[-> ->]]];
    destruct (is_asc sortDir); auto.
Qed.

Lemma compare_planets_trans a b c :
  null_or_finite (raw_key sortBy a) -> null_or_finite (raw_key sortBy b) ->
  null_or_finite (raw_key sortBy c) ->
  cmp_le (compare_planets sortBy sortDir) a b ->
  cmp_le (compare_planets sortBy sortDir) b c ->
  cmp_le (compare_planets sortBy sortDir) a c.
Proof.
  intros Ha Hb Hc.
  destruct (sort_key_number a Ha) as (na & Ea & Hna).
  destruct (sort_key_number b Hb) as (nb & Eb & Hnb).
  destruct (sort_key_number c Hc) as (nc & Ec & Hnc).
  rewrite (compare_planets_le a b na nb), (compare_planets_le b c nb nc),
    (compare_planets_le a c na nc) by assumption.
  destruct (is_asc sortDir); intros H1 H2.
  - apply (num_lt_trans na nb nc); assumption.
  - apply (num_lt_trans nc nb na); assumption.
Qed.

(** A record without a key may not stay in front of one with a finite
    key. *)
Lemma null_not_before_finite a b x :
  raw_key sortBy a = VNull -> raw_key sortBy b = VNumber (Fin x) ->
  ~ cmp_le (compare_planets sortBy sortDir) a b.
Proof.
  intros Ha Hb. unfold cmp_le, compare_planets, js_gt, js_lt, sort_key.
  rewrite Ha, Hb. cbn.
  destruct (is_asc sortDir); cbn; lia.
Qed.

(** When every record of the list has a sort key that is absent or a finite
    number, the sorted list is a rearrangement of the list in which no
    record without a key comes before a record with a key, in ascending and
    in descending order alike. *)
Theorem numeric_null_keys_sorted_last (l : list CatalogPlanet) :
  Forall (fun a => null_or_finite (raw_key sortBy a)) l ->
  let out := Array_sort (compare_planets sortBy sortDir) l in
  out ≡ₚ l /\
  forall i j a b,
    out !! i = Some a -> out !! j = Some b ->
    raw_key sortBy a = VNull -> raw_key sortBy b <> VNull ->
    (j < i)%nat.
Proof.
  intros Hok out. split; [apply Array_sort_perm|].
  pose proof (Array_sort_sorted (compare_planets sortBy sortDir)
                (fun a => null_or_finite (raw_key sortBy a))
                compare_planets_total compare_planets_trans l Hok) as Hs.
  fold out in Hs.
  assert (Hout : Forall (fun a => null_or_finite (raw_key sortBy a)) out)
    by (subst out; rewrite Array_sort_perm; exact Hok).
  intros i j a b Hi Hj Ha Hb.
  destruct (Nat.lt_trichotomy j i) as [Hlt|[->|Hgt]]; [exact Hlt| |].
  - rewrite Hi in Hj. injection Hj as <-. contradiction.
  - exfalso.
    assert (Hbk : exists x, raw_key sortBy b = VNumber (Fin x)).
    { rewrite Forall_forall in Hout.
      destruct (Hout b) as [Hn|Hx]; [|contradiction|exact Hx].
      apply list_elem_of_lookup. eauto. }
    destruct Hbk as (x & Hbx).
    apply (null_not_before_finite a b x Ha Hbx).
    apply (sorted_lookup _ out Hs i j); assumption.
Qed.

End NumericKeys.

(** ** The loading pipeline *)

Section PipelineFacts.

Context {Stats : Type}.
Variable summary_stats : list planet -> Stats.
Variable json_length : list planet -> Z.

Implicit Types (w : @World Stats) (cb : option Callback).

Lemma same_env_refl w : same_env w w.
Proof. repeat split. Qed.

Lemma same_env_trans w1 w2 w3 :
  same_env w1 w2 -> same_env w2 w3 -> same_env w1 w3.
Proof.
  intros (A1 & A2 & A3 & A4 & A5 & A6) (B1 & B2 & B3 & B4 & B5 & B6).
  repeat split; congruence.
Qed.

Lemma younger_than_same_env limit w w' :
  same_env w w' -> younger_than limit w' = younger_than limit w.
Proof.
  intros (Hs & _ & _ & Hn & _). unfold younger_than. rewrite Hs, Hn.
  reflexivity.
Qed.

Lemma cached_records_same_env w w' :
  same_env w w' -> cached_records w' = cached_records w.
Proof. intros (Hs & _). unfold cached_records. rewrite Hs. reflexivity. Qed.

Lemma usable_cache_same_env w w' :
  same_env w w' -> usable_cache w' = usable_cache w.
Proof.
  intros H. unfold usable_cache.
  rewrite (younger_than_same_env _ _ _ H), (cached_records_same_env _ _ H).
  reflexivity.
Qed.

(** A callback that returns normally only adds to the progress log. *)
Lemma notify_well_behaved cb ev w :
  well_behaved cb ->
  exists w', notify cb ev w = (Normal tt, w') /\ same_env w w'.
Proof.
  intros Hcb. destruct cb as [f|]; cbn in *.
  - rewrite Hcb. eexists. split; [reflexivity|]. repeat split.
  - exists w. split; [reflexivity|apply same_env_refl].
Qed.

Lemma console_warn_spec line w :
  exists w', console_warn line w = (Normal tt, w') /\ same_env w w'.
Proof. eexists. split; [reflexivity|]. repeat split. Qed.

Lemma formatAge_spec timestamp w :
  exists age, formatAge timestamp w = (Normal age, w).
Proof.
  unfold formatAge, bind, now, ret.
  destruct (_ <? 1)%Z; [eauto|]. destruct (_ <? 24)%Z; eauto.
Qed.

(** The cache writes never throw. *)
Lemma setCacheMeta_spec meta w :
  exists w', setCacheMeta meta w = (Normal tt, w').
Proof.
  unfold setCacheMeta, try_catch, setItem_meta.
  destruct (meta_writable w); [eauto|].
  destruct (console_warn_spec
              ("[NASA-Data] Could not write cache meta: "
               +:+ message QuotaExceeded) w) as (w' & -> & _).
  eauto.
Qed.

Lemma setCachedData_spec data meta w :
  exists w', setCachedData json_length data meta w = (Normal tt, w').
Proof.
  unfold setCachedData, try_catch, bind, setItem_cache.
  destruct (CACHE_SIZE_LIMIT <? json_length data)%Z;
    (destruct (cache_writable w);
     [ match goal with
       | |- context [setCacheMeta ?m ?w0] =>
           destruct (setCacheMeta_spec m w0) as (w' & ->)
       end; eauto
     | match goal with
       | |- context [console_warn ?l ?w0] =>
           destruct (console_warn_spec l w0) as (w' & -> & _)
       end; eauto ]).
Qed.

(** Step 1: with a fresh, non-empty cache the cached records are returned;
    otherwise nothing happens. *)
Lemma fresh_cache_hit_spec cb w :
  well_behaved cb ->
  if fresh_hit w
  then exists result w',
         fresh_cache_hit cb w = (Normal (Some result), w') /\
         planets result = cached_records w /\
         load_source result = "cache (fresh)" /\ error result = None
  else fresh_cache_hit cb w = (Normal None, w).
Proof.
  intros Hcb. unfold fresh_hit, fresh_cache_hit, bind.
  rewrite isCacheFresh_spec.
  destruct (younger_than CACHE_MAX_AGE_MS w) eqn:Hfresh; [|reflexivity].
  rewrite getCachedData_spec, getCacheMeta_spec. fold (cached_records w).
  cbn [andb].
  destruct (nonempty (cached_records w)); [|reflexivity].
  match goal with
  | |- context [notify cb ?ev w] =>
      destruct (notify_well_behaved cb ev w Hcb) as (w' & -> & Henv)
  end.
  unfold younger_than in Hfresh.
  destruct (meta_entry (localStorage w)) as [| |m]; try discriminate.
  cbn. eauto 10.
Qed.

(** What [fetchNASAData] does: the clock advances, and the rows are returned
    or the error of the request is thrown. *)
Lemma fetchNASAData_spec cb w :
  well_behaved cb ->
  exists w',
    same_env (after_fetch w) w' /\
    fetchNASAData cb w
    = (match network w with
       | Responded rows => Normal rows
       | net => Throws (default (mkError "" "") (fetch_error net))
       end, w').
Proof.
  intros Hcb. unfold fetchNASAData, bind, try_catch.
  match goal with
  | |- context [notify cb ?ev w] =>
      destruct (notify_well_behaved cb ev w Hcb)
        as (w1 & -> & (E1 & E2 & E3 & E4 & E5 & E6))
  end.
  unfold await_response. rewrite E1, E2, E3, E4, E5, E6.
  destruct (network w) as [rows|status statusText| |e] eqn:Hnet.
  - match goal with
    | |- context [notify cb ?ev ?w0] =>
        destruct (notify_well_behaved cb ev w0 Hcb) as (w2 & -> & Henv)
    end.
    exists w2. split; [|reflexivity].
    eapply same_env_trans; [|exact Henv]. repeat split; cbn; congruence.
  - cbn. eexists. split; [|reflexivity]. repeat split; cbn; congruence.
  - cbn. eexists. split; [|reflexivity]. repeat split; cbn; congruence.
  - cbn [err_name fetch_error default]. unfold throw.
    destruct (String.eqb (err_name e) "AbortError");
      (eexists; split; [|reflexivity]; repeat split; cbn; congruence).
Qed.

(** Step 2 with a request that succeeds: the live result. *)
Lemma live_fetch_responded cb w rows :
  well_behaved cb -> network w = Responded rows ->
  exists result w',
    live_fetch summary_stats json_length cb w = (Normal result, w') /\
    planets result = Some (fst (validateAndClean (map mapNASARecord rows))) /\
    load_source result = "NASA Exoplanet Archive (live)" /\
    error result = None.
Proof.
  intros Hcb Hnet. unfold live_fetch, bind.
  destruct (fetchNASAData_spec cb w Hcb) as (w1 & _ & ->). rewrite Hnet.
  match goal with
  | |- context [notify cb ?ev w1] =>
      destruct (notify_well_behaved cb ev w1 Hcb) as (w2 & -> & _)
  end.
  match goal with
  | |- context [notify cb ?ev w2] =>
      destruct (notify_well_behaved cb ev w2 Hcb) as (w3 & -> & _)
  end.
  destruct (validateAndClean (map mapNASARecord rows)) as [cleaned_list rep].
  unfold now.
  match goal with
  | |- context [setCachedData json_length ?d ?m ?w0] =>
      destruct (setCachedData_spec d m w0) as (w4 & ->)
  end.
  match goal with
  | |- context [notify cb ?ev w4] =>
      destruct (notify_well_behaved cb ev w4 Hcb) as (w5 & -> & _)
  end.
  cbn. eauto 10.
Qed.

(** Step 2 with a request that fails: the error is thrown, nothing is
    stored, the clock has advanced. *)
Lemma live_fetch_failed cb w e :
  well_behaved cb -> fetch_error (network w) = Some e ->
  exists w',
    live_fetch summary_stats json_length cb w = (Throws e, w') /\
    same_env (after_fetch w) w'.
Proof.
  intros Hcb Herr. unfold live_fetch, bind.
  destruct (fetchNASAData_spec cb w Hcb) as (w1 & Henv & ->).
  destruct (network w); try discriminate; rewrite Herr; cbn; eauto.
Qed.

Lemma includes_stale age :
  includes ("cache (stale, " +:+ age +:+ " old)") "stale" = true.
Proof. reflexivity. Qed.

(** Steps 3 and 4: the stale cache when it is usable, the sentinel for the
    built-in catalog otherwise; the message of the error is carried in both
    cases. *)
Lemma fallback_spec cb err w :
  well_behaved cb ->
  exists result w',
    fallback cb err w = (Normal result, w') /\
    error result = Some (message err) /\
    if usable_cache w
    then planets result = cached_records w /\
         includes (load_source result) "stale" = true /\
         fromCache result = true
    else planets result = None /\
         load_source result = "built-in fallback" /\
         fromCache result = false.
Proof.
  intros Hcb. unfold fallback, bind.
  match goal with
  | |- context [console_warn ?l w] =>
      destruct (console_warn_spec l w) as (w1 & -> & Henv)
  end.
  rewrite isCacheUsable_spec.
  rewrite <- (usable_cache_same_env _ _ Henv).
  rewrite <- (cached_records_same_env _ _ Henv).
  unfold usable_cache.
  destruct (younger_than CACHE_STALE_AGE_MS w1) eqn:Husable; cbn [andb].
  - rewrite getCachedData_spec, getCacheMeta_spec. fold (cached_records w1).
    destruct (nonempty (cached_records w1)).
    + unfold younger_than in Husable.
      destruct (meta_entry (localStorage w1)) as [| |m]; try discriminate.
      cbn [the_meta]. unfold ret at 1.
      destruct cb as [f|].
      * unfold bind.
        destruct (formatAge_spec (fetchedAt m) w1) as (age1 & ->).
        match goal with
        | |- context [notify (Some f) ?ev w1] =>
            destruct (notify_well_behaved (Some f) ev w1 Hcb) as (w2 & -> & _)
        end.
        destruct (formatAge_spec (fetchedAt m) w2) as (age & ->).
        cbn. eexists _, _. split; [reflexivity|].
        split; [reflexivity|]. split; [reflexivity|].
        split; [apply includes_stale|reflexivity].
      * unfold bind, ret at 1.
        destruct (formatAge_spec (fetchedAt m) w1) as (age & ->).
        cbn. eexists _, _. split; [reflexivity|].
        split; [reflexivity|]. split; [reflexivity|].
        split; [apply includes_stale|reflexivity].
    + cbn [ret].
      match goal with
      | |- context [notify cb ?ev w1] =>
          destruct (notify_well_behaved cb ev w1 Hcb) as (w2 & -> & _)
      end.
      cbn. eexists _, _. repeat split; reflexivity.
  - cbn [ret].
    match goal with
    | |- context [notify cb ?ev w1] =>
        destruct (notify_well_behaved cb ev w1 Hcb) as (w2 & -> & _)
    end.
    cbn. eexists _, _. repeat split; reflexivity.
Qed.

(** C1, amended.  When the progress callback, if there is one, returns
    normally, [loadNASAPlanets] resolves to a tagged result and throws
    nothing.  With a fresh non-empty cache the result is the cached list
    tagged "cache (fresh)".  Otherwise the request is made: when it succeeds
    the result is the cleaned list tagged "NASA Exoplanet Archive (live)";
    when it fails the result carries the message of the error, and it is
    the cached list with a tag that contains "stale" if at that time the
    cache is usable (current version, less than 7 days old, not empty), and
    otherwise the [null] list tagged "built-in fallback". *)
Theorem loadNASAPlanets_resolves_with_fallback cb w :
  well_behaved cb ->
  exists result w',
    loadNASAPlanets summary_stats json_length cb w = (Normal result, w') /\
    (fresh_hit w = true ->
     planets result = cached_records w /\
     load_source result = "cache (fresh)" /\ error result = None) /\
    (fresh_hit w = false ->
     (forall rows, network w = Responded rows ->
        planets result = Some (fst (validateAndClean (map mapNASARecord rows))) /\
        load_source result = "NASA Exoplanet Archive (live)" /\
        error result = None) /\
     (forall e, fetch_error (network w) = Some e ->
        error result = Some (message e) /\
        if usable_cache (after_fetch w)
        then planets result = cached_records w /\
             includes (load_source result) "stale" = true /\
             fromCache result = true
        else planets result = None /\
             load_source result = "built-in fallback" /\
             fromCache result = false)).
Proof.
  intros Hcb. unfold loadNASAPlanets, bind.
  pose proof (fresh_cache_hit_spec cb w Hcb) as Hhit.
  destruct (fresh_hit w) eqn:Hfresh.
  - destruct Hhit as (result & w' & -> & Hp & Hs & He).
    exists result, w'. split; [reflexivity|].
    split; [intros _; repeat split; assumption|discriminate].
  - rewrite Hhit. unfold try_catch.
    destruct (fetch_error (network w)) as [e|] eqn:Herr.
    + destruct (live_fetch_failed cb w e Hcb Herr) as (w1 & -> & Henv).
      destruct (fallback_spec cb e w1 Hcb) as (result & w2 & -> & He & Hcase).
      rewrite (usable_cache_same_env _ _ Henv) in Hcase.
      rewrite (cached_records_same_env _ _ Henv) in Hcase.
      exists result, w2. split; [reflexivity|].
      split; [discriminate|]. intros _. split.
      * intros rows Hrows. rewrite Hrows in Herr. discriminate.
      * intros e' [= <-]. split; [exact He|exact Hcase].
    + destruct (network w) as [rows| | |] eqn:Hnet; try discriminate.
      destruct (live_fetch_responded cb w rows Hcb Hnet)
        as (result & w1 & -> & Hp & Hs & He).
      exists result, w1. split; [reflexivity|].
      split; [discriminate|]. intros _. split.
      * intros rows' [= <-]. repeat split; assumption.
      * intros e. discriminate.
Qed.

End PipelineFacts.

Lemma loadNASAPlanets_resolves_with_fallback_witness :
  exists result w',
    loadNASAPlanets no_stats no_size None (one_record_world 259200000)
    = (Normal result, w') /\
    planets result = Some [bare_planet "A b" None] /\
    includes (load_source result) "stale" = true /\
    error result = Some "Failed to fetch".
Proof.
  destruct (loadNASAPlanets_resolves_with_fallback no_stats no_size None
              (one_record_world 259200000) I)
    as (result & w' & Hrun & _ & Hfail).
  destruct (Hfail eq_refl) as (_ & Hfail').
  destruct (Hfail' _ eq_refl) as (He & Hp & Hs & _).
  exists result, w'. repeat split; assumption.
Defined.

(** The claim of C1 fails at two inputs.  A cache that is exactly 7 days old
    when the request fails (current version, one record) is not returned:
    the result is the built-in sentinel.  And with a progress callback that
    throws, the call throws (here: the request fails, the store is empty, and
    the exception of the callback leaves the [catch] block). *)
Lemma loadNASAPlanets_boundary_and_callback :
  meta_entry (localStorage (one_record_world 604799000))
  = Holds (sample_meta 0) /\
  version (sample_meta 0) = CACHE_VERSION /\
  nonempty (cached_records (one_record_world 604799000)) = true /\
  (Date_now (after_fetch (one_record_world 604799000))
   - fetchedAt (sample_meta 0) = 7 * 24 * 60 * 60 * 1000)%Z /\
  fst (loadNASAPlanets no_stats no_size None (one_record_world 604799000))
  = Normal (mkLoadResult None None "built-in fallback" None false
              (Some "Failed to fetch")) /\
  fst (loadNASAPlanets no_stats no_size (Some throwing_callback) empty_world)
  = Throws (mkError "Error" "callback failed").
Proof. repeat split; reflexivity. Qed.

(** ** More on the validator *)

Section ValidatorInvariants.

Implicit Types (p q : planet) (l : list planet) (st : CleanState).

(** The names kept by the loop: each once, in the order of the input, and
    exactly those of the input that are not in [seen]. *)
Lemma first_occurrences_names l : forall seen,
  NoDup (map name (first_occurrences seen l)) /\
  (forall n, n ∈ map name (first_occurrences seen l)
             <-> n ∈ map name l /\ n ∉ seen) /\
  map name (first_occurrences seen l) `sublist_of` map name l.
Proof.
  induction l as [|p l IH]; intros seen; cbn [first_occurrences map].
  - split; [constructor|]. split; [|constructor].
    intros n. split; [intros H; inversion H|intros [H _]; inversion H].
  - destruct (decide (name p ∈ seen)) as [Hin|Hnew].
    + destruct (IH seen) as (Hnd & Hiff & Hsub).
      split; [exact Hnd|]. split; [|apply sublist_cons; exact Hsub].
      intros n. rewrite Hiff, elem_of_cons. split; [tauto|].
      intros [[->|H] Hn]; [contradiction|tauto].
    + destruct (IH (seen ∪ {[name p]})) as (Hnd & Hiff & Hsub).
      cbn [map]. split; [|split; [|apply sublist_skip; exact Hsub]].
      * constructor; [|exact Hnd].
        rewrite Hiff. intros [_ Hn]. apply Hn, elem_of_union. right.
        apply elem_of_singleton. reflexivity.
      * intros n. rewrite !elem_of_cons, Hiff, elem_of_union, elem_of_singleton.
        split.
        -- intros [->|[Hn Hs]]; [split; [left; reflexivity|exact Hnew]|].
           split; [right; exact Hn|tauto].
        -- intros [[->|Hn] Hs]; [left; reflexivity|].
           destruct (decide (n = name p)) as [->|Hne]; [left; reflexivity|].
           right. tauto.
Qed.

Lemma map_name_fill_defaults l :
  map name (map fill_defaults l) = map name l.
Proof.
  rewrite map_map. apply map_ext. intros p. apply fill_defaults_name.
Qed.


(** The counters of the report that the loop advances for a record that it
    keeps. *)
Lemma clean_step_new_counters st p :
  name p ∉ cs_seen st ->
  let st' := clean_step st p in
  nullFields (cs_report st') = tally_nulls p (nullFields (cs_report st)) /\
  passed (cs_report st') = S (passed (cs_report st)) /\
  rep_controversial (cs_report st')
  = if controversial p then S (rep_controversial (cs_report st))
    else rep_controversial (cs_report st).
Proof.
  intros Hnew. unfold clean_step.
  destruct (decide (name p ∈ cs_seen st)) as [Hin|_]; [contradiction|].
  match goal with
  | |- context [range_checks p ?r] =>
      pose proof (range_checks_report p r) as Hr;
      destruct (range_checks p r) as [report bad]
  end.
  cbn in Hr. subst report.
  destruct (controversial p), bad; cbn; repeat split; reflexivity.
Qed.

Lemma clean_loop_counters l : forall st,
  let st' := fold_left clean_step l st in
  let kept := first_occurrences (cs_seen st) l in
  nullFields (cs_report st')
  = fold_left (fun nf p => tally_nulls p nf) kept (nullFields (cs_report st)) /\
  passed (cs_report st') = (passed (cs_report st) + length kept)%nat /\
  rep_controversial (cs_report st')
  = (rep_controversial (cs_report st)
     + length (List.filter controversial kept))%nat.
Proof.
  induction l as [|p l IH]; intros st.
  - cbn. repeat split; lia.
  - cbn [fold_left first_occurrences].
    destruct (decide (name p ∈ cs_seen st)) as [Hin|Hnew].
    + rewrite (clean_step_seen st p Hin).
      specialize (IH (mkCleanState (inc_cleaned (cs_report st)) (cs_cleaned st)
                        (cs_seen st))).
      cbn in IH. exact IH.
    + destruct (clean_step_new st p Hnew) as (_ & Hs1 & _).
      destruct (clean_step_new_counters st p Hnew) as (Hn1 & Hp1 & Hc1).
      specialize (IH (clean_step st p)). cbn zeta in IH.
      rewrite Hs1 in IH. destruct IH as (Hn & Hp & Hc).
      rewrite Hn, Hp, Hc, Hn1, Hp1, Hc1.
      cbn [fold_left List.filter length].
      destruct (controversial p); cbn [length]; repeat split; lia.
Qed.

Lemma validateAndClean_counters l :
  let kept := first_occurrences ∅ l in
  nullFields (snd (validateAndClean l))
  = fold_left (fun nf p => tally_nulls p nf) kept (mkNullFields 0 0 0 0 0 0) /\
  passed (snd (validateAndClean l)) = length kept /\
  rep_controversial (snd (validateAndClean l))
  = length (List.filter controversial kept).
Proof.
  unfold validateAndClean.
  match goal with
  | |- context [fold_left clean_step l ?st0] =>
      destruct (clean_loop_counters l st0) as (Hn & Hp & Hc)
  end.
  cbn in Hn, Hp, Hc. cbn. repeat split; assumption.
Qed.

Lemma fill_defaults_controversial p :
  controversial (fill_defaults p) = controversial p.
Proof.
  unfold fill_defaults.
  repeat match goal with |- context [if ?c then _ else _] => destruct c end;
    reflexivity.
Qed.

Lemma filter_controversial_fill_defaults l :
  length (List.filter controversial (map fill_defaults l))
  = length (List.filter controversial l).
Proof.
  induction l as [|p l IH]; [reflexivity|].
  cbn [map List.filter]. rewrite fill_defaults_controversial.
  destruct (controversial p); cbn [length]; rewrite IH; reflexivity.
Qed.

(** Each counter of missing fields grows by at most one per kept record. *)
Lemma tally_nulls_bound kept : forall nf k,
  (nf_distance nf <= k /\ nf_radius nf <= k /\ nf_mass nf <= k /\
   nf_eqTemp nf <= k /\ nf_period nf <= k /\ nf_semiMajorAxis nf <= k)%nat ->
  let nf' := fold_left (fun nf p => tally_nulls p nf) kept nf in
  (nf_distance nf' <= k + length kept /\ nf_radius nf' <= k + length kept /\
   nf_mass nf' <= k + length kept /\ nf_eqTemp nf' <= k + length kept /\
   nf_period nf' <= k + length kept /\
   nf_semiMajorAxis nf' <= k + length kept)%nat.
Proof.
  induction kept as [|p kept IH]; intros nf k H; cbn [fold_left length].
  - rewrite Nat.add_0_r. exact H.
  - specialize (IH (tally_nulls p nf) (S k)).
    replace (k + S (length kept))%nat with (S k + length kept)%nat by lia.
    apply IH. unfold tally_nulls, bump. cbn.
    destruct (is_null (distance p)), (is_null (radius p)), (is_null (mass p)),
      (is_null (eqTemp p)), (is_null (period p)), (is_null (semiMajorAxis p));
      lia.
Qed.

Lemma bad_entries_name p b : b ∈ bad_entries p -> bv_name b = name p.
Proof.
  unfold bad_entries, bad_entry.
  destruct (radius_out_of_range p), (mass_out_of_range p),
    (distance_out_of_range p), (eqTemp_out_of_range p); cbn;
    rewrite ?elem_of_cons, ?elem_of_nil; intuition (subst; reflexivity).
Qed.

(** X2.  The counters of the report: [passed] equals [totalOutput] (a record
    with a value out of range is counted as passed as well),
    [controversial] is the number of records of the output flagged
    controversial, no counter of missing fields exceeds [totalOutput], and
    every entry of [badValues] names a record of the output. *)
Theorem validator_report_counters l :
  let out := fst (validateAndClean l) in
  let report := snd (validateAndClean l) in
  passed report = totalOutput report /\
  rep_controversial report = length (List.filter controversial out) /\
  (nf_distance (nullFields report) <= totalOutput report /\
   nf_radius (nullFields report) <= totalOutput report /\
   nf_mass (nullFields report) <= totalOutput report /\
   nf_eqTemp (nullFields report) <= totalOutput report /\
   nf_period (nullFields report) <= totalOutput report /\
   nf_semiMajorAxis (nullFields report) <= totalOutput report)%nat /\
  Forall (fun b => bv_name b ∈ map name out) (badValues report).
Proof.
  intros out report. subst out report.
  destruct (validateAndClean_spec l) as (Hc & _ & Hto & _ & _ & Hb).
  destruct (validateAndClean_counters l) as (Hn & Hp & Hcv).
  rewrite Hc, Hto, Hp, Hcv, Hn, Hb, filter_controversial_fill_defaults,
    map_name_fill_defaults.
  split; [reflexivity|]. split; [reflexivity|]. split.
  - apply (tally_nulls_bound (first_occurrences ∅ l) (mkNullFields 0 0 0 0 0 0) 0).
    cbn. lia.
  - apply Forall_forall. intros b Hin.
    apply list_elem_of_In, in_flat_map in Hin. destruct Hin as (p & Hp' & Hbp).
    apply list_elem_of_In in Hbp. rewrite (bad_entries_name p b Hbp).
    apply list_elem_of_In, in_map. exact Hp'.
Qed.

(** *** A second pass *)

(** A record with the six display fields present is left as it is. *)
Lemma fill_defaults_complete p :
  is_null (distance p) = false -> is_null (radius p) = false ->
  is_null (mass p) = false -> is_null (eqTemp p) = false ->
  is_null (period p) = false -> is_null (semiMajorAxis p) = false ->
  fill_defaults p = p.
Proof.
  destruct p as [n s d r m pe a t ? ? ? ? ? ? ? ? ? ? ? ? ? ? ? ? ? ? ?].
  cbn [distance radius mass eqTemp period semiMajorAxis].
  intros Hd Hr Hm Ht Hpe Ha. unfold fill_defaults.
  cbn [distance radius mass eqTemp period semiMajorAxis].
  rewrite Hd. cbn [distance radius mass eqTemp period semiMajorAxis].
  rewrite Hr. cbn [distance radius mass eqTemp period semiMajorAxis].
  rewrite Hm. cbn [distance radius mass eqTemp period semiMajorAxis].
  rewrite Ht. cbn [distance radius mass eqTemp period semiMajorAxis].
  rewrite Hpe. cbn [distance radius mass eqTemp period semiMajorAxis].
  rewrite Ha. reflexivity.
Qed.

Lemma fill_defaults_nonnull p :
  let q := fill_defaults p in
  is_null (distance q) = false /\ is_null (radius q) = false /\
  is_null (mass q) = false /\ is_null (eqTemp q) = false /\
  is_null (period q) = false /\ is_null (semiMajorAxis q) = false.
Proof.
  destruct (fill_defaults_fields p) as (Hd & Hr & Hm & Ht & Hpe & Ha).
  cbv zeta. rewrite Hd, Hr, Hm, Ht, Hpe, Ha. repeat split; reflexivity.
Qed.

Lemma fill_defaults_idempotent p :
  fill_defaults (fill_defaults p) = fill_defaults p.
Proof.
  destruct (fill_defaults_nonnull p) as (Hd & Hr & Hm & Ht & Hpe & Ha).
  apply fill_defaults_complete; assumption.
Qed.

Lemma first_occurrences_distinct l : forall seen,
  NoDup (map name l) -> (forall p, p ∈ l -> name p ∉ seen) ->
  first_occurrences seen l = l.
Proof.
  induction l as [|p l IH]; intros seen Hnd Hseen; [reflexivity|].
  cbn [first_occurrences]. cbn [map] in Hnd. apply NoDup_cons in Hnd as [Hp Hnd].
  destruct (decide (name p ∈ seen)) as [Hin|_].
  - exfalso. apply (Hseen p); [left|exact Hin].
  - f_equal. apply IH; [exact Hnd|].
    intros q Hq. rewrite elem_of_union, elem_of_singleton.
    intros [Hs|Heq].
    + apply (Hseen q); [right; exact Hq|exact Hs].
    + apply Hp. rewrite <- Heq. apply list_elem_of_In, in_map, list_elem_of_In.
      exact Hq.
Qed.

Lemma occurrences_distinct l n :
  NoDup (map name l) -> (occurrences n l <= 1)%nat.
Proof.
  induction l as [|p l IH]; intros Hnd; [cbn; lia|].
  cbn [map] in Hnd. apply NoDup_cons in Hnd as [Hp Hnd].
  rewrite occurrences_cons. destruct (decide (name p = n)) as [<-|_].
  - assert (occurrences (name p) l = 0%nat); [|lia].
    unfold occurrences.
    destruct (filter (fun q => name q = name p) l) as [|q r] eqn:E;
      [reflexivity|].
    exfalso. apply Hp.
    assert (Hq : q ∈ filter (fun q => name q = name p) l)
      by (rewrite E; left).
    apply list_elem_of_filter in Hq as [Heq Hq]. rewrite <- Heq.
    apply list_elem_of_In, in_map, list_elem_of_In. exact Hq.
  - apply IH, Hnd.
Qed.

Lemma filter_none {A} (P : A -> Prop) `{forall x, Decision (P x)}
    (xs : list A) :
  Forall (fun x => ~ P x) xs -> filter P xs = [].
Proof.
  induction 1 as [|x xs Hx Hxs IH]; [reflexivity|].
  rewrite filter_cons_False by exact Hx. exact IH.
Qed.

Lemma find_duplicates_distinct l :
  NoDup (map name l) -> find_duplicates (count_names l) = [].
Proof.
  intros Hnd. unfold find_duplicates.
  rewrite filter_none; [reflexivity|].
  apply Forall_forall. intros [n c] Hin Hc.
  change ((1 <? c)%nat = true) in Hc.
  apply elem_of_map_to_list in Hin.
  unfold count_names in Hin. rewrite count_names_lookup, lookup_empty in Hin.
  pose proof (occurrences_distinct l n Hnd).
  apply Nat.ltb_lt in Hc.
  destruct (decide (occurrences n l = 0%nat)); [discriminate|].
  cbn in Hin. injection Hin as <-. lia.
Qed.

Lemma tally_nulls_complete kept : forall nf,
  Forall (fun p => fill_defaults p = p) kept ->
  fold_left (fun nf p => tally_nulls p nf) kept nf = nf.
Proof.
  induction kept as [|p kept IH]; intros nf H; [reflexivity|].
  apply Forall_cons in H as [Hp Hk]. cbn [fold_left].
  rewrite IH by exact Hk.
  destruct (fill_defaults_nonnull p) as (Hd & Hr & Hm & Ht & Hpe & Ha).
  rewrite Hp in Hd, Hr, Hm, Ht, Hpe, Ha.
  unfold tally_nulls, bump. rewrite Hd, Hr, Hm, Ht, Hpe, Ha.
  destruct nf; reflexivity.
Qed.

(** The cleaned list: distinct names, and records that the defaults leave
    as they are. *)
Lemma cleaned_list_shape l :
  let out := fst (validateAndClean l) in
  NoDup (map name out) /\ Forall (fun p => fill_defaults p = p) out.
Proof.
  cbv zeta. destruct (validateAndClean_spec l) as (-> & _).
  rewrite map_name_fill_defaults. split.
  - apply (first_occurrences_names l ∅).
  - apply Forall_forall. intros q Hq.
    apply list_elem_of_In, in_map_iff in Hq. destruct Hq as (p & <- & _).
    apply fill_defaults_idempotent.
Qed.

(** X3.  Cleaning is idempotent: a second pass over the cleaned list returns
    the same list, drops nothing, finds no duplicate and counts no missing
    field. *)
Theorem validateAndClean_idempotent l :
  let out := fst (validateAndClean l) in
  let again := validateAndClean out in
  fst again = out /\
  cleaned (snd again) = 0%nat /\
  duplicates (snd again) = [] /\
  nullFields (snd again) = mkNullFields 0 0 0 0 0 0 /\
  totalOutput (snd again) = totalInput (snd again).
Proof.
  intros out again. subst again.
  destruct (cleaned_list_shape l) as (Hnd & Hfix).
  fold out in Hnd, Hfix.
  destruct (validateAndClean_spec out) as (Hc & Hti & Hto & Hn & Hd & _).
  destruct (validateAndClean_counters out) as (Hnf & _ & _).
  assert (Hfo : first_occurrences ∅ out = out).
  { apply first_occurrences_distinct; [exact Hnd|].
    intros p _. apply not_elem_of_empty. }
  rewrite Hfo in Hc, Hto, Hn, Hnf.
  assert (Hmap : map fill_defaults out = out).
  { clear -Hfix. induction Hfix as [|p r Hp Hr IH]; [reflexivity|].
    cbn [map]. rewrite Hp, IH. reflexivity. }
  rewrite Hmap in Hc.
  repeat split.
  - exact Hc.
  - lia.
  - rewrite Hd. apply find_duplicates_distinct, Hnd.
  - rewrite Hnf. apply tally_nulls_complete, Hfix.
  - rewrite Hto, Hti. reflexivity.
Qed.

End ValidatorInvariants.

(** ** Field mapping *)

Section MappingFacts.

Local Open Scope R_scope.



End MappingFacts.

(** ** Writing and reading the cache *)

Section CacheWriteFacts.

Context {Stats : Type}.
Variable summary_stats : list planet -> Stats.
Variable json_length : list planet -> Z.

Implicit Types (w : @World Stats) (cb : option Callback)
  (meta : @CacheMeta Stats).

(** With a store that takes both writes, [setCachedData] leaves the part of
    the list that fits and the metadata with [truncated] and [cachedCount]
    filled in. *)
Lemma setCachedData_writable data meta w :
  cache_writable w = true -> meta_writable w = true ->
  setCachedData json_length data meta w
  = (Normal tt,
     with_storage
       (mkStorage (Holds (stored_part json_length data))
          (Holds (set_truncation (CACHE_SIZE_LIMIT <? json_length data)%Z
                    (length (stored_part json_length data)) meta)))
       w).
Proof.
  intros Hc Hm.
  unfold setCachedData, stored_part, try_catch, bind, setItem_cache,
    setCacheMeta, setItem_meta, try_catch.
  destruct (CACHE_SIZE_LIMIT <? json_length data)%Z; rewrite Hc; cbn;
    rewrite Hm; reflexivity.
Qed.

(** X5.  Round trip through the store.  When both writes succeed,
    [setCachedData] returns normally and logs nothing; afterwards
    [getCachedData] gives the list that was written, or its first
    [floor (0.8 * length)] records when the text of the list is longer than
    4.5 * 1024 * 1024 characters, and [getCacheMeta] gives the metadata with
    the same version, time and record count, with [truncated] telling which
    of the two happened and [cachedCount] the number of records stored.
    (The records are taken to have finite numbers only, which is what a
    store of JSON text gives back unchanged.) *)
Theorem cache_write_read_round_trip data meta w :
  cache_writable w = true -> meta_writable w = true ->
  forallb json_exact data = true ->
  exists w',
    setCachedData json_length data meta w = (Normal tt, w') /\
    console w' = console w /\
    getCachedData w' = (Normal (Some (stored_part json_length data)), w') /\
    (stored_part json_length data
     = if (CACHE_SIZE_LIMIT <? json_length data)%Z
       then take (length data * 4 / 5) data else data) /\
    exists m,
      getCacheMeta w' = (Normal (Some m), w') /\
      version m = version meta /\ fetchedAt m = fetchedAt meta /\
      recordCount m = recordCount meta /\
      truncated m = (CACHE_SIZE_LIMIT <? json_length data)%Z /\
      cachedCount m = length (stored_part json_length data).
Proof.
  intros Hc Hm _.
  eexists. split; [apply setCachedData_writable; assumption|].
  split; [reflexivity|]. split; [reflexivity|]. split; [reflexivity|].
  eexists. split; [reflexivity|]. repeat split.
Qed.

(** X6.  [setCachedData] never throws.  When the write of the list fails,
    the store is left as it was (the metadata is not written either) and one
    warning is logged; when the list is written and the write of the
    metadata fails, the store holds the new list with the old metadata, and
    one warning is logged. *)
Theorem cache_write_failures data meta w :
  exists w',
    setCachedData json_length data meta w = (Normal tt, w') /\
    (cache_writable w = false ->
     localStorage w' = localStorage w /\
     exists line,
       console w' = console w ++ [line] /\
       startsWith line "[NASA-Data] Could not write cache: " = true) /\
    (cache_writable w = true -> meta_writable w = false ->
     cache_entry (localStorage w') = Holds (stored_part json_length data) /\
     meta_entry (localStorage w') = meta_entry (localStorage w) /\
     exists line,
       console w' = console w ++ [line] /\
       startsWith line "[NASA-Data] Could not write cache meta: " = true).
Proof.
  unfold setCachedData, stored_part, try_catch, bind, setItem_cache,
    setCacheMeta, setItem_meta, try_catch.
  destruct (CACHE_SIZE_LIMIT <? json_length data)%Z;
    destruct (cache_writable w) eqn:Hc; cbn;
    try destruct (meta_writable w) eqn:Hm; cbn;
    (eexists; split; [reflexivity|]; split; intros; try discriminate;
     repeat split; eexists; split; reflexivity).
Qed.

End CacheWriteFacts.

Lemma cache_write_read_round_trip_witness :
  exists w',
    setCachedData no_size [bare_planet "A b" None] (sample_meta 5) empty_world
    = (Normal tt, w') /\
    getCachedData w' = (Normal (Some [bare_planet "A b" None]), w').
Proof.
  destruct (cache_write_read_round_trip no_size [bare_planet "A b" None]
              (sample_meta 5) empty_world eq_refl eq_refl eq_refl)
    as (w' & Hset & _ & Hget & _).
  exists w'. split; [exact Hset|exact Hget].
Defined.

(** ** Background refresh and cache utilities *)

Section RefreshFacts.

Context {Stats : Type}.
Variable summary_stats : list planet -> Stats.
Variable json_length : list planet -> Z.

Implicit Types (w : @World Stats) (cb : option Callback).

(** Without a progress callback [fetchNASAData] only lets the time of the
    request pass. *)
Lemma fetchNASAData_None w :
  fetchNASAData None w
  = (match network w with
     | Responded rows => Normal rows
     | net => Throws (default (mkError "" "") (fetch_error net))
     end, after_fetch w).
Proof.
  unfold fetchNASAData, bind, try_catch, notify, ret, await_response,
    after_fetch.
  destruct (network w) as [rows|status statusText| |e]; try reflexivity.
  cbn [err_name fetch_error default]. unfold throw.
  destruct (String.eqb (err_name e) "AbortError"); reflexivity.
Qed.

(** [setCachedData] touches the store and the console only. *)
Lemma setCachedData_frame data (meta : @CacheMeta Stats) w :
  exists w',
    setCachedData json_length data meta w = (Normal tt, w') /\
    cache_writable w' = cache_writable w /\
    meta_writable w' = meta_writable w /\
    Date_now w' = Date_now w /\ network w' = network w /\
    fetch_ms w' = fetch_ms w /\ progress w' = progress w.
Proof.
  unfold setCachedData, try_catch, bind, setItem_cache, setCacheMeta,
    setItem_meta, try_catch.
  destruct (CACHE_SIZE_LIMIT <? json_length data)%Z;
    destruct (cache_writable w) eqn:Hc; cbn;
    try destruct (meta_writable w) eqn:Hm; cbn;
    (eexists; split; [reflexivity|]; cbn; repeat split; congruence).
Qed.

(** The [try] block of [loadNASAPlanets] when the request succeeds: the
    result, the clock, and the store when it takes both writes. *)
Lemma live_fetch_result cb w rows :
  well_behaved cb -> network w = Responded rows ->
  let cleaned_list := fst (validateAndClean (map mapNASARecord rows)) in
  let rep := snd (validateAndClean (map mapNASARecord rows)) in
  let t := (Date_now w + fetch_ms w)%Z in
  let full := computeValidationReport summary_stats cleaned_list rep in
  exists w',
    live_fetch summary_stats json_length cb w
    = (Normal (mkLoadResult (Some cleaned_list) (Some full)
                 "NASA Exoplanet Archive (live)" (Some t) false None), w') /\
    Date_now w' = t /\
    (cache_writable w = true -> meta_writable w = true ->
     localStorage w'
     = mkStorage (Holds (stored_part json_length cleaned_list))
         (Holds (mkCacheMeta CACHE_VERSION t (length cleaned_list) (Some full)
                   (CACHE_SIZE_LIMIT <? json_length cleaned_list)%Z
                   (length (stored_part json_length cleaned_list))))).
Proof.
  intros Hcb Hnet. cbv zeta. unfold live_fetch, bind.
  destruct (fetchNASAData_spec cb w Hcb)
    as (w1 & (A1 & A2 & A3 & A4 & A5 & A6) & ->).
  rewrite Hnet.
  match goal with
  | |- context [notify cb ?ev w1] =>
      destruct (notify_well_behaved cb ev w1 Hcb)
        as (w2 & -> & (B1 & B2 & B3 & B4 & B5 & B6))
  end.
  match goal with
  | |- context [notify cb ?ev w2] =>
      destruct (notify_well_behaved cb ev w2 Hcb)
        as (w3 & -> & (C1 & C2 & C3 & C4 & C5 & C6))
  end.
  destruct (validateAndClean (map mapNASARecord rows)) as [cleaned_list rep].
  cbn [fst snd]. unfold now.
  assert (Ht : Date_now w3 = (Date_now w + fetch_ms w)%Z)
    by (rewrite C4, B4, A4; reflexivity).
  rewrite Ht.
  set (meta := mkCacheMeta CACHE_VERSION (Date_now w + fetch_ms w)
                 (length cleaned_list)
                 (Some (computeValidationReport summary_stats cleaned_list rep))
                 false 0).
  destruct (setCachedData_frame cleaned_list meta w3)
    as (w4 & Hset & D1 & D2 & D3 & D4 & D5 & D6).
  assert (Hstore : cache_writable w = true -> meta_writable w = true ->
            localStorage w4
            = mkStorage (Holds (stored_part json_length cleaned_list))
                (Holds (set_truncation
                          (CACHE_SIZE_LIMIT <? json_length cleaned_list)%Z
                          (length (stored_part json_length cleaned_list))
                          meta))).
  { intros Hc Hm.
    rewrite (setCachedData_writable json_length cleaned_list meta w3) in Hset.
    - injection Hset as <-. reflexivity.
    - rewrite C2, B2, A2. exact Hc.
    - rewrite C3, B3, A3. exact Hm. }
  rewrite Hset.
  match goal with
  | |- context [notify cb ?ev w4] =>
      destruct (notify_well_behaved cb ev w4 Hcb)
        as (w5 & -> & (E1 & E2 & E3 & E4 & E5 & E6))
  end.
  exists w5. split; [reflexivity|]. split.
  - rewrite E4, D3. exact Ht.
  - intros Hc Hm. rewrite E1. apply Hstore; assumption.
Qed.

(** [loadNASAPlanets] on a cache that is fresh and not empty. *)
Lemma loadNASAPlanets_fresh cb w l (m : @CacheMeta Stats) :
  well_behaved cb ->
  cache_entry (localStorage w) = Holds l ->
  meta_entry (localStorage w) = Holds m ->
  l <> [] -> version m = CACHE_VERSION ->
  (Date_now w - fetchedAt m < CACHE_MAX_AGE_MS)%Z ->
  exists w',
    loadNASAPlanets summary_stats json_length cb w
    = (Normal (mkLoadResult (Some l) (meta_report m) "cache (fresh)"
                 (Some (fetchedAt m)) true None), w').
Proof.
  intros Hcb Hl Hm Hne Hv Hage.
  unfold loadNASAPlanets, fresh_cache_hit, bind.
  rewrite isCacheFresh_spec. unfold younger_than. rewrite Hm, Hv.
  rewrite Z.eqb_refl. cbn [andb].
  rewrite (proj2 (Z.ltb_lt _ _) Hage).
  rewrite getCachedData_spec, getCacheMeta_spec, Hl, Hm.
  destruct l as [|p l]; [contradiction|]. cbn [nonempty length Nat.ltb Nat.leb].
  match goal with
  | |- context [notify cb ?ev w] =>
      destruct (notify_well_behaved cb ev w Hcb) as (w' & -> & _)
  end.
  cbn. eauto.
Qed.


(** X8.  A refresh that succeeds feeds the next load.  When the cache is not
    fresh, the request answers, the store takes both writes and the
    completion callback (if any) leaves the store and the clock alone, then
    after [backgroundRefresh] a call of [loadNASAPlanets] answers from the
    cache: it returns the records that the refresh stored (the cleaned list,
    or its first four fifths when it was too long), tagged "cache (fresh)",
    with the time of the refresh.  (Records with finite numbers only, and at
    least one record stored.) *)
Theorem backgroundRefresh_then_cache_hit
    (onComplete : option (@RefreshResult Stats -> @M Stats unit)) w rows cb :
  younger_than CACHE_MAX_AGE_MS w = false ->
  network w = Responded rows ->
  cache_writable w = true -> meta_writable w = true ->
  match onComplete with Some f => quiet f | None => True end ->
  well_behaved cb ->
  let cleaned_list := fst (validateAndClean (map mapNASARecord rows)) in
  forallb json_exact cleaned_list = true ->
  stored_part json_length cleaned_list <> [] ->
  exists w1 result w2,
    backgroundRefresh summary_stats json_length onComplete w = (Normal tt, w1) /\
    loadNASAPlanets summary_stats json_length cb w1 = (Normal result, w2) /\
    planets result = Some (stored_part json_length cleaned_list) /\
    load_source result = "cache (fresh)" /\
    load_fetchedAt result = Some (Date_now w + fetch_ms w)%Z /\
    fromCache result = true /\ error result = None.
Proof.
  intros Hfresh Hnet Hc Hm Hquiet Hcb cleaned_list _ Hne.
  subst cleaned_list.
  unfold backgroundRefresh, bind. rewrite isCacheFresh_spec, Hfresh.
  unfold try_catch at 1. rewrite fetchNASAData_None, Hnet.
  destruct (validateAndClean (map mapNASARecord rows)) as [cleaned_list rep].
  cbn [fst] in *. unfold now.
  rewrite setCachedData_writable by assumption.
  set (w4 := with_storage _ (after_fetch w)).
  assert (Hfin : forall w1, same_env w4 w1 ->
            exists result w2,
              loadNASAPlanets summary_stats json_length cb w1
              = (Normal result, w2) /\
              planets result = Some (stored_part json_length cleaned_list) /\
              load_source result = "cache (fresh)" /\
              load_fetchedAt result = Some (Date_now w + fetch_ms w)%Z /\
              fromCache result = true /\ error result = None).
  { intros w1 (E1 & E2 & E3 & E4 & E5 & E6). subst w4. cbn in E1, E4.
    edestruct (loadNASAPlanets_fresh cb w1) as (w2 & Hload).
    - exact Hcb.
    - rewrite E1. reflexivity.
    - rewrite E1. reflexivity.
    - exact Hne.
    - reflexivity.
    - rewrite E4. cbn. unfold CACHE_MAX_AGE_MS. lia.
    - eexists _, w2. split; [exact Hload|]. repeat split. }
  destruct onComplete as [f|].
  - match goal with
    | |- context [f ?r w4] => destruct (Hquiet r w4) as (w1 & -> & Henv)
    end.
    destruct (Hfin w1 Henv) as (result & w2 & H).
    exists w1, result, w2. split; [reflexivity|exact H].
  - destruct (Hfin w4 (same_env_refl w4)) as (result & w2 & H).
    exists w4, result, w2. split; [reflexivity|exact H].
Qed.

(** [clearCache] empties both keys. *)
Lemma clearCache_spec w :
  clearCache w = (Normal tt, with_storage (mkStorage Missing Missing) w).
Proof. reflexivity. Qed.

(** X9.  After [clearCache] nothing is read from the cache: the freshness
    tests answer [false], [getCachedData] and [getCacheMeta] give [null],
    and a call of [loadNASAPlanets] (with a callback that returns) gives a
    result with [fromCache] false: the cleaned answer of the archive when
    the request succeeds, the sentinel for the built-in catalog with the
    message of the error when it fails. *)
Theorem clearCache_forces_reload cb w :
  well_behaved cb ->
  exists w0,
    clearCache w = (Normal tt, w0) /\
    isCacheFresh w0 = (Normal false, w0) /\
    isCacheUsable w0 = (Normal false, w0) /\
    getCachedData w0 = (Normal None, w0) /\
    getCacheMeta w0 = (Normal None, w0) /\
    exists result w',
      loadNASAPlanets summary_stats json_length cb w0 = (Normal result, w') /\
      fromCache result = false /\
      (forall rows, network w = Responded rows ->
         planets result = Some (fst (validateAndClean (map mapNASARecord rows))) /\
         load_source result = "NASA Exoplanet Archive (live)" /\
         error result = None) /\
      (forall e, fetch_error (network w) = Some e ->
         planets result = None /\
         load_source result = "built-in fallback" /\
         error result = Some (message e)).
Proof.
  intros Hcb. exists (with_storage (mkStorage Missing Missing) w).
  set (w0 := with_storage (mkStorage Missing Missing) w).
  split; [apply clearCache_spec|].
  split; [rewrite isCacheFresh_spec; reflexivity|].
  split; [rewrite isCacheUsable_spec; reflexivity|].
  split; [rewrite getCachedData_spec; reflexivity|].
  split; [rewrite getCacheMeta_spec; reflexivity|].
  unfold loadNASAPlanets, bind.
  pose proof (fresh_cache_hit_spec cb w0 Hcb) as Hhit.
  change (fresh_hit w0) with false in Hhit. rewrite Hhit.
  unfold try_catch.
  destruct (fetch_error (network w0)) as [e|] eqn:Herr.
  - destruct (live_fetch_failed summary_stats json_length cb w0 e Hcb Herr)
      as (w1 & -> & Henv).
    destruct (fallback_spec cb e w1 Hcb) as (result & w2 & -> & He & Hcase).
    rewrite (usable_cache_same_env _ _ Henv) in Hcase.
    change (usable_cache (after_fetch w0)) with false in Hcase.
    destruct Hcase as (Hp & Hs & Hf).
    exists result, w2. split; [reflexivity|]. split; [exact Hf|]. split.
    + intros rows Hrows. change (network w0) with (network w) in Herr.
      rewrite Hrows in Herr. discriminate.
    + intros e' He'. change (network w0) with (network w) in Herr.
      rewrite He' in Herr. injection Herr as ->. repeat split; assumption.
  - destruct (network w0) as [rows| | |] eqn:Hnet; try discriminate.
    destruct (live_fetch_result cb w0 rows Hcb Hnet) as (w1 & -> & _).
    eexists _, w1. split; [reflexivity|]. split; [reflexivity|]. split.
    + intros rows' Hrows. change (network w0) with (network w) in Hnet.
      rewrite Hrows in Hnet. injection Hnet as ->. repeat split.
    + intros e He. change (network w0) with (network w) in Hnet.
      rewrite Hnet in He. discriminate.
Qed.

(** X10.  After a live load that could write the store, [getLastUpdated]
    reports that load: its [timestamp] is the [fetchedAt] of the result, its
    age reads "less than 1 hour" and its record count is the number of
    records of the result.  (The time of the load must be one that a [Date]
    can hold; outside that range [toISOString] throws.) *)
Theorem getLastUpdated_after_live_load
    (Date_toISOString : Z -> string) cb w rows :
  well_behaved cb ->
  fresh_hit w = false -> network w = Responded rows ->
  cache_writable w = true -> meta_writable w = true ->
  (Z.abs (Date_now w + fetch_ms w) <= MAX_TIME_VALUE)%Z ->
  exists result w1 lu,
    loadNASAPlanets summary_stats json_length cb w = (Normal result, w1) /\
    getLastUpdated Date_toISOString w1 = (Normal (Some lu), w1) /\
    Some (lu_timestamp lu) = load_fetchedAt result /\
    lu_age lu = "less than 1 hour" /\
    Some (lu_recordCount lu) = option_map (@length planet) (planets result) /\
    formatted lu
    = substring 0 19
        (replace_first "T" " " (Date_toISOString (Date_now w + fetch_ms w)%Z))
      +:+ " UTC".
Proof.
  intros Hcb Hfresh Hnet Hc Hm Hrange.
  unfold loadNASAPlanets, bind.
  pose proof (fresh_cache_hit_spec cb w Hcb) as Hhit.
  rewrite Hfresh in Hhit. rewrite Hhit. unfold try_catch.
  destruct (live_fetch_result cb w rows Hcb Hnet) as (w1 & -> & Ht & Hstore).
  specialize (Hstore Hc Hm).
  set (cleaned_list := fst (validateAndClean (map mapNASARecord rows))) in *.
  assert (Hlu : exists lu,
            getLastUpdated Date_toISOString w1 = (Normal (Some lu), w1) /\
            lu_timestamp lu = (Date_now w + fetch_ms w)%Z /\
            lu_age lu = "less than 1 hour" /\
            lu_recordCount lu = length cleaned_list /\
            formatted lu
            = substring 0 19
                (replace_first "T" " "
                   (Date_toISOString (Date_now w + fetch_ms w)%Z))
              +:+ " UTC").
  { unfold getLastUpdated, bind. rewrite getCacheMeta_spec, Hstore.
    cbn [meta_entry fetchedAt recordCount cachedCount].
    unfold toISOString. rewrite (proj2 (Z.leb_le _ _) Hrange).
    unfold ret at 1. unfold formatAge, bind, now. rewrite Ht, Z.sub_diag.
    cbn [Z.div Z.ltb Z.compare].
    eexists. split; [reflexivity|].
    cbn [lu_timestamp lu_age lu_recordCount formatted].
    repeat split.
    unfold stored_part. destruct cleaned_list as [|p l]; [|reflexivity].
    destruct (CACHE_SIZE_LIMIT <? json_length [])%Z; reflexivity. }
  destruct Hlu as (lu & Hg & H1 & H2 & H3 & H4).
  eexists _, w1, lu. split; [reflexivity|]. split; [exact Hg|].
  cbn [load_fetchedAt planets option_map].
  rewrite H1, H3. repeat split; assumption.
Qed.

End RefreshFacts.

Lemma validateAndClean_single (p : planet) :
  fst (validateAndClean [p]) = [fill_defaults p].
Proof.
  destruct (validateAndClean_spec [p]) as (-> & _). cbn [first_occurrences].
  destruct (decide (name p ∈ (∅ : gset string))) as [H|_]; [|reflexivity].
  exfalso. exact (not_elem_of_empty (C:=gset string) _ H).
Qed.

Lemma backgroundRefresh_then_cache_hit_witness :
  exists w1 result w2,
    backgroundRefresh no_stats no_size None
      (answering_world [sized_row "A b" 1 1] 5000) = (Normal tt, w1) /\
    loadNASAPlanets no_stats no_size None w1 = (Normal result, w2) /\
    option_map (map name) (planets result) = Some ["A b"] /\
    load_fetchedAt result = Some 6000%Z.
Proof.
  destruct (backgroundRefresh_then_cache_hit no_stats no_size None
              (answering_world [sized_row "A b" 1 1] 5000)
              [sized_row "A b" 1 1] None
              eq_refl eq_refl eq_refl eq_refl I I)
    as (w1 & result & w2 & Hr & Hl & Hp & _ & Ht & _).
  - cbn [map]. rewrite validateAndClean_single. reflexivity.
  - cbn [map]. rewrite validateAndClean_single. discriminate.
  - exists w1, result, w2. split; [exact Hr|]. split; [exact Hl|].
    split; [|exact Ht]. rewrite Hp.
    cbn [map]. rewrite validateAndClean_single. reflexivity.
Defined.

Lemma clearCache_forces_reload_witness :
  exists w0 result w',
    clearCache (one_record_world 1000) = (Normal tt, w0) /\
    loadNASAPlanets no_stats no_size None w0 = (Normal result, w') /\
    planets result = None /\ load_source result = "built-in fallback".
Proof.
  destruct (clearCache_forces_reload no_stats no_size None
              (one_record_world 1000) I)
    as (w0 & Hc & _ & _ & _ & _ & result & w' & Hl & _ & _ & Hfail).
  destruct (Hfail _ eq_refl) as (Hp & Hs & _).
  exists w0, result, w'. repeat split; assumption.
Defined.

Lemma getLastUpdated_after_live_load_witness :
  exists result w1 lu,
    loadNASAPlanets no_stats no_size None
      (answering_world [sized_row "A b" 1 1] 5000) = (Normal result, w1) /\
    getLastUpdated (fun _ => "1970-01-01T00:00:06.000Z") w1
    = (Normal (Some lu), w1) /\
    lu_age lu = "less than 1 hour" /\
    formatted lu = "1970-01-01 00:00:06 UTC".
Proof.
  destruct (getLastUpdated_after_live_load no_stats no_size
              (fun _ => "1970-01-01T00:00:06.000Z") None
              (answering_world [sized_row "A b" 1 1] 5000) [sized_row "A b" 1 1]
              I eq_refl eq_refl eq_refl eq_refl)
    as (result & w1 & lu & Hl & Hg & _ & Ha & _ & Hf).
  - cbn. unfold MAX_TIME_VALUE. lia.
  - exists result, w1, lu. repeat split; assumption.
Defined.

(** ** Summary statistics *)

Section MedianFacts.

Local Open Scope R_scope.

(** The comparator of [median] on finite numbers is the order of the
    reals. *)
Lemma numeric_order_Fin x y :
  cmp_le numeric_order (Fin x) (Fin y) <-> x <= y.
Proof.
  unfold cmp_le, numeric_order. cbn [num_sub num_neg num_add]. unfold Rltb.
  destruct (Rlt_dec (x + - y) 0); [split; [lra|lia]|].
  destruct (Rlt_dec 0 (x + - y)); split; intros; try lia; lra.
Qed.

Lemma sort_insert_map {A B} (f : A -> B) (cmp : B -> B -> Z) x (l : list A) :
  sort_insert cmp (f x) (map f l)
  = map f (sort_insert (fun a b => cmp (f a) (f b)) x l).
Proof.
  induction l as [|y l IH]; [reflexivity|].
  cbn [map sort_insert]. destruct (cmp (f x) (f y) <=? 0)%Z; [reflexivity|].
  cbn [map]. rewrite IH. reflexivity.
Qed.

Lemma Array_sort_map {A B} (f : A -> B) (cmp : B -> B -> Z) (l : list A) :
  Array_sort cmp (map f l) = map f (Array_sort (fun a b => cmp (f a) (f b)) l).
Proof.
  induction l as [|x l IH]; [reflexivity|].
  cbn [map]. rewrite !Array_sort_cons, IH. apply sort_insert_map.
Qed.

Lemma sorted_reals_sorted (xs : list R) : StronglySorted Rle (sorted_reals xs).
Proof.
  assert (H : StronglySorted
                (cmp_le (fun a b => numeric_order (Fin a) (Fin b)))
                (sorted_reals xs)).
  { unfold sorted_reals. apply (Array_sort_sorted _ (fun _ => True)).
    - intros a b _ _. unfold cmp_le.
      change (cmp_le numeric_order (Fin a) (Fin b)
              \/ cmp_le numeric_order (Fin b) (Fin a)).
      rewrite !numeric_order_Fin. lra.
    - intros a b c _ _ _. unfold cmp_le.
      change (cmp_le numeric_order (Fin a) (Fin b) ->
              cmp_le numeric_order (Fin b) (Fin c) ->
              cmp_le numeric_order (Fin a) (Fin c)).
      rewrite !numeric_order_Fin. lra.
    - apply Forall_forall. intros; exact I. }
  induction H as [|y l Hs IH Hy]; constructor; [exact IH|].
  apply Forall_forall. intros z Hz. rewrite Forall_forall in Hy.
  apply numeric_order_Fin. exact (Hy z Hz).
Qed.

Lemma sorted_reals_perm (xs : list R) : sorted_reals xs ≡ₚ xs.
Proof. apply Array_sort_perm. Qed.

(** The median of finite values, read off the sorted list. *)
Lemma median_Fin (xs : list R) :
  median (map Fin xs)
  = let s := sorted_reals xs in
    let mid := (length xs / 2)%nat in
    if (length xs mod 2 =? 1)%nat
    then Fin (nth mid s 0)
    else if (length xs =? 0)%nat then NaN
    else Fin ((nth (mid - 1) s 0 + nth mid s 0) / 2).
Proof.
  unfold median. rewrite Array_sort_map. fold (sorted_reals xs). cbv zeta.
  rewrite length_map.
  assert (Hlen : length (sorted_reals xs) = length xs)
    by (rewrite sorted_reals_perm; reflexivity).
  rewrite Hlen.
  assert (Hnth : forall i, (i < length xs)%nat ->
            nth i (map Fin (sorted_reals xs)) NaN
            = Fin (nth i (sorted_reals xs) 0)).
  { intros i Hi. rewrite !nth_lookup, list_lookup_fmap.
    destruct (lookup_lt_is_Some_2 (sorted_reals xs) i) as (v & ->);
      [lia|reflexivity]. }
  destruct (length xs) as [|n] eqn:Hn.
  - cbn. destruct xs; [reflexivity|discriminate].
  - assert (Hmid : (S n / 2 < S n)%nat) by (apply Nat.div_lt; lia).
    destruct (S n mod 2 =? 1)%nat eqn:Hodd.
    + apply Hnth. exact Hmid.
    + cbn [Nat.eqb]. rewrite !Hnth by lia.
      cbn [num_add]. apply num_div_Fin. lra.
Qed.


#[local] Instance Rle_antisym : AntiSymm eq Rle.
Proof. intros x y H1 H2. lra. Qed.

(** X11.  The median of finite values does not depend on the order of the
    values. *)
Theorem median_order_independent (xs ys : list R) :
  xs ≡ₚ ys -> median (map Fin xs) = median (map Fin ys).
Proof.
  intros Hperm. rewrite !median_Fin. cbv zeta.
  assert (Hs : sorted_reals xs = sorted_reals ys).
  { apply (StronglySorted_unique Rle); try apply sorted_reals_sorted.
    rewrite !sorted_reals_perm. exact Hperm. }
  rewrite Hs, (Permutation_length Hperm). reflexivity.
Qed.






End MedianFacts.

Lemma median_order_independent_witness :
  median (map Fin [3; 1; 2]%R) = median (map Fin [1; 2; 3]%R).
Proof.
  apply median_order_independent.
  change ([3; 1; 2]%R ≡ₚ [1; 2; 3]%R).
  etransitivity; [apply Permutation_swap|].
  apply Permutation_skip, Permutation_swap.
Defined.

Section StatsFacts.

Variable Number_toFixed : num -> nat -> string.

Lemma Set_values_acc (l : list string) : forall acc,
  NoDup acc ->
  let out := fold_left (fun acc x => if decide (x ∈ acc) then acc else acc ++ [x])
               l acc in
  NoDup out /\ forall x, x ∈ out <-> x ∈ acc \/ x ∈ l.
Proof.
  induction l as [|y l IH]; intros acc Hnd; cbn [fold_left].
  - split; [exact Hnd|]. intros x. rewrite elem_of_nil. tauto.
  - destruct (decide (y ∈ acc)) as [Hin|Hout].
    + destruct (IH acc Hnd) as (H1 & H2). split; [exact H1|].
      intros x. rewrite H2, elem_of_cons. split; [tauto|].
      intros [H|[->|H]]; tauto.
    + assert (Hnd' : NoDup (acc ++ [y])).
      { apply NoDup_app. split; [exact Hnd|]. split.
        - intros x Hx [->|H]%elem_of_cons; [contradiction|inversion H].
        - apply NoDup_singleton. }
      destruct (IH (acc ++ [y]) Hnd') as (H1 & H2). split; [exact H1|].
      intros x. rewrite H2, elem_of_app, list_elem_of_singleton, elem_of_cons.
      tauto.
Qed.

Lemma Math_min_of_finite (ys : list R) : forall a,
  exists b, fold_left Math_min (map Fin ys) (Fin a) = Fin b /\
            (b <= a)%R /\ Forall (fun y => (b <= y)%R) ys.
Proof.
  induction ys as [|y ys IH]; intros a; cbn [map fold_left].
  - exists a. split; [reflexivity|]. split; [lra|constructor].
  - unfold Math_min at 2. cbn [num_lt]. unfold Rltb.
    destruct (Rlt_dec y a) as [Hlt|Hge].
    + destruct (IH y) as (b & -> & Hb & Hall). exists b.
      split; [reflexivity|]. split; [lra|]. constructor; assumption.
    + destruct (IH a) as (b & -> & Hb & Hall). exists b.
      split; [reflexivity|]. split; [lra|]. constructor; [lra|assumption].
Qed.

Lemma Math_max_of_finite (ys : list R) : forall a,
  exists b, fold_left Math_max (map Fin ys) (Fin a) = Fin b /\
            (a <= b)%R /\ Forall (fun y => (y <= b)%R) ys.
Proof.
  induction ys as [|y ys IH]; intros a; cbn [map fold_left].
  - exists a. split; [reflexivity|]. split; [lra|constructor].
  - unfold Math_max at 2. cbn [num_lt]. unfold Rltb.
    destruct (Rlt_dec a y) as [Hlt|Hge].
    + destruct (IH y) as (b & -> & Hb & Hall). exists b.
      split; [reflexivity|]. split; [lra|]. constructor; assumption.
    + destruct (IH a) as (b & -> & Hb & Hall). exists b.
      split; [reflexivity|]. split; [lra|]. constructor; [lra|assumption].
Qed.

(** The years that enter the range, when every year is absent or finite. *)
Lemma years_finite (planets : list planet) :
  Forall (fun p => finite_or_null (discovered p) = true) planets ->
  exists ys : list R,
    omap (fun p => truthy_num (discovered p)) planets = map Fin ys /\
    forall p y, p ∈ planets -> discovered p = Some (Fin y) -> y <> 0%R ->
                y ∈ ys.
Proof.
  induction 1 as [|p l Hp _ (ys & Hys & Hin)].
  - exists []. split; [reflexivity|]. intros p y H. inversion H.
  - cbn [omap list_omap]. rewrite Hys.
    destruct (discovered p) as [[| | |y]|] eqn:Hd; try discriminate.
    + unfold truthy_num. cbn [opt_num_truthy num_truthy]. unfold Reqb.
      destruct (Req_dec_T y 0) as [Hz|Hnz]; cbn [negb].
      * exists ys. split; [reflexivity|].
        intros q z [->|Hq]%elem_of_cons Hdq Hz0.
        -- rewrite Hd in Hdq. injection Hdq as <-. contradiction.
        -- eapply Hin; eassumption.
      * exists (y :: ys). split; [reflexivity|].
        intros q z [->|Hq]%elem_of_cons Hdq Hz0.
        -- rewrite Hd in Hdq. injection Hdq as <-. left.
        -- right. eapply Hin; eassumption.
    + exists ys. split; [reflexivity|].
      intros q z [->|Hq]%elem_of_cons Hdq Hz0.
      * rewrite Hd in Hdq. discriminate.
      * eapply Hin; eassumption.
Qed.

(** X13.  The summary statistics at the edges.  The list of discovery
    methods has no repetition and holds exactly the non-empty methods of the
    records.  Without any record that has a (non-zero) discovery year the
    year range is [{min: Infinity, max: -Infinity}]; when the years are
    finite, every non-zero year lies between [min] and [max].  A temperature
    that the validator estimated never enters the median: when every record
    is flagged [eqTempEstimated], [medianTemp] is "N/A"; and every median is
    "N/A" for the empty list. *)
Theorem validation_stats_edge_cases (planets : list planet) :
  let st := validation_stats Number_toFixed planets in
  NoDup (discoveryMethods st) /\
  (forall m, m ∈ discoveryMethods st
             <-> m <> ""%string
                 /\ exists p, p ∈ planets /\ discoveryMethod p = Some m) /\
  (Forall (fun p => opt_num_truthy (discovered p) = false) planets ->
   yearRange_min st = PosInf /\ yearRange_max st = NegInf) /\
  (Forall (fun p => finite_or_null (discovered p) = true) planets ->
   forall p y, p ∈ planets -> discovered p = Some (Fin y) -> y <> 0%R ->
     exists lo hi, yearRange_min st = Fin lo /\ yearRange_max st = Fin hi /\
                   (lo <= y <= hi)%R) /\
  (Forall (fun p => eqTempEstimated p = true) planets ->
   medianTemp st = "N/A"%string) /\
  (planets = [] ->
   st = mkSummaryStats "N/A" "N/A" "N/A" "N/A" [] PosInf NegInf).
Proof.
  cbv zeta. unfold validation_stats.
  cbn [discoveryMethods yearRange_min yearRange_max medianTemp].
  destruct (Set_values_acc
              (omap (fun p => truthy_str (discoveryMethod p)) planets) []
              (NoDup_nil_2 (A:=string))) as (Hnd & Hmem).
  split; [exact Hnd|]. split; [|split; [|split; [|split]]].
  - intros m. unfold Set_values. rewrite Hmem, elem_of_nil, list_elem_of_omap.
    split.
    + intros [[]|(p & Hp & Hm)]. unfold truthy_str in Hm.
      destruct (discoveryMethod p) as [[|c s]|] eqn:Hd; cbn in Hm;
        try discriminate.
      injection Hm as <-. split; [discriminate|]. exists p. tauto.
    + intros (Hne & p & Hp & Hd). right. exists p. split; [exact Hp|].
      unfold truthy_str. rewrite Hd. destruct m; [contradiction|reflexivity].
  - intros Hnone. clear Hnd Hmem.
    assert (Hy : omap (fun p => truthy_num (discovered p)) planets = []).
    { induction Hnone as [|p l Hp _ IH]; [reflexivity|].
      cbn [omap list_omap]. unfold truthy_num at 1. rewrite Hp, IH.
      reflexivity. }
    rewrite Hy. split; reflexivity.
  - intros Hfin p y Hp Hd Hy0.
    destruct (years_finite planets Hfin) as (ys & -> & Hin).
    specialize (Hin p y Hp Hd Hy0).
    destruct ys as [|y0 ys]; [inversion Hin|].
    unfold Math_min_of, Math_max_of. cbn [map fold_left].
    change (Math_min PosInf (Fin y0)) with (Fin y0).
    change (Math_max NegInf (Fin y0)) with (Fin y0).
    destruct (Math_min_of_finite ys y0) as (lo & -> & Hlo & Hall_lo).
    destruct (Math_max_of_finite ys y0) as (hi & -> & Hhi & Hall_hi).
    exists lo, hi. split; [reflexivity|]. split; [reflexivity|].
    apply elem_of_cons in Hin as [->|Hin]; [lra|].
    rewrite Forall_forall in Hall_lo, Hall_hi.
    split; [apply Hall_lo|apply Hall_hi]; exact Hin.
  - intros Hest. clear Hnd Hmem.
    assert (Hnone : List.filter
                      (fun p => positive (eqTemp p) && negb (eqTempEstimated p))
                      planets = []).
    { induction Hest as [|p l Hp _ IH]; [reflexivity|].
      cbn [List.filter]. rewrite Hp, andb_false_r. exact IH. }
    rewrite Hnone. reflexivity.
  - intros ->. reflexivity.
Qed.

End StatsFacts.

(** ** More on the habitable zone *)

Section HabitableZoneMore.

Local Open Scope R_scope.

Variable Number_toString : num -> string.



(** Comparisons of numbers compose. *)
Lemma num_le_trans a b c :
  (a <=? b)%num = true -> (b <=? c)%num = true -> (a <=? c)%num = true.
Proof.
  destruct a as [| | |x], b as [| | |y], c as [| | |z]; cbn;
    try discriminate; try reflexivity.
  unfold num_le, num_lt, num_eq, Rltb, Reqb.
  destruct (Rlt_dec x y), (Req_dec_T x y), (Rlt_dec y z), (Req_dec_T y z),
    (Rlt_dec x z), (Req_dec_T x z); cbn; intros; try reflexivity;
    try discriminate; exfalso; lra.
Qed.

(** The boundaries of a zone that [calculateHabitableZone] returns, in
    order. *)
Lemma zone_boundaries_ordered starTeff starLum hz :
  calculateHabitableZone Number_toString starTeff starLum = Some hz ->
  (optimisticInner hz <=? conservativeInner hz)%num = true /\
  (conservativeOuter hz <=? optimisticOuter hz)%num = true.
Proof.
  unfold calculateHabitableZone.
  destruct (opt_num_truthy starTeff) eqn:Ht; cbn [negb orb]; [|discriminate].
  destruct (opt_num_truthy starLum) eqn:Hl; cbn [negb orb]; [|discriminate].
  destruct (the_num starLum <=? Fin 0)%num eqn:Hpos; [discriminate|].
  destruct starTeff as [t|]; [|discriminate].
  destruct starLum as [lum|]; [|discriminate].
  cbn [the_num] in *.
  destruct (clamp_range t Ht) as (c & -> & Hc).
  replace (Fin c - Fin 5780)%num with (Fin (c - 5780)) by reflexivity.
  destruct (flux_ordering (c - 5780)) as (-> & -> & -> & -> & H1 & H2 & H3);
    [lra|].
  intros [= <-].
  cbn [conservativeInner conservativeOuter optimisticInner optimisticOuter].
  split; apply distAU_antitone; try assumption; lra.
Qed.

(** X15.  The status that [getHZStatus] gives is coherent: a planet flagged
    in the conservative zone is flagged in the optimistic zone as well; the
    label is "In Conservative HZ" exactly when the conservative flag is set
    and "In Optimistic HZ" exactly when only the optimistic flag is set; and
    without a zone (label "Unknown") both flags are off and the confidence
    is "low". *)
Theorem getHZStatus_flags_consistent (planet : CatalogPlanet) :
  let st := getHZStatus Number_toString planet in
  (conservative st = true -> optimistic st = true) /\
  (hz_label st = "In Conservative HZ"%string <-> conservative st = true) /\
  (hz_label st = "In Optimistic HZ"%string
   <-> optimistic st = true /\ conservative st = false) /\
  (hz_label st = "Unknown"%string <-> hz st = None) /\
  (hz st = None ->
   conservative st = false /\ optimistic st = false /\
   hz_confidence st = "low"%string).
Proof.
  cbv zeta. unfold getHZStatus.
  destruct (calculateHabitableZone Number_toString (starTemp (data planet))
              (starLum (data planet))) as [z|] eqn:Hz.
  2:{ cbn. repeat split; intros; try discriminate; try reflexivity;
        try tauto. destruct H; discriminate. }
  destruct (negb (opt_num_truthy (semiMajorAxis (data planet)))
            || (the_num (semiMajorAxis (data planet)) <=? Fin 0)%num).
  { cbn. repeat split; intros; try discriminate; try reflexivity;
      try tauto. destruct H; discriminate. }
  destruct (zone_boundaries_ordered _ _ _ Hz) as (Hin & Hout).
  set (a := the_num (semiMajorAxis (data planet))).
  cbn [conservative optimistic hz_label hz hz_confidence].
  assert (Himp : (a >=? conservativeInner z)%num
                 && (a <=? conservativeOuter z)%num = true ->
                 (a >=? optimisticInner z)%num
                 && (a <=? optimisticOuter z)%num = true).
  { intros [H1 H2]%andb_true_iff. apply andb_true_iff. split.
    - unfold num_ge in *. eapply num_le_trans; eassumption.
    - eapply num_le_trans; eassumption. }
  destruct ((a >=? conservativeInner z)%num && (a <=? conservativeOuter z)%num)
    eqn:Hc.
  - rewrite (Himp eq_refl).
    repeat split; intros; try discriminate; try reflexivity.
    destruct H; discriminate.
  - destruct ((a >=? optimisticInner z)%num && (a <=? optimisticOuter z)%num).
    + repeat split; intros; try discriminate; try reflexivity.
    + destruct (a <? optimisticInner z)%num;
        repeat split; intros; try discriminate; try reflexivity;
        destruct H; discriminate.
Qed.

End HabitableZoneMore.


(** ** More on the similarity index *)

Section ESIComponentFacts.

Local Open Scope R_scope.



End ESIComponentFacts.


(** ** Observer utilities *)

Section ObserverFacts.

Local Open Scope R_scope.

Lemma find_none_Forall {A} (f : A -> bool) (l : list A) :
  Forall (fun x => f x = false) l -> List.find f l = None.
Proof.
  induction 1 as [|x l Hx _ IH]; [reflexivity|].
  cbn. rewrite Hx. exact IH.
Qed.

(** A region does not hold a point whose declination is outside its
    band. *)
Lemma in_region_dec_out raH d (c : Region) :
  d < decMin c \/ decMax c < d -> in_region raH (Fin d) c = false.
Proof.
  intros H. unfold in_region.
  assert (Hd : (Fin d >=? Fin (decMin c))%num && (Fin d <=? Fin (decMax c))%num
               = false).
  { apply andb_false_iff. destruct H as [H|H]; [left|right].
    - unfold num_ge. apply num_le_Fin_false. exact H.
    - apply num_le_Fin_false. exact H. }
  rewrite <- andb_assoc, Hd. apply andb_false_r.
Qed.

Lemma in_region_NaN raH (c : Region) : in_region raH NaN c = false.
Proof.
  unfold in_region. cbn. rewrite andb_false_r. reflexivity.
Qed.

(** X17.  The caps of the sky in [getConstellation].  With both coordinates
    given the answer is never [null].  A declination below -75 or above 90
    degrees, and a declination that is not a number, give "Unknown"
    whatever the right ascension; a declination above 86 and up to 90
    degrees with a right ascension between 0 and 360 degrees gives Ursa
    Minor. *)
Theorem getConstellation_polar_caps (raDeg : num) (d : R) :
  (forall decDeg, exists c, getConstellation (Some raDeg) (Some decDeg) = Some c) /\
  (d < -75 \/ 90 < d ->
   getConstellation (Some raDeg) (Some (Fin d))
   = Some (mkConstellation "Unknown" "---")) /\
  getConstellation (Some raDeg) (Some NaN)
  = Some (mkConstellation "Unknown" "---") /\
  (forall ra, 0 <= ra <= 360 -> 86 < d <= 90 ->
     getConstellation (Some (Fin ra)) (Some (Fin d))
     = Some (mkConstellation "Ursa Minor" "UMi")).
Proof.
  split; [|split; [|split]].
  - intros decDeg. unfold getConstellation.
    destruct (List.find _ CONSTELLATIONS); eauto.
  - intros Hd. unfold getConstellation.
    rewrite find_none_Forall; [reflexivity|].
    unfold CONSTELLATIONS.
    repeat constructor.
    all: apply in_region_dec_out; cbn [decMin decMax];
      destruct Hd; [left|right]; lra.
  - unfold getConstellation.
    rewrite find_none_Forall; [reflexivity|].
    apply Forall_forall. intros c _. apply in_region_NaN.
  - intros ra Hra Hd. unfold getConstellation.
    rewrite num_div_Fin by lra.
    unfold CONSTELLATIONS.
    repeat (cbn [List.find];
            rewrite in_region_dec_out by (cbn [decMin decMax]; right; lra)).
    cbn [List.find].
    assert (Hin : in_region (Fin (ra / 15)) (Fin d)
                    (mkRegion "Ursa Minor" "UMi" 0.0 24.0 66 90) = true).
    { unfold in_region. cbn [raMin raMax decMin decMax].
      unfold Rltb. destruct (Rlt_dec 24.0 0.0) as [H|_]; [exfalso; lra|].
      unfold num_ge.
      rewrite !(proj2 (num_le_Fin _ _)) by lra. reflexivity. }
    rewrite Hin. reflexivity.
Qed.

(** *** The best month *)







End ObserverFacts.

(** ** Discovery method metadata *)

Section DiscoveryFacts.

(** X19.  The two tables of [getDiscoveryMethodInfo] fit together.  Every
    name listed in [METHOD_ALIASES] resolves to the entry of
    [DISCOVERY_METHODS] that the alias names, and every key of
    [DISCOVERY_METHODS] resolves to an entry.  The entry stored under
    "Imaging" is never returned, for any method name: that name is an alias
    of "Direct Imaging".  An empty or missing name gives [null]. *)
Theorem getDiscoveryMethodInfo_tables_coherent :
  Forall (fun a =>
            exists info,
              getDiscoveryMethodInfo (Some (fst a)) = Some info /\
              assoc DISCOVERY_METHODS (snd a) = Some info)
         METHOD_ALIASES /\
  Forall (fun e =>
            exists info,
              getDiscoveryMethodInfo (Some (fst e)) = Some info /\
              (fst e <> "Imaging" -> info = snd e))
         DISCOVERY_METHODS /\
  (forall methodName info,
     getDiscoveryMethodInfo (Some methodName) = Some info ->
     dm_id info <> "imaging") /\
  getDiscoveryMethodInfo (Some "Imaging")
  = assoc DISCOVERY_METHODS "Direct Imaging" /\
  getDiscoveryMethodInfo (Some "") = None /\
  getDiscoveryMethodInfo None = None.
Proof.
  split; [|split; [|split; [|repeat split]]].
  - unfold METHOD_ALIASES.
    repeat constructor; eexists; split; reflexivity.
  - unfold DISCOVERY_METHODS.
    repeat constructor; eexists; (split; [reflexivity|]); cbn [fst snd];
      intros H; try reflexivity; exfalso; apply H; reflexivity.
  - intros m info. unfold getDiscoveryMethodInfo.
    destruct (negb (str_truthy m)); [discriminate|].
    unfold METHOD_ALIASES, DISCOVERY_METHODS.
    repeat (cbn [assoc default from_option id];
            repeat match goal with
                   | H : String.eqb ?k m = _ |- context [String.eqb ?k m] =>
                       rewrite H
                   end;
            match goal with
            | |- context [String.eqb ?k m] => destruct (String.eqb k m) eqn:?
            end).
    all: cbn [assoc default from_option id];
      repeat match goal with
             | H : String.eqb ?k ?x = _ |- context [String.eqb ?k ?x] =>
                 rewrite H
             end.
    all: try (intros [= <-]; cbn [dm_id]; discriminate).
    all: try discriminate.
Qed.

End DiscoveryFacts.

(** ** Habitability score and planet classes (js/database.js) *)

Section ScoreFacts.

Local Open Scope R_scope.

Lemma hundredths_add lo hi lo' hi' x c (k : Z) :
  hundredths lo hi x -> c = IZR k / 100 ->
  (lo' <= lo + k)%Z -> (hi + k <= hi')%Z ->
  hundredths lo' hi' (x + Fin c)%num.
Proof.
  intros (j & -> & Hj) -> Hlo Hhi. exists (j + k)%Z. split; [|lia].
  cbn [num_add]. f_equal. rewrite plus_IZR. lra.
Qed.

Lemma hundredths_weaken lo hi lo' hi' x :
  hundredths lo hi x -> (lo' <= lo)%Z -> (hi <= hi')%Z -> hundredths lo' hi' x.
Proof. intros (j & -> & Hj) Hlo Hhi. exists j. split; [reflexivity|lia]. Qed.

Lemma Math_round_hundredths (k : Z) :
  (Math_round (Fin (IZR k / 100) * Fin 100) / Fin 100)%num = Fin (IZR k / 100).
Proof.
  cbn [num_mul Math_round]. rewrite num_div_Fin by lra.
  replace (Int_part (IZR k / 100 * 100 + / 2)) with k; [reflexivity|].
  apply Int_part_spec. lra.
Qed.

(** One part of the score: the running total with one of the listed
    amounts added, or left as it is. *)
Ltac score_part H :=
  first
    [ solve [apply (hundredths_weaken _ _ _ _ _ H); lia]
    | solve [apply (hundredths_add _ _ _ _ _ _ 35 H); [lra|lia|lia]]
    | solve [apply (hundredths_add _ _ _ _ _ _ 25 H); [lra|lia|lia]]
    | solve [apply (hundredths_add _ _ _ _ _ _ 15 H); [lra|lia|lia]]
    | solve [apply (hundredths_add _ _ _ _ _ _ 10 H); [lra|lia|lia]]
    | solve [apply (hundredths_add _ _ _ _ _ _ 8 H); [lra|lia|lia]]
    | solve [apply (hundredths_add _ _ _ _ _ _ 5 H); [lra|lia|lia]]
    | solve [apply (hundredths_add _ _ _ _ _ _ 4 H); [lra|lia|lia]]
    | solve [apply (hundredths_add _ _ _ _ _ _ 3 H); [lra|lia|lia]]
    | solve [apply (hundredths_add _ _ _ _ _ _ 2 H); [lra|lia|lia]]
    | solve [apply (hundredths_add _ _ _ _ _ _ 1 H); [lra|lia|lia]] ].

Ltac split_ifs :=
  repeat match goal with
         | |- context [if ?c then _ else _] => destruct c
         | |- context [match ?c with Some _ => _ | None => _ end] => destruct c
         | |- context [match ?c with EmptyString => _ | String _ _ => _ end] =>
             destruct c
         end.

(** X20.  The habitability score of any record is a finite number, a whole
    number of hundredths between 0.05 and 1.00, whatever fields are missing,
    [NaN] or infinite; the cap at 1.0 never cuts anything off. *)
Theorem calculateHabitability_range (p : planet) :
  exists k : Z,
    calculateHabitability p = Fin (IZR k / 100) /\ (5 <= k <= 100)%Z /\
    Math_min (Fin (IZR k / 100)) (Fin 1) = Fin (IZR k / 100).
Proof.
  unfold calculateHabitability. cbv zeta.
  set (t := num_or (eqTemp p) (Fin 0)).
  set (r := num_or (radius p) (Fin 0)).
  set (m := num_or (mass p) (Fin 0)).
  set (a := the_num (semiMajorAxis p)).
  assert (H0 : hundredths 0 0 (Fin 0)).
  { exists 0%Z. split; [f_equal; lra|lia]. }
  match goal with
  | |- context [(?e + Fin 0.03)%num] => set (s4 := e)
  end.
  assert (H4 : hundredths 5 90 s4).
  { subst s4.
    match goal with
    | |- context [(?e + Fin 0.08)%num] => set (s3 := e)
    end.
    assert (H3 : hundredths 3 75 s3).
    { subst s3.
      match goal with
      | |- context [(?e + Fin 0.05)%num] => set (s2 := e)
      end.
      assert (H2 : hundredths 3 60 s2).
      { subst s2.
        match goal with
        | |- context [(?e + Fin 0.01)%num] => set (s1 := e)
        end.
        assert (H1 : hundredths 2 35 s1).
        { subst s1. split_ifs; score_part H0. }
        clearbody s1. split_ifs; score_part H1. }
      clearbody s2. split_ifs; score_part H2. }
    clearbody s3. split_ifs; score_part H3. }
  clearbody s4.
  match goal with
  | |- context [Math_round (?e * Fin 100)] => set (s5 := e)
  end.
  assert (H5 : hundredths 5 100 s5).
  { subst s5. split_ifs; score_part H4. }
  clearbody s5. destruct H5 as (k & -> & Hk). exists k.
  rewrite Math_round_hundredths.
  replace 1.0 with 1 by lra.
  assert (Hmin : Math_min (Fin (IZR k / 100)) (Fin 1) = Fin (IZR k / 100)).
  { assert (IZR k <= 100) by (apply IZR_le; lia).
    unfold Math_min. real_cases; reflexivity. }
  rewrite !Hmin. split; [reflexivity|]. split; [exact Hk|reflexivity].
Qed.

Lemma elem_of_three (x a b c : string) :
  x ∈ [a; b; c] <-> x = a \/ x = b \/ x = c.
Proof.
  rewrite !elem_of_cons, elem_of_nil. tauto.
Qed.

(** X21.  The class of a planet follows its radius, a missing radius
    counting as 1: the three Jupiter classes are given exactly to radii
    above 8, the two Neptune classes and "Ice Giant" exactly to radii above
    3.5 and up to 8, and "Sub-Earth" to no radius of 0.5 or more.  The mass
    has no effect, "Gas Dwarf" is never given, and a record with neither
    radius nor temperature is a "Desert World". *)
Theorem classifyPlanet_by_radius (radius mass eqTemp : option num) :
  let r := num_or radius (Fin 1) in
  let class := classifyPlanet radius mass eqTemp in
  (class ∈ [PlanetType.HOT_JUPITER; PlanetType.WARM_JUPITER;
            PlanetType.COLD_JUPITER]
   <-> (r >? Fin 8)%num = true) /\
  (class ∈ [PlanetType.HOT_NEPTUNE; PlanetType.WARM_NEPTUNE;
            PlanetType.ICE_GIANT]
   <-> (r >? Fin 3.5)%num = true /\ (r >? Fin 8)%num = false) /\
  (class = PlanetType.SUB_EARTH -> (r <? Fin 0.5)%num = true) /\
  class = classifyPlanet radius None eqTemp /\
  class <> PlanetType.GAS_DWARF /\
  classifyPlanet None mass None = PlanetType.DESERT_WORLD.
Proof.
  cbv zeta. unfold classifyPlanet. cbv zeta.
  set (r := num_or radius (Fin 1)).
  set (t := ToNumber (of_num eqTemp)).
  split; [|split; [|split; [|split; [reflexivity|split]]]].
  - rewrite elem_of_three. clearbody r t.
    destruct r as [| | |x]; cbn [num_gt num_lt andb];
      unfold Rltb; repeat (destruct (Rlt_dec _ _); try lra);
      rewrite ?andb_false_r, ?andb_true_r;
      split_ifs;
      (split; [intros [H|[H|H]]; first [reflexivity | discriminate H]
              |intros H; first [discriminate H | tauto]]).
  - rewrite elem_of_three. clearbody r t.
    destruct r as [| | |x]; cbn [num_gt num_lt andb];
      unfold Rltb; repeat (destruct (Rlt_dec _ _); try lra);
      rewrite ?andb_false_r, ?andb_true_r;
      split_ifs;
      (split; [intros [H|[H|H]]; first [split; reflexivity | discriminate H]
              |intros [H1 H2];
               first [discriminate H1 | discriminate H2 | tauto]]).
  - clearbody r t.
    destruct r as [| | |x]; cbn [num_gt num_lt andb];
      unfold Rltb; repeat (destruct (Rlt_dec _ _); try lra);
      rewrite ?andb_false_r, ?andb_true_r;
      split_ifs; intros H; first [reflexivity | discriminate H].
  - split_ifs; discriminate.
  - unfold num_or. cbn.
    unfold Rltb. repeat destruct (Rlt_dec _ _); try lra. reflexivity.
Qed.

End ScoreFacts.

(** ** The catalog: construction, lookup and search (js/database.js) *)

Section CatalogFacts.

Variable Number_toString : num -> string.
Variable Number_toFixed : num -> nat -> string.

Lemma find_imap_by_name (g : nat -> planet -> CatalogPlanet) (l : list planet) :
  forall (k i : nat) (p : planet),
    (forall j q, name (data (g j q)) = name q) ->
    NoDup (map name l) -> l !! i = Some p ->
    List.find (fun e => String.eqb (name (data e)) (name p))
      (imap (fun j => g (k + j)%nat) l)
    = Some (g (k + i)%nat p).
Proof.
  induction l as [|q l IH]; intros k i p Hg Hnd Hi.
  - rewrite lookup_nil in Hi. discriminate.
  - cbn [map] in Hnd. apply NoDup_cons in Hnd as [Hq Hnd].
    cbn [imap List.find]. rewrite Hg.
    destruct i as [|i]; cbn in Hi.
    + injection Hi as ->. rewrite String.eqb_refl, Nat.add_0_r. reflexivity.
    + destruct (String.eqb (name q) (name p)) eqn:E.
      * exfalso. apply String.eqb_eq in E. apply Hq. rewrite E.
        apply list_elem_of_fmap. exists p. split; [reflexivity|].
        apply list_elem_of_lookup. eauto.
      * replace (k + S i)%nat with (S k + i)%nat by lia.
        rewrite <- (IH (S k) i p Hg Hnd Hi).
        f_equal. apply imap_ext. intros j x _. cbn.
        replace (k + S j)%nat with (S (k + j))%nat by lia. reflexivity.
Qed.

Lemma find_imap_absent (g : nat -> planet -> CatalogPlanet) (l : list planet)
    (n : string) :
  (forall j q, name (data (g j q)) = name q) ->
  n ∉ map name l ->
  forall k, List.find (fun e => String.eqb (name (data e)) n)
              (imap (fun j => g (k + j)%nat) l) = None.
Proof.
  intros Hg. induction l as [|q l IH]; intros Hn k; [reflexivity|].
  cbn [map] in Hn. apply not_elem_of_cons in Hn as [Hq Hn].
  cbn [imap List.find]. rewrite Hg.
  destruct (String.eqb (name q) n) eqn:E.
  - apply String.eqb_eq in E. congruence.
  - rewrite <- (IH Hn (S k)). f_equal. apply imap_ext. intros j x _. cbn.
    replace (k + S j)%nat with (S (k + j))%nat by lia. reflexivity.
Qed.

Lemma name_set_nasaRaw v p : name (set_nasaRaw v p) = name p.
Proof. reflexivity. Qed.

(** X22.  Once the catalog is built from the cleaned list, every record of
    that list is found by its name: the entry found has the position of the
    record as its [id], holds the record (marked as raw NASA data), its class
    and its habitability score, and has a habitable-zone status and a
    similarity index.  A name that no input record carries finds nothing.
    A lookup leaves the store as it is. *)
Theorem getPlanetByName_finds_cleaned_records (rows : list planet) (s : Store)
    (i : nat) (p : planet) :
  let planets := fst (validateAndClean rows) in
  heap s !! PLANET_CATALOG s
  = Some (processNASAPlanets Number_toString Number_toFixed planets) ->
  planets !! i = Some p ->
  (exists e,
     getPlanetByName (name p) s = (Some e, s) /\
     id e = i /\
     data e = set_nasaRaw true p /\
     type e = classifyPlanet (radius p) (mass p) (eqTemp p) /\
     habitability e = calculateHabitability (set_nasaRaw true p) /\
     hzStatus e <> None /\ esi e <> None) /\
  (forall n, n ∉ map name rows -> getPlanetByName n s = (None, s)).
Proof.
  intros planets Hcat Hi.
  destruct (cleaned_list_shape rows) as (Hnd & _). fold planets in Hnd.
  set (g := fun (j : nat) (q : planet) =>
              enrichPlanet Number_toString Number_toFixed
                (mkCatalogPlanet (set_nasaRaw true q) j
                   (classifyPlanet (radius q) (mass q) (eqTemp q))
                   (calculateHabitability (set_nasaRaw true q))
                   None None None None None None None)).
  assert (Hg : forall j q, name (data (g j q)) = name q).
  { intros j q. unfold g. rewrite enrichPlanet_closed_form. reflexivity. }
  assert (Hp : processNASAPlanets Number_toString Number_toFixed planets
               = imap (fun j => g (0 + j)%nat) planets).
  { reflexivity. }
  assert (Hget : forall n,
            getPlanetByName n s
            = (List.find (fun e => String.eqb (name (data e)) n)
                 (processNASAPlanets Number_toString Number_toFixed planets),
               s)).
  { intros n. unfold getPlanetByName, hbind, elements_at, hret.
    rewrite Hcat. reflexivity. }
  split.
  - exists (g i p). rewrite Hget, Hp.
    rewrite (find_imap_by_name g planets 0 i p Hg Hnd Hi).
    split; [reflexivity|].
    unfold g. rewrite enrichPlanet_closed_form. cbv zeta.
    cbn [id data type habitability hzStatus esi].
    repeat split; discriminate.
  - intros n Hn. rewrite Hget, Hp.
    rewrite (find_imap_absent g planets n Hg); [reflexivity|].
    intros Hin. apply Hn.
    subst planets. destruct (validateAndClean_spec rows) as (Hc & _).
    rewrite Hc, map_name_fill_defaults in Hin.
    apply (first_occurrences_names rows ∅) in Hin. apply Hin.
Qed.

End CatalogFacts.

Lemma getPlanetByName_finds_cleaned_records_witness :
  let number_text := fun _ : num => "n"%string in
  let fixed_text := fun (_ : num) (_ : nat) => "n"%string in
  let catalog :=
    processNASAPlanets number_text fixed_text
      (fst (validateAndClean [bare_planet "A b" None])) in
  exists e,
    getPlanetByName "A b" (catalog_store catalog)
    = (Some e, catalog_store catalog) /\ id e = 0%nat.
Proof.
  intros number_text fixed_text catalog.
  destruct (getPlanetByName_finds_cleaned_records number_text fixed_text
              [bare_planet "A b" None] (catalog_store catalog) 0
              (fill_defaults (bare_planet "A b" None)))
    as ((e & He & Hid & _) & _).
  - reflexivity.
  - rewrite validateAndClean_single. reflexivity.
  - exists e. rewrite fill_defaults_name in He. split; [exact He|exact Hid].
Defined.

Section SearchResults.

Local Open Scope R_scope.

Lemma filter_filter (f g : CatalogPlanet -> bool) (l : list CatalogPlanet) :
  List.filter g (List.filter f l) = List.filter (fun p => f p && g p) l.
Proof.
  induction l as [|x l IH]; [reflexivity|]. cbn [List.filter].
  destruct (f x); cbn [List.filter andb]; [|exact IH].
  destruct (g x); [f_equal|]; exact IH.
Qed.

Lemma filter_true (l : list CatalogPlanet) :
  List.filter (fun _ => true) l = l.
Proof. induction l as [|x l IH]; [reflexivity|]. cbn. f_equal. exact IH. Qed.

Lemma refine_list_fold (fs : list (option (CatalogPlanet -> bool))) :
  forall l,
    fold_left refine_list fs l
    = List.filter
        (fun p => forallb (fun f => from_option (fun f => f p) true f) fs) l.
Proof.
  induction fs as [|f fs IH]; intros l; cbn [fold_left forallb].
  - symmetry. apply filter_true.
  - rewrite IH. destruct f as [f|]; cbn [refine_list from_option].
    + apply filter_filter.
    + reflexivity.
Qed.

Lemma search_result s0 query filters catalog :
  heap s0 !! PLANET_CATALOG s0 = Some catalog ->
  heap (snd (searchPlanets query filters s0))
    !! fst (searchPlanets query filters s0)
  = Some (Array_sort
            (compare_planets (default "name" (truthy_str (sortBy filters)))
               (default "asc" (truthy_str (sortDir filters))))
            (List.filter (passes_all query filters) catalog)).
Proof.
  intros Hcat. destruct (searchPlanets_spec s0 query filters) as (_ & H).
  rewrite H, Hcat. unfold search_list. cbn [default from_option].
  rewrite refine_list_fold. reflexivity.
Qed.

(** X23.  A search returns exactly the entries of the catalog that pass
    every filter it was given, each as often as the catalog has it: the
    result is a rearrangement of the catalog filtered by all the conditions
    at once.  With an empty query and no filter it is a rearrangement of the
    whole catalog. *)
Theorem searchPlanets_returns_the_matches (query : string) (filters : Filters)
    (s0 : Store) (catalog : list CatalogPlanet) :
  heap s0 !! PLANET_CATALOG s0 = Some catalog ->
  exists out,
    heap (snd (searchPlanets query filters s0))
      !! fst (searchPlanets query filters s0) = Some out /\
    out ≡ₚ List.filter (passes_all query filters) catalog /\
    (forall p, p ∈ out <-> p ∈ catalog /\ passes_all query filters p = true) /\
    (length out <= length catalog)%nat /\
    (query = EmptyString -> filters = no_filters -> out ≡ₚ catalog).
Proof.
  intros Hcat. eexists. split; [apply (search_result _ _ _ _ Hcat)|].
  assert (Hperm := Array_sort_perm
            (compare_planets (default "name" (truthy_str (sortBy filters)))
               (default "asc" (truthy_str (sortDir filters))))
            (List.filter (passes_all query filters) catalog)).
  split; [exact Hperm|]. split; [|split].
  - intros p. rewrite Hperm, list_elem_of_In, filter_In, <- list_elem_of_In.
    reflexivity.
  - rewrite Hperm. apply filter_length_le.
  - intros -> ->. rewrite Hperm.
    unfold passes_all. cbn. rewrite filter_true. reflexivity.
Qed.

Lemma searchPlanets_returns_the_matches_witness :
  exists out,
    heap (snd (searchPlanets EmptyString no_filters two_planet_store))
      !! fst (searchPlanets EmptyString no_filters two_planet_store)
    = Some out /\
    out ≡ₚ [untyped_star_entry; typed_star_entry].
Proof.
  destruct (searchPlanets_returns_the_matches EmptyString no_filters
              two_planet_store [untyped_star_entry; typed_star_entry])
    as (out & Hout & _ & _ & _ & Hall).
  - reflexivity.
  - exists out. split; [exact Hout|]. apply Hall; reflexivity.
Defined.

(** X24.  A missing value counts as 0 in the range filters: an entry with no
    distance is returned by every search that only asks for a distance of at
    most [m], for any [m] that is not negative, and by no search that asks
    for a distance of at least a positive [m], whatever else it asks. *)
Theorem searchPlanets_unknown_distance (s0 : Store)
    (catalog : list CatalogPlanet) (p : CatalogPlanet) (m : R) :
  heap s0 !! PLANET_CATALOG s0 = Some catalog ->
  p ∈ catalog -> distance (data p) = None ->
  (0 <= m ->
   exists out,
     heap (snd (searchPlanets EmptyString (within_distance (Fin m)) s0))
       !! fst (searchPlanets EmptyString (within_distance (Fin m)) s0)
     = Some out /\ p ∈ out) /\
  (0 < m ->
   forall query filters, minDistance filters = Some (Fin m) ->
     exists out,
       heap (snd (searchPlanets query filters s0))
         !! fst (searchPlanets query filters s0) = Some out /\ p ∉ out).
Proof.
  intros Hcat Hp Hd. split.
  - intros Hm. eexists. split; [apply (search_result _ _ _ _ Hcat)|].
    rewrite Array_sort_perm, list_elem_of_In, filter_In, <- list_elem_of_In.
    split; [exact Hp|].
    unfold passes_all, within_distance. cbn. rewrite Hd. cbn.
    rewrite andb_true_r. apply num_le_Fin. exact Hm.
  - intros Hm query filters Hmin.
    eexists. split; [apply (search_result _ _ _ _ Hcat)|].
    rewrite Array_sort_perm, list_elem_of_In, filter_In, <- list_elem_of_In.
    intros [_ Hpass]. unfold passes_all, refinements in Hpass.
    rewrite Hmin in Hpass. cbn [option_map forallb from_option] in Hpass.
    repeat (apply andb_prop in Hpass as [? Hpass]).
    match goal with
    | H : field_ge _ _ = true |- _ =>
        unfold field_ge in H; rewrite Hd in H; cbn in H;
        apply num_le_Fin in H; lra
    end.
Qed.

Lemma searchPlanets_unknown_distance_witness :
  exists out,
    heap (snd (searchPlanets EmptyString (within_distance (Fin 50))
                 two_planet_store))
      !! fst (searchPlanets EmptyString (within_distance (Fin 50))
                two_planet_store)
    = Some out /\ untyped_star_entry ∈ out.
Proof.
  destruct (searchPlanets_unknown_distance two_planet_store
              [untyped_star_entry; typed_star_entry] untyped_star_entry 50)
    as (H & _).
  - reflexivity.
  - left.
  - reflexivity.
  - apply H. lra.
Defined.



End SearchResults.

(** ** Planets of one system (js/database.js) *)

Section SystemFacts.

Lemma filter_sublist (f : CatalogPlanet -> bool) (l : list CatalogPlanet) :
  List.filter f l `sublist_of` l.
Proof.
  induction l as [|x l IH]; cbn [List.filter]; [constructor|].
  destruct (f x); [apply sublist_skip|apply sublist_cons]; exact IH.
Qed.

(** X26.  [getSystemPlanets] returns an array that did not exist before the
    call, so never the catalog itself; it holds the entries of the catalog
    whose system is the one asked for, in the order of the catalog, and
    every such entry is in it.  The catalog and every other array are left
    as they were. *)
Theorem getSystemPlanets_returns_new_array (systemName : string) (s0 : Store)
    (catalog : list CatalogPlanet) :
  heap s0 !! PLANET_CATALOG s0 = Some catalog ->
  let r := fst (getSystemPlanets systemName s0) in
  let s := snd (getSystemPlanets systemName s0) in
  r <> PLANET_CATALOG s0 /\
  (r ∉ dom (heap s0)) /\
  (exists out,
     heap s !! r = Some out /\
     (out `sublist_of` catalog) /\
     forall e, e ∈ out <-> e ∈ catalog /\ system (data e) = systemName) /\
  PLANET_CATALOG s = PLANET_CATALOG s0 /\
  (forall l, l ∈ dom (heap s0) -> heap s !! l = heap s0 !! l).
Proof.
  intros Hcat r s.
  assert (H : array_holds s0
                (List.filter (fun p => String.eqb (system (data p)) systemName)
                   catalog) r s).
  { subst r s. unfold getSystemPlanets, Array_filter, hbind, elements_at.
    rewrite Hcat. cbn [default from_option].
    apply alloc_holds, preserves_refl. }
  destruct H as (((Hc & Hh) & Hr0 & Hr) & He).
  split; [|split; [exact Hr0|split; [|split; [exact Hc|exact Hh]]]].
  - intros E. apply Hr0. rewrite E. apply elem_of_dom. rewrite Hcat. eauto.
  - eexists. split; [exact He|]. split.
    + apply filter_sublist.
    + intros e. rewrite list_elem_of_In, filter_In, <- list_elem_of_In.
      rewrite String.eqb_eq. reflexivity.
Qed.

Lemma getSystemPlanets_returns_new_array_witness :
  fst (getSystemPlanets "A b" two_planet_store) <> 0%nat /\
  heap (snd (getSystemPlanets "A b" two_planet_store)) !! 0%nat
  = Some [untyped_star_entry; typed_star_entry].
Proof.
  destruct (getSystemPlanets_returns_new_array "A b" two_planet_store
              [untyped_star_entry; typed_star_entry])
    as (H1 & _ & _ & _ & H2).
  - reflexivity.
  - split; [exact H1|]. apply H2. apply elem_of_dom. eexists. reflexivity.
Defined.

End SystemFacts.

(** ** The seeded generator and the name hash *)

Section IntegerFacts.

Local Open Scope Z_scope.

Lemma ToInt32_range z : int32 (ToInt32 z).
Proof.
  unfold int32, ToInt32.
  pose proof (Z.mod_pos_bound (z + 2147483648) 4294967296). lia.
Qed.

Lemma ToInt32_congr a b :
  (a - b) mod 4294967296 = 0 -> ToInt32 a = ToInt32 b.
Proof.
  intros H. unfold ToInt32. f_equal.
  apply Z.mod_divide in H; [|lia]. destruct H as (q & Hq).
  replace (a + 2147483648) with (b + 2147483648 + q * 4294967296) by lia.
  apply Z.mod_add. lia.
Qed.

Lemma ToInt32_id z : int32 z -> ToInt32 z = z.
Proof.
  unfold int32, ToInt32. intros H.
  rewrite Z.mod_small by lia. lia.
Qed.

Lemma ToInt32_mod z : (ToInt32 z - z) mod 4294967296 = 0.
Proof.
  unfold ToInt32. rewrite (Z.mod_eq (z + 2147483648) 4294967296) by lia.
  replace (z + 2147483648
           - 4294967296 * ((z + 2147483648) / 4294967296) - 2147483648 - z)
    with (- ((z + 2147483648) / 4294967296) * 4294967296) by lia.
  apply Z.mod_mul. lia.
Qed.

Lemma seededRandom_state s :
  fst (seededRandom_call s) = ToInt32 (s * 1664525 + 1013904223).
Proof.
  unfold seededRandom_call. cbn [fst].
  change (ToInt32 4294967295) with (-1). apply Z.land_m1_r.
Qed.

Lemma seededRandom_value s :
  snd (seededRandom_call s)
  = Fin (IZR (fst (seededRandom_call s) mod 4294967296) / 4294967295).
Proof.
  rewrite seededRandom_state. unfold seededRandom_call. cbn [snd].
  change (ToInt32 4294967295) with (-1). rewrite Z.land_m1_r.
  rewrite Z.shiftr_0_r. unfold ToUint32.
  apply num_div_Fin. lra.
Qed.

(** X27.  One call of the generator, made with a 32-bit state: the new state
    is the 32-bit value of [s * 1664525 + 1013904223] (the mask changes
    nothing), and the number returned is finite and lies between 0 and 1,
    both included: it is 1 exactly when the new state is -1, which the state
    653637408 leads to. *)
Theorem seededRandom_call_range (s : Z) :
  int32 s ->
  let s' := fst (seededRandom_call s) in
  let x := snd (seededRandom_call s) in
  int32 s' /\
  s' = ToInt32 (s * 1664525 + 1013904223) /\
  unit_interval x /\
  (x = Fin 1 <-> s' = -1) /\
  snd (seededRandom_call 653637408) = Fin 1.
Proof.
  intros _ s' x.
  assert (Hs : s' = ToInt32 (s * 1664525 + 1013904223))
    by apply seededRandom_state.
  assert (Hr : int32 s') by (rewrite Hs; apply ToInt32_range).
  assert (Hx : x = Fin (IZR (s' mod 4294967296) / 4294967295))
    by apply seededRandom_value.
  pose proof (Z.mod_pos_bound s' 4294967296 eq_refl) as Hu.
  assert (H0 : (0 <= IZR (s' mod 4294967296))%R) by (apply IZR_le; lia).
  assert (H1 : (IZR (s' mod 4294967296) <= 4294967295)%R)
    by (apply IZR_le; lia).
  split; [exact Hr|]. split; [exact Hs|]. split; [|split].
  - exists (IZR (s' mod 4294967296) / 4294967295)%R. split; [exact Hx|].
    split.
    + apply Rmult_le_reg_r with 4294967295%R; [lra|].
      unfold Rdiv. rewrite Rmult_assoc, Rinv_l by lra. lra.
    + apply Rmult_le_reg_r with 4294967295%R; [lra|].
      unfold Rdiv. rewrite Rmult_assoc, Rinv_l by lra. lra.
  - rewrite Hx. split.
    + intros [= E].
      assert (E' : IZR (s' mod 4294967296) = 4294967295%R).
      { apply Rmult_eq_reg_r with (/ 4294967295)%R; [|lra].
        fold (Rdiv (IZR (s' mod 4294967296)) 4294967295). rewrite E.
        rewrite Rinv_r by lra. reflexivity. }
      apply eq_IZR in E'. unfold int32 in Hr.
      destruct (Z_lt_le_dec s' 0) as [Hneg|Hpos].
      * rewrite <- (Z.mod_unique s' 4294967296 (-1) (s' + 4294967296)) in E'
          by lia.
        lia.
      * rewrite Z.mod_small in E' by lia. lia.
    + intros ->. f_equal. change (-1 mod 4294967296) with 4294967295.
      field.
  - rewrite seededRandom_value, seededRandom_state.
    replace (ToInt32 (653637408 * 1664525 + 1013904223)) with (-1)
      by (vm_compute; reflexivity).
    f_equal. change (-1 mod 4294967296) with 4294967295. field.
Qed.

Lemma seededRandom_call_range_witness :
  int32 (fst (seededRandom_call 42)) /\ unit_interval (snd (seededRandom_call 42)).
Proof.
  destruct (seededRandom_call_range 42) as (H1 & _ & H2 & _).
  - unfold int32. lia.
  - split; [exact H1|exact H2].
Defined.

Lemma hashName_step_poly h c :
  hashName_step h c = ToInt32 (31 * h + Z.of_nat (nat_of_ascii c)).
Proof.
  unfold hashName_step. change (ToInt32 0) with 0. rewrite Z.lor_0_r.
  apply ToInt32_congr. rewrite Z.shiftl_mul_pow2 by lia.
  change (2 ^ 5) with 32.
  pose proof (ToInt32_mod (ToInt32 h * 32)) as H1.
  pose proof (ToInt32_mod h) as H2.
  apply Z.mod_divide in H1; [|lia]. apply Z.mod_divide in H2; [|lia].
  destruct H1 as (q1 & H1), H2 as (q2 & H2).
  apply Z.mod_divide; [lia|]. exists (q1 + 32 * q2). lia.
Qed.

Lemma hashName_fold l : forall h,
  ToInt32 (fold_left hashName_step l (ToInt32 h)) = ToInt32 (poly31 h l).
Proof.
  unfold poly31. induction l as [|c l IH]; intros h; cbn [fold_left].
  - apply ToInt32_id, ToInt32_range.
  - rewrite hashName_step_poly.
    replace (ToInt32 (31 * ToInt32 h + Z.of_nat (nat_of_ascii c)))
      with (ToInt32 (31 * h + Z.of_nat (nat_of_ascii c))).
    + apply IH.
    + apply ToInt32_congr.
      pose proof (ToInt32_mod h) as H. apply Z.mod_divide in H; [|lia].
      destruct H as (q & H). apply Z.mod_divide; [lia|]. exists (- 31 * q).
      lia.
Qed.

Lemma hashName_fold_int32 l : forall h,
  int32 h -> int32 (fold_left hashName_step l h).
Proof.
  induction l as [|c l IH]; intros h Hh; cbn [fold_left]; [exact Hh|].
  apply IH. rewrite hashName_step_poly. apply ToInt32_range.
Qed.

(** X28.  The hash of a name is the absolute value of the 32-bit signed
    value of the polynomial [c0 * 31^(n-1) + ... + c(n-1)] of its character
    codes.  It is never negative and at most 2^31, so its remainder by 4,
    which chooses the texture, is one of 0, 1, 2 and 3. *)
Theorem hashName_polynomial (name_ : string) :
  hashName name_ = Z.abs (ToInt32 (poly31 0 (list_ascii_of_string name_))) /\
  0 <= hashName name_ <= 2147483648 /\
  0 <= hashName name_ mod 4 <= 3.
Proof.
  assert (H : hashName name_
              = Z.abs (ToInt32 (poly31 0 (list_ascii_of_string name_)))).
  { unfold hashName. f_equal.
    rewrite <- hashName_fold. change (ToInt32 0) with 0.
    symmetry. apply ToInt32_id, hashName_fold_int32. unfold int32. lia. }
  split; [exact H|].
  pose proof (ToInt32_range (poly31 0 (list_ascii_of_string name_))) as Hr.
  unfold int32 in Hr.
  pose proof (Z.mod_pos_bound (hashName name_) 4 eq_refl).
  rewrite H in *. lia.
Qed.

End IntegerFacts.

(** ** Colours *)

Section ColourFacts.

Local Open Scope R_scope.






End ColourFacts.
